(** * LDAP-Scout: parser and classifier of [LDAP-Scout.py], embedded in Rocq

    The development follows the Python script function by function.

    - Python [str] values are sequences of Unicode code points: [list N].
    - A Python [dict] keeps its keys in insertion order, and the script
      relies on it ([list(user.keys())[-1]]): dictionaries are association
      lists in insertion order, updated in place by [dict_set].
    - Exceptions ([IndexError], [KeyError], [ValueError], [OverflowError])
      are the [Raise] results of a small error monad.
    - Python [float] is IEEE 754 binary64, taken from [SpecFloat] with
      [prec = 53] and [emax = 1024]; [int * float] converts the integer
      first, and [int < float] compares exact values.
    - [print] calls are modelled by the sequence of records they emit.

    The definitions come first: the Python primitives, the script, the
    readings of the specification the statements use, and sample data.
    The facts follow: the frequency table, float products, the entry
    inventory, the classifier, the parser with its round trip, the
    threshold levels and the classification run. *)

From Stdlib Require Import ZArith NArith List String Ascii Bool Lia SpecFloat.
Import ListNotations.

(* ================================================================== *)
(** * Python values                                                    *)
(* ================================================================== *)

Module Py.

(** ** Exceptions and the error monad *)

Inductive exn : Type :=
| IndexError
| KeyError
| ValueError
| OverflowError.

Inductive res (A : Type) : Type :=
| Ok (a : A)
| Raise (e : exn).

Arguments Ok {A} a.
Arguments Raise {A} e.

Definition bind {A B : Type} (m : res A) (k : A -> res B) : res B :=
  match m with
  | Ok a => k a
  | Raise e => Raise e
  end.

(** A [for] loop whose body may raise: the state is threaded from left
    to right and the first exception leaves the loop. *)
Fixpoint for_each {A S : Type} (body : S -> A -> res S) (l : list A) (s : S)
  : res S :=
  match l with
  | [] => Ok s
  | x :: l' => bind (body s x) (for_each body l')
  end.

(** [any(p(x) for x in l)]: stops at the first true element; an
    exception raised by [p] before that point propagates. *)
Fixpoint any_m {A : Type} (p : A -> res bool) (l : list A) : res bool :=
  match l with
  | [] => Ok false
  | x :: l' =>
      bind (p x) (fun b => if b then Ok true else any_m p l')
  end.

(** ** Strings *)

Definition char := N.
Definition str := list char.

Definition lit (s : string) : str :=
  List.map N_of_ascii (list_ascii_of_string s).

Fixpoint str_eqb (a b : str) : bool :=
  match a, b with
  | [], [] => true
  | x :: a', y :: b' => N.eqb x y && str_eqb a' b'
  | _, _ => false
  end.

(** Membership in a Python set or list of strings ([x in xs]). *)
Definition str_in (x : str) (xs : list str) : bool :=
  existsb (str_eqb x) xs.

(** [str.isspace] for one code point (the table of CPython's
    [_PyUnicode_IsWhitespace]). *)
Definition isspace (c : char) : bool :=
  ((9 <=? c) && (c <=? 13) || (28 <=? c) && (c <=? 32)
   || (c =? 133) || (c =? 160) || (c =? 5760)
   || (8192 <=? c) && (c <=? 8202)
   || (c =? 8232) || (c =? 8233) || (c =? 8239) || (c =? 8287)
   || (c =? 12288))%N.

(** The line boundaries of [str.splitlines]. *)
Definition is_linebreak (c : char) : bool :=
  ((10 <=? c) && (c <=? 13) || (28 <=? c) && (c <=? 30)
   || (c =? 133) || (c =? 8232) || (c =? 8233))%N.

Fixpoint lstrip (s : str) : str :=
  match s with
  | [] => []
  | c :: s' => if isspace c then lstrip s' else s
  end.

Definition rstrip (s : str) : str := rev (lstrip (rev s)).

Definition strip (s : str) : str := rstrip (lstrip s).

(** [str.splitlines()]: [cur] is the current line, reversed. A carriage
    return followed by a line feed is one boundary; no empty last line is
    produced after a final boundary. *)
Fixpoint splitlines_from (cur : str) (s : str) : list str :=
  match s with
  | [] => match cur with [] => [] | _ => [rev cur] end
  | c :: rest =>
      if (c =? 13)%N then
        match rest with
        | c' :: rest' =>
            if (c' =? 10)%N then rev cur :: splitlines_from [] rest'
            else rev cur :: splitlines_from [] rest
        | [] => rev cur :: splitlines_from [] rest
        end
      else if is_linebreak c then rev cur :: splitlines_from [] rest
      else splitlines_from (c :: cur) rest
  end.

Definition splitlines (s : str) : list str := splitlines_from [] s.

(** [sep in s] for a one-character [sep]. *)
Definition has_char (sep : char) (s : str) : bool := existsb (N.eqb sep) s.

(** The part of [s] before the first [sep] and the part after it. *)
Fixpoint cut (sep : char) (s : str) : option (str * str) :=
  match s with
  | [] => None
  | c :: s' =>
      if (c =? sep)%N then Some ([], s')
      else match cut sep s' with
           | Some (a, b) => Some (c :: a, b)
           | None => None
           end
  end.

(** [s.split(sep, 1)]: at most one split, at the first [sep]. *)
Definition split1 (sep : char) (s : str) : list str :=
  match cut sep s with
  | Some (a, b) => [a; b]
  | None => [s]
  end.

(** ** Dictionaries in insertion order *)

Definition dict (V : Type) := list (str * V).

Definition keys {V : Type} (d : dict V) : list str := List.map fst d.

Fixpoint dict_get {V : Type} (d : dict V) (k : str) : option V :=
  match d with
  | [] => None
  | (k', v) :: d' => if str_eqb k' k then Some v else dict_get d' k
  end.

(** [k in d] *)
Definition dict_mem {V : Type} (d : dict V) (k : str) : bool :=
  match dict_get d k with
  | Some _ => true
  | None => false
  end.

(** [d[k] = v]: an existing key keeps its position, a new key goes last. *)
Fixpoint dict_set {V : Type} (d : dict V) (k : str) (v : V) : dict V :=
  match d with
  | [] => [(k, v)]
  | (k', v') :: d' =>
      if str_eqb k' k then (k', v) :: d' else (k', v') :: dict_set d' k v
  end.

(** Truth value of a container. *)
Definition truthy {A : Type} (l : list A) : bool :=
  match l with
  | [] => false
  | _ :: _ => true
  end.

(** [l[-1]] *)
Definition last_item {A : Type} (l : list A) : res A :=
  match rev l with
  | [] => Raise IndexError
  | x :: _ => Ok x
  end.

(** [l[-1] = x] on a non-empty list. *)
Definition set_last_item {A : Type} (l : list A) (x : A) : list A :=
  removelast l ++ [x].

(** ** [collections.Counter] *)

Definition counter := dict Z.

(** [c[k]]: a missing key counts zero. *)
Definition counter_get (c : counter) (k : str) : Z :=
  match dict_get c k with
  | Some n => n
  | None => 0%Z
  end.

(** [c.update(ks)] *)
Definition counter_update (c : counter) (ks : list str) : counter :=
  fold_left (fun c k => dict_set c k (counter_get c k + 1)%Z) ks c.

(** ** Floats *)

Definition prec : Z := 53.
Definition emax : Z := 1024.

Definition float := spec_float.

(** The float nearest to the quotient of two positive integers, which is
    how a decimal literal such as [0.1] is read. *)
Definition decimal (num den : positive) : float :=
  SFdiv prec emax (binary_normalize prec emax (Zpos num) 0 false)
                  (binary_normalize prec emax (Zpos den) 0 false).

(** Conversion of an [int] operand of a float operation: rounded to
    nearest even, [OverflowError] beyond the largest finite float. *)
Definition float_of_int (n : Z) : res float :=
  match binary_normalize prec emax n 0 false with
  | S754_infinity _ => Raise OverflowError
  | x => Ok x
  end.

(** [n * x] for an [int] n and a [float] x. *)
Definition int_mul_float (n : Z) (x : float) : res float :=
  bind (float_of_int n) (fun y => Ok (SFmul prec emax y x)).

(** [c < x] for an [int] c and a [float] x: Python compares the exact
    values, the integer is not rounded. *)
Definition int_lt_float (c : Z) (x : float) : bool :=
  match x with
  | S754_nan => false
  | S754_infinity s => negb s
  | S754_zero _ => (c <? 0)%Z
  | S754_finite s m e =>
      let v := if s then Zneg m else Zpos m in
      if (0 <=? e)%Z then (c <? v * 2 ^ e)%Z else (c * 2 ^ (- e) <? v)%Z
  end.

End Py.

Import Py.

Notation "x <- m ;; k" := (bind m (fun x => k))
  (at level 61, m at next level, right associativity).

(* ================================================================== *)
(** * The script                                                       *)
(* ================================================================== *)

(** ** Constants *)

Definition standard_ldap_fields : list str :=
  List.map lit
    ["dn"; "objectClass"; "cn"; "sn"; "givenName"; "distinguishedName";
     "instanceType"; "whenCreated"; "whenChanged"; "displayName";
     "uSNCreated"; "uSNChanged"; "name"; "objectGUID";
     "userAccountControl"; "badPwdCount"; "codePage"; "countryCode";
     "badPasswordTime"; "lastLogoff"; "lastLogon"; "pwdLastSet";
     "primaryGroupID"; "objectSid"; "adminCount"; "accountExpires";
     "logonCount"; "sAMAccountName"; "sAMAccountType"; "objectCategory";
     "isCriticalSystemObject"; "dSCorePropagationData"; "telephoneNumber";
     "mail"; "memberOf"; "description"; "title"; "department"; "company";
     "streetAddress"; "postalCode"; "c"; "l"; "st"]%string.

Arguments standard_ldap_fields : simpl never.

Definition f_0_1 : float := S754_finite false 7205759403792794 (-56).
Definition f_0_25 : float := S754_finite false 4503599627370496 (-54).
Definition f_0_5 : float := S754_finite false 4503599627370496 (-53).
Definition f_0_75 : float := S754_finite false 6755399441055744 (-53).
Definition f_0_95 : float := S754_finite false 8556839292003942 (-53).
Definition f_0_6 : float := S754_finite false 5404319552844595 (-53).

(** [threshold_levels[level]] *)
Definition threshold_levels (level : Z) : res float :=
  match level with
  | 1%Z => Ok f_0_1
  | 2%Z => Ok f_0_25
  | 3%Z => Ok f_0_5
  | 4%Z => Ok f_0_75
  | 5%Z => Ok f_0_95
  | _ => Raise KeyError
  end.

Definition colon : char := 58%N.
Definition space : char := 32%N.
Definition newline : char := 10%N.

Definition Unknown : str := lit "Unknown".
Definition cn : str := lit "cn".
Definition description : str := lit "description".

(** ** [parse_ldap_output] *)

(** One directory entry: attribute name to its values, in order. *)
Definition entry := dict (list str).

(** The loop body: [users] is the list built so far, [user] the entry
    being accumulated. *)
Definition parse_line (st : list entry * entry) (raw : str)
  : res (list entry * entry) :=
  let '(users, user) := st in
  let line := strip raw in
  if negb (truthy line) then
    Ok (if truthy user then users ++ [user] else users, [])
  else if has_char colon line then
    match List.map strip (split1 colon line) with
    | [key; value] =>
        match dict_get user key with
        | Some vs => Ok (users, dict_set user key (vs ++ [value]))
        | None => Ok (users, dict_set user key [value])
        end
    | _ => Raise ValueError
    end
  else if truthy user then
    last_key <- last_item (keys user) ;;
    if truthy last_key then
      match dict_get user last_key with
      | Some vs =>
          v <- last_item vs ;;
          Ok (users,
              dict_set user last_key
                (set_last_item vs (v ++ [space] ++ strip line)))
      | None => Raise KeyError
      end
    else Ok st
  else Ok st.

Definition parse_ldap_output (ldap_output : str) : res (list entry) :=
  st <- for_each parse_line (splitlines ldap_output) ([], []) ;;
  let '(users, user) := st in
  Ok (if truthy user then users ++ [user] else users).

(** ** The frequency table *)

(** [field_count = Counter()] followed by
    [for user in users: field_count.update(user.keys())]; the top level
    builds the same table with
    [Counter(field for user in users for field in user.keys())]. *)
Definition count_fields (users : list entry) : counter :=
  fold_left (fun c user => counter_update c (keys user)) users [].

(** ** Output records *)

Inductive color : Type :=
| RED
| YELLOW
| GREEN
| MAGENTA
| RESET.

Inductive label : Type :=
| NonStandardField
| RareStandardField
| IncludedField
| IncludeAllField.

Definition label_text (l : label) : string :=
  match l with
  | NonStandardField => "Non-Standard Field"
  | RareStandardField => "Rare Standard Field"
  | IncludedField => "Included Field"
  | IncludeAllField => "Include-All Field"
  end.

(** The tuple stored for one attribute: the label, the attribute name in
    its colour, and the attribute's values. *)
Definition item : Type := label * (color * str) * list str.

Definition label_of (i : item) : label := fst (fst i).

(** ** Display name *)

(** [user.get("cn", ["Unknown"])[0]] *)
Definition get_username (user : entry) : res str :=
  match dict_get user cn with
  | Some vs =>
      match vs with
      | v :: _ => Ok v
      | [] => Raise IndexError
      end
  | None => Ok Unknown
  end.

(** ** [list_users] *)

(** [field_count[field] < total_users * fraction] *)
Definition below (field_count : counter) (total_users : Z) (fraction : float)
  (field : str) : res bool :=
  x <- int_mul_float total_users fraction ;;
  Ok (int_lt_float (counter_get field_count field) x).

(** The loop body: [printed] are the lines printed so far (colour and
    name), [displayed_users] the running count. *)
Definition list_users_step (total_users : Z) (field_count : counter)
  (st : list (color * str) * Z) (user : entry)
  : res (list (color * str) * Z) :=
  let '(printed, displayed_users) := st in
  username <- get_username user ;;
  if str_eqb username Unknown then Ok st
  else
    let non_standard :=
      existsb (fun field => negb (str_in field standard_ldap_fields))
              (keys user) in
    rare_field <- any_m (below field_count total_users f_0_6) (keys user) ;;
    let color :=
      if non_standard then RED
      else if rare_field then YELLOW
      else RESET in
    Ok (printed ++ [(color, username)], (displayed_users + 1)%Z).

(** The printed user lines (after the heading) and the returned count. *)
Definition list_users (users : list entry) (field_count : counter)
  : res (list (color * str) * Z) :=
  let total_users := Z.of_nat (List.length users) in
  for_each (list_users_step total_users field_count) users ([], 0%Z).

(** ** [validate_fields] *)

(** The loop body: the fields kept so far and the fields warned about. *)
Definition validate_step (existing_fields : list str)
  (st : list str * list str) (field : str) : list str * list str :=
  let '(valid_fields, warnings) := st in
  if str_in field existing_fields then (valid_fields ++ [field], warnings)
  else (valid_fields, warnings ++ [field]).

(** The returned list, and the fields named in the printed warnings. *)
Definition validate_fields (fields existing_fields : list str)
  : list str * list str :=
  fold_left (validate_step existing_fields) fields ([], []).

(** ** [find_non_standard_fields] *)

Section Classifier.

Variables (exclude_fields include_fields include_all_fields : list str).
Variable threshold_percentage : float.
Variable field_count : counter.
Variable total_users : Z.

(** The condition of the inner loop, with Python's short-circuit
    evaluation: the product is computed for a standard field that is
    not excluded, and only then. *)
Definition selected (field : str) : res bool :=
  if negb (str_in field exclude_fields) then
    if negb (str_in field standard_ldap_fields) then Ok true
    else below field_count total_users threshold_percentage field
  else Ok false.

(** The body of [for field, value in user.items()]. *)
Definition scan_field (data : dict item) (fv : str * list str)
  : res (dict item) :=
  let '(field, value) := fv in
  b <- selected field ;;
  if b then
    let label :=
      if negb (str_in field standard_ldap_fields) then NonStandardField
      else RareStandardField in
    let color :=
      if negb (str_in field standard_ldap_fields) then MAGENTA
      else YELLOW in
    Ok (dict_set data field (label, (color, field), value))
  else Ok data.

(** The body of [for include_field in include_fields]. *)
Definition add_included (user : entry) (data : dict item)
  (include_field : str) : dict item :=
  match dict_get user include_field with
  | Some value =>
      dict_set data include_field
        (IncludedField, (GREEN, include_field), value)
  | None => data
  end.

(** The body of [for field in include_all_fields]. *)
Definition add_include_all (user : entry) (data : dict item)
  (field : str) : dict item :=
  match dict_get user field with
  | Some value =>
      dict_set data field (IncludeAllField, (GREEN, field), value)
  | None => data
  end.

(** The body of the loop over the users. The state is the pair
    [(non_standard_fields_per_user, additional_include_users)]. *)
Definition classify_user
  (st : list (str * dict item) * list (str * dict item)) (user : entry)
  : res (list (str * dict item) * list (str * dict item)) :=
  let '(non_standard_fields_per_user, additional_include_users) := st in
  username <- get_username user ;;
  if str_eqb username Unknown && negb (dict_mem user description) then
    Ok st
  else
    non_standard_user_data <- for_each scan_field user [] ;;
    let non_standard_fields_per_user :=
      if truthy non_standard_user_data then
        non_standard_fields_per_user
          ++ [(username,
               fold_left (add_included user) include_fields
                         non_standard_user_data)]
      else non_standard_fields_per_user in
    let additional_include_users :=
      if truthy include_all_fields
         && existsb (dict_mem user) include_all_fields
      then
        additional_include_users
          ++ [(username,
               fold_left (add_include_all user) include_all_fields [])]
      else additional_include_users in
    Ok (non_standard_fields_per_user, additional_include_users).

End Classifier.

Definition find_non_standard_fields (users : list entry)
  (exclude_fields include_fields include_all_fields : list str)
  (threshold_level : Z)
  : res (list (str * dict item) * list (str * dict item)) :=
  threshold_percentage <- threshold_levels threshold_level ;;
  let field_count := count_fields users in
  let total_users := Z.of_nat (List.length users) in
  for_each
    (classify_user exclude_fields include_fields include_all_fields
                   threshold_percentage field_count total_users)
    users ([], []).

(** ** The top level, classification mode *)

(** From the parsed text to the two result lists, as the script does
    without [--list-fields] and [--list-users]. The three name sets are
    given by their iteration sequences. The result also carries the
    warnings printed by the two validations. *)
Definition run_classify (ldap_output : str)
  (exclude_fields include_fields include_all_fields : list str)
  (threshold_level : Z)
  : res (list str
         * (list (str * dict item) * list (str * dict item))) :=
  users <- parse_ldap_output ldap_output ;;
  let field_count := count_fields users in
  let all_fields_in_data := keys field_count in
  let '(include_fields, w1) :=
    validate_fields include_fields all_fields_in_data in
  let '(include_all_fields, w2) :=
    validate_fields include_all_fields all_fields_in_data in
  r <- find_non_standard_fields users exclude_fields include_fields
         include_all_fields threshold_level ;;
  Ok (w1 ++ w2, r).

(** ** [list_fields] *)

(** The lines printed after the heading: for each field of the table,
    in the order of the table, the colour, the field, its count and the
    number of entries. *)
Definition list_fields (users : list entry) : list (color * str * Z * Z) :=
  let field_count := count_fields users in
  let total_users := Z.of_nat (List.length users) in
  List.map
    (fun fc : str * Z =>
       (if negb (str_in (fst fc) standard_ldap_fields) then RED else RESET,
        fst fc, snd fc, total_users))
    field_count.

(** ** The top level, all modes *)

(** What a run prints: the field inventory; or the warnings of the
    validation, the entry inventory and its count; or the warnings, the
    two numbers of the "Users Shown" line, the pairs shown as main
    results and the pairs shown as include-all results. *)
Inductive report : Type :=
| FieldsReport (lines : list (color * str * Z * Z))
| UsersReport (warnings : list str) (lines : list (color * str))
              (filtered_users_count : Z)
| SearchReport (warnings : list str) (filtered_users_count : Z)
               (named_users : Z) (shown : list (str * dict item))
               (additional : list (str * dict item)).

(** [username != "Unknown"] on a pair of the primary output. *)
Definition known_pair (p : str * dict item) : bool :=
  negb (str_eqb (fst p) Unknown).

(** [sum(1 for user in users
         if user.get('cn', ['Unknown'])[0] == 'Unknown')] *)
Definition count_unknown (users : list entry) : res Z :=
  for_each
    (fun (n : Z) (user : entry) =>
       username <- get_username user ;;
       Ok (if str_eqb username Unknown then (n + 1)%Z else n))
    users 0%Z.

(** The script after the parsing of its arguments: [list_fields_flag]
    and [list_users_flag] are [--list-fields] and [--list-users]; the
    three name sets are given by their iteration sequences. The field
    inventory leaves before the validation; the entry inventory comes
    after it. *)
Definition main (ldap_output : str)
  (exclude_fields include_fields include_all_fields : list str)
  (list_fields_flag list_users_flag : bool) (threshold_level : Z)
  : res report :=
  users <- parse_ldap_output ldap_output ;;
  let field_count := count_fields users in
  if list_fields_flag then Ok (FieldsReport (list_fields users))
  else
    let all_fields_in_data := keys field_count in
    let '(include_fields, w1) :=
      validate_fields include_fields all_fields_in_data in
    let '(include_all_fields, w2) :=
      validate_fields include_all_fields all_fields_in_data in
    if list_users_flag then
      r <- list_users users field_count ;;
      Ok (UsersReport (w1 ++ w2) (fst r) (snd r))
    else
      r <- find_non_standard_fields users exclude_fields include_fields
             include_all_fields threshold_level ;;
      let non_standard_data := fst r in
      let additional_include_users := snd r in
      let filtered_users_count :=
        Z.of_nat (List.length (filter known_pair non_standard_data)) in
      unknown <- count_unknown users ;;
      Ok (SearchReport (w1 ++ w2) filtered_users_count
            (Z.of_nat (List.length users) - unknown)%Z
            (filter known_pair non_standard_data)
            additional_include_users).

(** ** The serialisation of the round-trip property *)

(** Modelled from the spec: the serialisation of the round-trip
    property, which the script does not have. An entry is written as one
    [key: value] line per attribute value and closed by a blank line. *)
Definition serialize_attribute (kv : str * list str) : str :=
  let '(key, values) := kv in
  flat_map (fun value => key ++ [colon; space] ++ value ++ [newline]) values.

Definition serialize_entry (e : entry) : str :=
  flat_map serialize_attribute e ++ [newline].

(** ** Readings of the specification used in the statements *)

(** The display name of an entry whose [cn], if present, has a value. *)
Definition display_name (user : entry) : str :=
  match dict_get user cn with
  | Some (v :: _) => v
  | _ => Unknown
  end.

(** An entry on which [get_username] does not raise. *)
Definition named (user : entry) : Prop := dict_get user cn <> Some [].

(** The skip rule of the classifier. *)
Definition skipped (user : entry) : bool :=
  str_eqb (display_name user) Unknown && negb (dict_mem user description).

(** The three tiers of the entry inventory, in priority order; [x] is
    the product [total_users * 0.6]. *)
Inductive tier : Type :=
| NonStandardTier
| RareTier
| StandardTier.

Definition tier_of (field_count : counter) (x : float) (user : entry)
  : tier :=
  if existsb (fun field => negb (str_in field standard_ldap_fields))
             (keys user)
  then NonStandardTier
  else if existsb
            (fun field => int_lt_float (counter_get field_count field) x)
            (keys user)
  then RareTier
  else StandardTier.

Definition tier_color (t : tier) : color :=
  match t with
  | NonStandardTier => RED
  | RareTier => YELLOW
  | StandardTier => RESET
  end.

(** What the inventory shows for one entry. *)
Definition inventory_line (field_count : counter) (x : float)
  (user : entry) : list (color * str) :=
  if str_eqb (display_name user) Unknown then []
  else [(tier_color (tier_of field_count x user), display_name user)].

(** The attributes of the entry that the classifier surfaces by itself:
    not excluded, and non-standard or below the threshold product [x]. *)
Definition noteworthy (exclude_fields : list str) (field_count : counter)
  (x : float) (field : str) : bool :=
  negb (str_in field exclude_fields)
  && (negb (str_in field standard_ldap_fields)
      || int_lt_float (counter_get field_count field) x).

(** The classifier without its exceptions: what one entry contributes
    to each of the two outputs when the threshold product is [x]. *)
Section Contribution.

Variables (exclude_fields include_fields include_all_fields : list str).
Variable field_count : counter.
Variable x : float.

Definition scan_entry (data : dict item) (fv : str * list str)
  : dict item :=
  if noteworthy exclude_fields field_count x (fst fv) then
    dict_set data (fst fv)
      (if negb (str_in (fst fv) standard_ldap_fields)
       then NonStandardField else RareStandardField,
       (if negb (str_in (fst fv) standard_ldap_fields)
        then MAGENTA else YELLOW, fst fv),
       snd fv)
  else data.

Definition primary_part (user : entry) : list (str * dict item) :=
  if skipped user then []
  else
    let data := fold_left scan_entry user [] in
    if truthy data then
      [(display_name user,
        fold_left (add_included user) include_fields data)]
    else [].

Definition include_all_part (user : entry) : list (str * dict item) :=
  if skipped user then []
  else if truthy include_all_fields
          && existsb (dict_mem user) include_all_fields
  then [(display_name user,
         fold_left (add_include_all user) include_all_fields [])]
  else [].

End Contribution.

(** The fraction a threshold level stands for, as numerator and
    denominator. *)
Definition level_fraction (level : Z) : option (Z * Z) :=
  match level with
  | 1%Z => Some (1, 10)%Z
  | 2%Z => Some (1, 4)%Z
  | 3%Z => Some (1, 2)%Z
  | 4%Z => Some (3, 4)%Z
  | 5%Z => Some (19, 20)%Z
  | _ => None
  end.

(** The number of entries that have the attribute. *)
Definition frequency (users : list entry) (field : str) : Z :=
  Z.of_nat (List.length (filter (fun user => dict_mem user field) users)).

(** The distinct elements of a list, each at its first occurrence,
    added to [seen]. *)
Definition first_seen_from (seen l : list str) : list str :=
  fold_left (fun acc k => if str_in k acc then acc else acc ++ [k]) l seen.

Definition first_seen (l : list str) : list str := first_seen_from [] l.

(** The label and the colour the scan gives to a field. *)
Definition scan_item (field : str) (value : list str) : item :=
  (if negb (str_in field standard_ldap_fields)
   then NonStandardField else RareStandardField,
   (if negb (str_in field standard_ldap_fields) then MAGENTA else YELLOW,
    field),
   value).

(** An entry that is a dictionary: no name twice. *)
Definition distinct_names (user : entry) : Prop := NoDup (keys user).

(** ** Shapes of strings and of parser states *)

(** A string without white space at its head. *)
Definition head_ok (s : str) : Prop :=
  match s with
  | [] => True
  | c :: _ => isspace c = false
  end.

(** A string [strip] leaves as it is: no white space at either end. *)
Definition trimmed (s : str) : Prop := head_ok s /\ head_ok (rev s).

(** A string without any line boundary. *)
Definition one_line (s : str) : Prop :=
  forallb (fun c => negb (is_linebreak c)) s = true.

(** A string without colon. *)
Definition colon_free (s : str) : Prop := has_char colon s = false.

(** An attribute name as the parser produces it. *)
Definition clean_key (k : str) : Prop :=
  trimmed k /\ colon_free k /\ one_line k.

(** An attribute of the accumulator: at least one value, no line
    boundary inside a value. *)
Definition good_attr (kv : str * list str) : Prop :=
  clean_key (fst kv) /\ snd kv <> [] /\ Forall one_line (snd kv).

Definition good_acc (d : entry) : Prop :=
  NoDup (keys d) /\ Forall good_attr d.

Definition good_entry (e : entry) : Prop := e <> [] /\ good_acc e.

Definition good_state (st : list entry * entry) : Prop :=
  Forall good_entry (fst st) /\ good_acc (snd st).

(** An attribute with exactly one value, which is trimmed. *)
Definition single_trimmed (kv : str * list str) : Prop :=
  exists v, snd kv = [v] /\ trimmed v.

(** The line the serialisation writes for a single-valued attribute. *)
Definition line_of (kv : str * list str) : str :=
  fst kv ++ [colon; space] ++ hd [] (snd kv).

(** A single-valued attribute that the serialisation writes on one
    line and the parser reads back as it is. *)
Definition tidy_attr (kv : str * list str) : Prop :=
  clean_key (fst kv)
  /\ exists v, snd kv = [v] /\ trimmed v /\ one_line v.

(** ** Readings of the float rounding *)

Local Open Scope Z_scope.

(** [M / 2 ^ k] rounded to the nearest integer, ties to even. *)
Definition rne (M k : Z) : Z :=
  let q := M / 2 ^ k in
  let r := M mod 2 ^ k in
  if 2 * r <? 2 ^ k then q
  else if 2 * r =? 2 ^ k then (if Z.even q then q else q + 1)
  else q + 1.

(** The float of a rounded mantissa [m] at exponent [e]. *)
Definition pack (m e : Z) : float :=
  match m with
  | 0 => S754_zero false
  | Zpos p =>
      if e <=? emax - prec then S754_finite false p e
      else S754_infinity false
  | Zneg _ => S754_nan
  end.

(** The same after the carry of a mantissa rounded up to [2 ^ prec]. *)
Definition renorm (m e : Z) : float :=
  if m =? 2 ^ prec then pack (2 ^ (prec - 1)) (e + 1) else pack m e.

(** The shift register of [SpecFloat] after [j] right shifts of [M]:
    the quotient, the last bit shifted out and whether a lower bit was
    set. *)
Definition shifted (M j : Z) (mrs : shr_record) : Prop :=
  0 <= shr_m mrs
  /\ exists L, 0 <= L < 2 ^ j
       /\ 2 * M = shr_m mrs * 2 ^ (j + 1) + Z.b2z (shr_r mrs) * 2 ^ j + L
       /\ (shr_s mrs = true <-> 0 < L).

(** The number of bits [binary_round_aux] drops from the mantissa [M] at
    exponent [E]. *)
Definition shift_of (M : positive) (E : Z) : Z :=
  Z.max (Zpos (digits2_pos M) - prec) (emin prec emax - E).

Local Close Scope Z_scope.

(** ** Sample data *)

Definition shoeSize : str := lit "shoeSize".

Definition mail : str := lit "mail".

Definition bob : entry :=
  [(cn, [lit "bob"]); (mail, [lit "b@x.com"]); (shoeSize, [lit "44"])].

Definition bob_result : dict item :=
  [(shoeSize, (NonStandardField, (MAGENTA, shoeSize), [lit "44"]));
   (mail, (IncludedField, (GREEN, mail), [lit "b@x.com"]))].

Definition al : entry := [(cn, [lit "al"]); (mail, [lit "a@x.com"])].

Definition al_rare_mail : item :=
  (RareStandardField, (YELLOW, mail), [lit "a@x.com"]).

Definition cy : entry := [(cn, [lit "cy"])].

Definition nameless : entry := [(shoeSize, [lit "41"])].

Definition called_unknown : entry :=
  [(cn, [Unknown]); (shoeSize, [lit "42"])].

Definition directory : list entry := [bob; al; cy; called_unknown].

(** The two texts of the specification's parsing examples, and a text
    whose first attribute line has an empty name. *)
Definition two_mails : str :=
  lit "mail: a@x.com" ++ [newline] ++ lit "mail: b@x.com"
      ++ [newline; newline].

Definition folded_description : str :=
  lit "description: Long te" ++ [newline] ++ lit " xt here"
      ++ [newline; newline].

Definition empty_name_then_text : str :=
  lit ": v" ++ [newline] ++ lit "w" ++ [newline].

(* ================================================================== *)
(** * Basic facts                                                      *)
(* ================================================================== *)

Lemma str_eqb_refl (a : str) : str_eqb a a = true.
Proof.
  induction a as [|x a IH]; simpl; [reflexivity|].
  now rewrite N.eqb_refl, IH.
Qed.

Lemma str_eqb_eq (a b : str) : str_eqb a b = true <-> a = b.
Proof.
  split.
  - revert b; induction a as [|x a IH]; intros [|y b] H; simpl in H;
      try discriminate; [reflexivity|].
    apply andb_true_iff in H as [Hx Hab].
    apply N.eqb_eq in Hx. apply IH in Hab. now subst.
  - intros ->. apply str_eqb_refl.
Qed.

Lemma str_eqb_neq (a b : str) : str_eqb a b = false <-> a <> b.
Proof.
  split.
  - intros H E. apply str_eqb_eq in E. congruence.
  - intros H. destruct (str_eqb a b) eqn:E; [|reflexivity].
    apply str_eqb_eq in E. contradiction.
Qed.

Lemma str_eqb_sym (a b : str) : str_eqb a b = str_eqb b a.
Proof.
  destruct (str_eqb a b) eqn:E.
  - apply str_eqb_eq in E. subst. symmetry. apply str_eqb_refl.
  - symmetry. apply str_eqb_neq. apply str_eqb_neq in E. congruence.
Qed.

Lemma str_in_In (x : str) (xs : list str) : str_in x xs = true <-> In x xs.
Proof.
  unfold str_in. rewrite existsb_exists. split.
  - intros (y & Hy & E). apply str_eqb_eq in E. now subst.
  - intros H. exists x. split; [assumption | apply str_eqb_refl].
Qed.

Lemma str_in_cons (x y : str) (xs : list str) :
  str_in x (y :: xs) = str_eqb x y || str_in x xs.
Proof. reflexivity. Qed.

(** ** Loops *)

Lemma for_each_app {A S : Type} (body : S -> A -> res S) (l1 l2 : list A)
  (s : S) :
  for_each body (l1 ++ l2) s = bind (for_each body l1 s) (for_each body l2).
Proof.
  revert s; induction l1 as [|x l1 IH]; intros s; simpl; [reflexivity|].
  destruct (body s x); simpl; [apply IH | reflexivity].
Qed.

Lemma for_each_ext_in {A S : Type} (f g : S -> A -> res S) (l : list A)
  (s : S) :
  (forall x s', In x l -> f s' x = g s' x) ->
  for_each f l s = for_each g l s.
Proof.
  revert s; induction l as [|x l IH]; intros s H; simpl; [reflexivity|].
  rewrite (H x s (or_introl eq_refl)).
  destruct (g s x); simpl; [|reflexivity].
  apply IH. intros y s' Hy. apply H. now right.
Qed.

Lemma for_each_invariant {A S : Type} (P : S -> Prop)
  (body : S -> A -> res S) (l : list A) :
  (forall s x s', In x l -> P s -> body s x = Ok s' -> P s') ->
  forall s s', P s -> for_each body l s = Ok s' -> P s'.
Proof.
  induction l as [|x l IH]; intros Hstep s s' Hs H; simpl in H.
  - now inversion H; subst.
  - destruct (body s x) as [s1|] eqn:E; simpl in H; [|discriminate].
    apply (IH (fun s0 y s0' Hy => Hstep s0 y s0' (or_intror Hy)) s1 s');
      [|assumption].
    apply (Hstep s x s1 (or_introl eq_refl) Hs E).
Qed.

Lemma any_m_total {A : Type} (p : A -> res bool) (q : A -> bool)
  (l : list A) :
  (forall x, In x l -> p x = Ok (q x)) ->
  any_m p l = Ok (existsb q l).
Proof.
  induction l as [|x l IH]; intros H; simpl; [reflexivity|].
  rewrite (H x (or_introl eq_refl)). simpl.
  destruct (q x); simpl; [reflexivity|].
  apply IH. intros y Hy. apply H. now right.
Qed.

(** ** Dictionaries *)

Lemma dict_get_set {V : Type} (d : dict V) (k k' : str) (v : V) :
  dict_get (dict_set d k v) k' =
  if str_eqb k k' then Some v else dict_get d k'.
Proof.
  induction d as [|[k0 v0] d IH]; simpl.
  - reflexivity.
  - destruct (str_eqb k0 k) eqn:E0; simpl.
    + apply str_eqb_eq in E0. subst k0.
      destruct (str_eqb k k'); reflexivity.
    + destruct (str_eqb k0 k') eqn:E1; [|apply IH].
      apply str_eqb_eq in E1. subst k0. now rewrite str_eqb_sym, E0.
Qed.

Lemma dict_get_In {V : Type} (d : dict V) (k : str) (v : V) :
  dict_get d k = Some v -> In (k, v) d.
Proof.
  induction d as [|[k0 v0] d IH]; simpl; [discriminate|].
  destruct (str_eqb k0 k) eqn:E.
  - apply str_eqb_eq in E. intros [= ->]. subst. now left.
  - intros H. right. now apply IH.
Qed.

Lemma dict_mem_keys {V : Type} (d : dict V) (k : str) :
  dict_mem d k = true <-> In k (keys d).
Proof.
  unfold dict_mem. induction d as [|[k0 v0] d IH]; simpl.
  - split; [discriminate | contradiction].
  - destruct (str_eqb k0 k) eqn:E.
    + apply str_eqb_eq in E. subst. split; [now left | reflexivity].
    + apply str_eqb_neq in E. rewrite IH. split; [now right|].
      intros [H|H]; [contradiction | assumption].
Qed.

Lemma dict_get_None_keys {V : Type} (d : dict V) (k : str) :
  dict_get d k = None <-> ~ In k (keys d).
Proof.
  rewrite <- dict_mem_keys. unfold dict_mem.
  destruct (dict_get d k); split; intros H;
    solve [reflexivity | discriminate | now exfalso; apply H].
Qed.

Lemma dict_set_fresh {V : Type} (d : dict V) (k : str) (v : V) :
  dict_get d k = None -> dict_set d k v = d ++ [(k, v)].
Proof.
  induction d as [|[k0 v0] d IH]; simpl; [reflexivity|].
  destruct (str_eqb k0 k); [discriminate|].
  intros H. now rewrite IH.
Qed.

Lemma keys_dict_set_present {V : Type} (d : dict V) (k : str) (v v0 : V) :
  dict_get d k = Some v0 -> keys (dict_set d k v) = keys d.
Proof.
  induction d as [|[k1 v1] d IH]; simpl; [discriminate|].
  destruct (str_eqb k1 k) eqn:E; simpl; [reflexivity|].
  intros H. f_equal. now apply IH.
Qed.

(** ** The frequency table *)

Lemma counter_get_set (c : counter) (k f : str) (v : Z) :
  counter_get (dict_set c k v) f
  = if str_eqb k f then v else counter_get c f.
Proof.
  unfold counter_get. rewrite dict_get_set. now destruct (str_eqb k f).
Qed.

Lemma counter_get_update (ks : list str) (f : str) :
  NoDup ks ->
  forall c : counter,
    counter_get (counter_update c ks) f
    = (counter_get c f + if str_in f ks then 1 else 0)%Z.
Proof.
  unfold counter_update.
  induction 1 as [|k ks Hk Hks IH]; intros c; cbn [fold_left].
  - cbn. lia.
  - rewrite IH, counter_get_set, str_in_cons, (str_eqb_sym f k).
    destruct (str_eqb k f) eqn:E; cbn [orb]; [|reflexivity].
    apply str_eqb_eq in E. subst k.
    destruct (str_in f ks) eqn:Ein; [|lia].
    apply str_in_In in Ein. contradiction.
Qed.

Lemma dict_mem_str_in {V : Type} (d : dict V) (k : str) :
  dict_mem d k = str_in k (keys d).
Proof.
  destruct (dict_mem d k) eqn:E.
  - symmetry. apply str_in_In. now apply dict_mem_keys.
  - destruct (str_in k (keys d)) eqn:E'; [|reflexivity].
    apply str_in_In, dict_mem_keys in E'. congruence.
Qed.

(** On entries with distinct names, the table counts for each attribute
    the entries that have it. *)
Lemma count_fields_frequency (users : list entry) (f : str) :
  Forall (fun user => NoDup (keys user)) users ->
  counter_get (count_fields users) f = frequency users f.
Proof.
  intros Hnd. unfold count_fields, frequency.
  assert (G : forall c : counter,
             counter_get
               (fold_left (fun c user => counter_update c (keys user))
                          users c) f
             = (counter_get c f
                + Z.of_nat
                    (List.length
                       (filter (fun user => dict_mem user f) users)))%Z).
  { induction Hnd as [|u users Hu Hus IH]; intros c;
      cbn [fold_left filter].
    - cbn. lia.
    - rewrite IH, (counter_get_update (keys u) f Hu), dict_mem_str_in.
      destruct (str_in f (keys u)); cbn [List.length]; lia. }
  rewrite G. reflexivity.
Qed.

(* ================================================================== *)
(** * Float products                                                  *)
(* ================================================================== *)

(** The script compares a count with [total_users * fraction], a float
    product. This part reads [binary_round_aux] of [SpecFloat] as
    rounding to nearest even ([round_spec]), derives that the product
    grows with the fraction ([int_mul_float_mono]), and that below
    [2 ^ 47] entries the comparison is the exact one with the decimal
    fraction ([level_product_exact], [inventory_product_exact]). *)

Local Open Scope Z_scope.

(** ** The shift register *)

Lemma pow2_succ (j : Z) : 0 <= j -> 2 ^ (j + 1) = 2 * 2 ^ j.
Proof. intros H. rewrite Z.pow_add_r, Z.pow_1_r by lia. lia. Qed.

Lemma pow2_pos (j : Z) : 0 <= j -> 0 < 2 ^ j.
Proof. intros H. apply Z.pow_pos_nonneg; lia. Qed.

Lemma shifted_shr_1 M j mrs :
  0 <= j -> shifted M j mrs -> shifted M (j + 1) (shr_1 mrs).
Proof.
  intros Hj (Hm & L & HL & HM & Hs).
  destruct mrs as [m r s]. cbn [shr_m shr_r shr_s] in *.
  assert (P1 : 2 ^ (j + 1) = 2 * 2 ^ j) by now apply pow2_succ.
  assert (P2 : 2 ^ (j + 1 + 1) = 4 * 2 ^ j)
    by (rewrite pow2_succ, P1; lia).
  assert (P0 : 0 < 2 ^ j) by now apply pow2_pos.
  assert (Hs' : (r || s = true) <-> 0 < Z.b2z r * 2 ^ j + L).
  { destruct r; cbn [orb Z.b2z].
    - split; [lia | reflexivity].
    - rewrite Hs. lia. }
  unfold shr_1.
  destruct m as [|[p|p|]|p]; try lia;
    (split; [cbn [shr_m]; lia|]);
    exists (Z.b2z r * 2 ^ j + L); cbn [shr_m shr_r shr_s Z.b2z];
    (split; [destruct r; cbn [Z.b2z]; lia|]);
    (split; [|exact Hs']); rewrite P2; rewrite P1 in HM; lia.
Qed.

Lemma shifted_iter_pos M (p : positive) :
  forall j mrs,
    0 <= j -> shifted M j mrs ->
    shifted M (j + Zpos p) (iter_pos shr_1 p mrs).
Proof.
  induction p as [p IH|p IH|]; intros j mrs Hj H; cbn [iter_pos].
  - replace (j + Z.pos p~1) with (j + 1 + Z.pos p + Z.pos p) by lia.
    apply IH; [lia|]. apply IH; [lia|]. now apply shifted_shr_1.
  - replace (j + Z.pos p~0) with (j + Z.pos p + Z.pos p) by lia.
    apply IH; [lia|]. now apply IH.
  - now apply shifted_shr_1.
Qed.

Lemma shifted_start M : 0 <= M -> shifted M 0 (Build_shr_record M false false).
Proof.
  intros HM. split; [exact HM|]. exists 0.
  cbn [shr_m shr_r shr_s Z.b2z].
  change (2 ^ 0) with 1. change (2 ^ (0 + 1)) with 2.
  split; [lia|]. split; [lia|]. split; [discriminate | lia].
Qed.

(** The rounding decision of the register is [rne]. *)
Lemma shifted_rne M k mrs :
  0 <= k -> shifted M k mrs ->
  round_nearest_even (shr_m mrs) (loc_of_shr_record mrs) = rne M k.
Proof.
  intros Hk (Hm & L & HL & HM & Hs).
  destruct mrs as [m r s]. cbn [shr_m shr_r shr_s] in *.
  assert (P1 : 2 ^ (k + 1) = 2 * 2 ^ k) by now apply pow2_succ.
  assert (P0 : 0 < 2 ^ k) by now apply pow2_pos.
  rewrite P1 in HM.
  assert (Hq : M / 2 ^ k = m /\ 2 * (M mod 2 ^ k) = Z.b2z r * 2 ^ k + L).
  { assert (Hdm := Z.div_mod M (2 ^ k) ltac:(lia)).
    assert (Hb := Z.mod_pos_bound M (2 ^ k) P0).
    assert (Hr : 0 <= Z.b2z r <= 1) by (destruct r; cbn; lia).
    assert (M / 2 ^ k = m); [|lia].
    nia. }
  destruct Hq as [Hq Hr]. unfold rne. rewrite Hq.
  destruct r, s; cbn [loc_of_shr_record round_nearest_even Z.b2z] in *.
  - assert (0 < L) by (now apply Hs).
    destruct (2 * (M mod 2 ^ k) <? 2 ^ k) eqn:E1; [lia|].
    destruct (2 * (M mod 2 ^ k) =? 2 ^ k) eqn:E2; [lia|]. reflexivity.
  - assert (~ 0 < L) by (intros H; apply Hs in H; discriminate).
    destruct (2 * (M mod 2 ^ k) <? 2 ^ k) eqn:E1; [lia|].
    destruct (2 * (M mod 2 ^ k) =? 2 ^ k) eqn:E2; [reflexivity|lia].
  - destruct (2 * (M mod 2 ^ k) <? 2 ^ k) eqn:E1; [reflexivity|lia].
  - destruct (2 * (M mod 2 ^ k) <? 2 ^ k) eqn:E1; [reflexivity|lia].
Qed.

(** ** [binary_round_aux] rounds to nearest even *)

(** The bit length of a positive number. *)
Lemma digits2_pos_spec (p : positive) :
  2 ^ (Zpos (digits2_pos p) - 1) <= Zpos p < 2 ^ Zpos (digits2_pos p).
Proof.
  induction p as [p IH|p IH|]; cbn [digits2_pos].
  - rewrite Pos2Z.inj_succ, Pos2Z.inj_xI.
    replace (Z.succ (Z.pos (digits2_pos p)) - 1)
      with (Z.pos (digits2_pos p) - 1 + 1) by lia.
    unfold Z.succ. rewrite !pow2_succ by lia. lia.
  - rewrite Pos2Z.inj_succ, Pos2Z.inj_xO.
    replace (Z.succ (Z.pos (digits2_pos p)) - 1)
      with (Z.pos (digits2_pos p) - 1 + 1) by lia.
    unfold Z.succ. rewrite !pow2_succ by lia. lia.
  - cbn. lia.
Qed.

(** The first shift of [binary_round_aux]. *)
Lemma shr_fexp_spec (M : positive) (E : Z) :
  0 <= shift_of M E ->
  exists mrs,
    shr_fexp prec emax (Zpos M) E loc_Exact = (mrs, E + shift_of M E)
    /\ shifted (Zpos M) (shift_of M E) mrs.
Proof.
  intros Hk. unfold shr_fexp. cbn [Zdigits2 shr_record_of_loc].
  replace (fexp prec emax (Z.pos (digits2_pos M) + E) - E)
    with (shift_of M E) by (unfold shift_of, fexp; lia).
  unfold shr. destruct (shift_of M E) as [|p|p] eqn:Ek; [| |lia].
  - eexists. split; [now rewrite Z.add_0_r|].
    apply shifted_start. lia.
  - eexists. split; [reflexivity|].
    apply (shifted_iter_pos (Zpos M) p 0); [lia|].
    apply shifted_start. lia.
Qed.

Lemma rne_bounds (M k : Z) :
  M / 2 ^ k <= rne M k <= M / 2 ^ k + 1.
Proof.
  unfold rne.
  destruct (2 * (M mod 2 ^ k) <? 2 ^ k); [lia|].
  destruct (2 * (M mod 2 ^ k) =? 2 ^ k); [|lia].
  destruct (Z.even (M / 2 ^ k)); lia.
Qed.

Lemma rne_range (M : positive) (E : Z) :
  0 <= shift_of M E ->
  0 <= rne (Zpos M) (shift_of M E) <= 2 ^ prec.
Proof.
  intros Hk.
  assert (Hb := rne_bounds (Zpos M) (shift_of M E)).
  assert (Hd := digits2_pos_spec M).
  assert (P0 := pow2_pos (shift_of M E) Hk).
  assert (Hq0 : 0 <= Zpos M / 2 ^ shift_of M E)
    by (apply Z.div_pos; lia).
  assert (Hq1 : Zpos M / 2 ^ shift_of M E < 2 ^ prec).
  { apply Z.div_lt_upper_bound; [exact P0|].
    rewrite <- Z.pow_add_r by (unfold prec; lia).
    eapply Z.lt_le_trans; [apply Hd|].
    apply Z.pow_le_mono_r; [lia|]. unfold shift_of in *. lia. }
  lia.
Qed.

(** The second shift does nothing on a mantissa that fits. *)
Lemma shr_fexp_small (m e : Z) :
  0 <= m < 2 ^ prec ->
  emin prec emax <= e ->
  shr_fexp prec emax m e loc_Exact = (Build_shr_record m false false, e).
Proof.
  intros Hm He. unfold shr_fexp. cbn [shr_record_of_loc].
  assert (Hn : fexp prec emax (Zdigits2 m + e) - e <= 0).
  { unfold fexp. destruct m as [|p|p]; cbn [Zdigits2];
      [unfold prec, emin, emax in *; lia| |lia].
    assert (Hd := digits2_pos_spec p).
    assert (Z.pos (digits2_pos p) - 1 < prec);
      [|unfold prec, emin, emax in *; lia].
    apply (Z.pow_lt_mono_r_iff 2); [lia | unfold prec; lia | lia]. }
  unfold shr. destruct (fexp prec emax (Zdigits2 m + e) - e); try reflexivity.
  lia.
Qed.

(** The second shift absorbs a carry. *)
Lemma shr_fexp_carry (e : Z) :
  emin prec emax <= e ->
  shr_fexp prec emax (2 ^ prec) e loc_Exact
  = (Build_shr_record (2 ^ (prec - 1)) false false, e + 1).
Proof.
  intros He. unfold shr_fexp.
  change (Zdigits2 (2 ^ prec)) with 54.
  replace (fexp prec emax (54 + e) - e) with 1
    by (unfold fexp, prec, emin, emax in *; lia).
  reflexivity.
Qed.

(** The product of two floats, rounded: the mantissa [M] of the exact
    product at exponent [E] loses [shift_of M E] bits. *)
Lemma round_spec (M : positive) (E : Z) :
  0 <= shift_of M E ->
  binary_round_aux prec emax false (Zpos M) E loc_Exact
  = renorm (rne (Zpos M) (shift_of M E)) (E + shift_of M E).
Proof.
  intros Hk. unfold binary_round_aux.
  destruct (shr_fexp_spec M E Hk) as (mrs & -> & Hs).
  rewrite (shifted_rne _ _ _ Hk Hs).
  assert (Hr := rne_range M E Hk).
  assert (He : emin prec emax <= E + shift_of M E)
    by (unfold shift_of; lia).
  unfold renorm.
  destruct (rne (Zpos M) (shift_of M E) =? 2 ^ prec) eqn:E53.
  - apply Z.eqb_eq in E53. rewrite E53.
    rewrite (shr_fexp_carry _ He). reflexivity.
  - apply Z.eqb_neq in E53.
    rewrite shr_fexp_small by (try lia).
    cbn [shr_m]. unfold pack.
    destruct (rne (Zpos M) (shift_of M E)); reflexivity.
Qed.

(** ** Rounding is monotone *)

Lemma rne_mono (A B k : Z) : 0 <= k -> A <= B -> rne A k <= rne B k.
Proof.
  intros Hk HAB.
  assert (P0 := pow2_pos k Hk).
  assert (Hq : A / 2 ^ k <= B / 2 ^ k) by (apply Z.div_le_mono; lia).
  assert (HbA := rne_bounds A k). assert (HbB := rne_bounds B k).
  destruct (Z.eq_dec (A / 2 ^ k) (B / 2 ^ k)) as [Heq|Hne]; [|lia].
  assert (HdA := Z.div_mod A (2 ^ k) ltac:(lia)).
  assert (HdB := Z.div_mod B (2 ^ k) ltac:(lia)).
  assert (Hr : A mod 2 ^ k <= B mod 2 ^ k) by (rewrite Heq in HdA; lia).
  unfold rne. rewrite Heq.
  destruct (2 * (A mod 2 ^ k) <? 2 ^ k) eqn:E1;
    destruct (2 * (B mod 2 ^ k) <? 2 ^ k) eqn:E2;
    destruct (2 * (A mod 2 ^ k) =? 2 ^ k) eqn:E3;
    destruct (2 * (B mod 2 ^ k) =? 2 ^ k) eqn:E4;
    destruct (Z.even (B / 2 ^ k)); lia.
Qed.

(** Rounding does not depend on the unit. *)
Lemma rne_scale (M k j : Z) :
  0 <= k -> 0 <= j -> rne (M * 2 ^ j) (k + j) = rne M k.
Proof.
  intros Hk Hj.
  assert (Pk := pow2_pos k Hk). assert (Pj := pow2_pos j Hj).
  unfold rne. rewrite Z.pow_add_r by lia.
  rewrite Z.div_mul_cancel_r by lia.
  rewrite Z.mul_mod_distr_r by lia.
  replace (2 * (M mod 2 ^ k * 2 ^ j) <? 2 ^ k * 2 ^ j)
    with (2 * (M mod 2 ^ k) <? 2 ^ k).
  2:{ destruct (Z.ltb_spec (2 * (M mod 2 ^ k)) (2 ^ k));
      destruct (Z.ltb_spec (2 * (M mod 2 ^ k * 2 ^ j)) (2 ^ k * 2 ^ j));
      try reflexivity; nia. }
  replace (2 * (M mod 2 ^ k * 2 ^ j) =? 2 ^ k * 2 ^ j)
    with (2 * (M mod 2 ^ k) =? 2 ^ k).
  2:{ destruct (Z.eqb_spec (2 * (M mod 2 ^ k)) (2 ^ k));
      destruct (Z.eqb_spec (2 * (M mod 2 ^ k * 2 ^ j)) (2 ^ k * 2 ^ j));
      try reflexivity; nia. }
  reflexivity.
Qed.

(** Two positive numbers in the same unit, with their bit lengths. *)
Lemma rounding_mono (A B dA dB mu : Z) :
  0 < A <= B ->
  2 ^ (dA - 1) <= A < 2 ^ dA ->
  2 ^ (dB - 1) <= B < 2 ^ dB ->
  prec <= dA -> prec <= dB ->
  let ka := Z.max (dA - prec) mu in
  let kb := Z.max (dB - prec) mu in
  ka <= kb /\ rne A ka <= rne B kb * 2 ^ (kb - ka).
Proof.
  intros HAB HA HB HdA HdB ka kb. unfold prec in *.
  assert (Hd : dA <= dB).
  { assert (dA - 1 < dB); [|lia].
    apply (Z.pow_lt_mono_r_iff 2); lia. }
  assert (Hka : 0 <= ka) by lia.
  assert (Hk : ka <= kb) by lia.
  split; [exact Hk|].
  destruct (Z.eq_dec ka kb) as [Heq|Hne].
  - rewrite <- Heq, Z.sub_diag, Z.pow_0_r, Z.mul_1_r.
    apply rne_mono; lia.
  - assert (Hkb : kb = dB - 53) by lia.
    assert (Pa := pow2_pos ka Hka).
    assert (Pb := pow2_pos kb ltac:(lia)).
    assert (HbA := rne_bounds A ka). assert (HbB := rne_bounds B kb).
    assert (HqA : A / 2 ^ ka < 2 ^ 53).
    { apply Z.div_lt_upper_bound; [exact Pa|].
      rewrite <- Z.pow_add_r by lia.
      eapply Z.lt_le_trans; [apply HA|].
      apply Z.pow_le_mono_r; lia. }
    assert (HqB : 2 ^ 52 <= B / 2 ^ kb).
    { apply Z.div_le_lower_bound; [exact Pb|].
      rewrite <- Z.pow_add_r by lia.
      replace (kb + 52) with (dB - 1) by lia. apply HB. }
    assert (H2 : 2 <= 2 ^ (kb - ka)).
    { change 2 with (2 ^ 1) at 1. apply Z.pow_le_mono_r; lia. }
    assert (H53 : 2 ^ 53 = 2 ^ 52 * 2) by reflexivity.
    nia.
Qed.

(** The comparison of an integer with a rounded float, in a common
    unit [2 ^ (- K)]. *)
Lemma int_lt_float_pack (c m e K : Z) :
  0 <= m -> 0 <= K -> 0 <= e + K ->
  int_lt_float c (pack m e) = true <->
  (0 < m /\ emax - prec < e) \/ c * 2 ^ K < m * 2 ^ (e + K).
Proof.
  intros Hm HK HeK. assert (PK := pow2_pos K HK).
  destruct m as [|p|p]; [| |lia]; cbn [pack int_lt_float].
  - rewrite Z.ltb_lt. split; [intros H; right; nia|].
    intros [[H _]|H]; [lia | nia].
  - destruct (Z.leb_spec e (emax - prec)) as [Hle|Hgt];
      cbn [int_lt_float negb].
    + destruct (Z.leb_spec 0 e) as [He|He]; rewrite Z.ltb_lt.
      * rewrite Z.pow_add_r by lia.
        assert (Pe := pow2_pos e He).
        split; [intros H; right; nia|].
        intros [[_ H]|H]; [lia | nia].
      * assert (Hs : 2 ^ K = 2 ^ (- e) * 2 ^ (e + K)).
        { rewrite <- Z.pow_add_r by lia. f_equal. lia. }
        assert (Pe := pow2_pos (e + K) HeK).
        rewrite Hs.
        split; [intros H; right; nia|].
        intros [[_ H]|H]; [lia | nia].
    + split; [intros _; left; lia | reflexivity].
Qed.

Lemma pack_mono (c m1 e1 m2 e2 : Z) :
  0 <= m1 -> 0 <= m2 -> e1 <= e2 ->
  m1 <= m2 * 2 ^ (e2 - e1) ->
  int_lt_float c (pack m1 e1) = true ->
  int_lt_float c (pack m2 e2) = true.
Proof.
  intros H1 H2 He Hv.
  set (K := Z.max 0 (- e1)).
  rewrite (int_lt_float_pack c m1 e1 K) by lia.
  rewrite (int_lt_float_pack c m2 e2 K) by lia.
  assert (Pd := pow2_pos (e2 - e1) ltac:(lia)).
  assert (P1 := pow2_pos (e1 + K) ltac:(lia)).
  assert (Hs : 2 ^ (e2 + K) = 2 ^ (e2 - e1) * 2 ^ (e1 + K)).
  { rewrite <- Z.pow_add_r by lia. f_equal. lia. }
  intros [[Hm Hbig]|Hlt].
  - left. split; [nia | lia].
  - right. rewrite Hs. nia.
Qed.

Lemma renorm_mono (c m1 e1 m2 e2 : Z) :
  0 <= m1 <= 2 ^ prec -> 0 <= m2 <= 2 ^ prec -> e1 <= e2 ->
  m1 <= m2 * 2 ^ (e2 - e1) ->
  int_lt_float c (renorm m1 e1) = true ->
  int_lt_float c (renorm m2 e2) = true.
Proof.
  intros H1 H2 He Hv. unfold renorm, prec in *.
  change (2 ^ (53 - 1)) with (2 ^ 52).
  assert (H53 : 2 ^ 53 = 2 ^ 52 * 2) by reflexivity.
  assert (P52 : 0 < 2 ^ 52) by reflexivity.
  assert (Pd := pow2_pos (e2 - e1) ltac:(lia)).
  destruct (Z.eqb_spec m1 (2 ^ 53)) as [E1|E1];
    destruct (Z.eqb_spec m2 (2 ^ 53)) as [E2|E2].
  - apply pack_mono; try lia;
      try (replace (e2 + 1 - (e1 + 1)) with (e2 - e1) by lia; nia).
  - assert (Hlt : e1 < e2).
    { destruct (Z.eq_dec e1 e2) as [->|]; [|lia].
      rewrite Z.sub_diag, Z.pow_0_r in Hv. lia. }
    assert (Hs : 2 ^ (e2 - e1) = 2 * 2 ^ (e2 - (e1 + 1))).
    { replace (e2 - e1) with (e2 - (e1 + 1) + 1) by lia.
      apply pow2_succ. lia. }
    apply pack_mono; try lia; try nia.
  - assert (Hs : 2 ^ (e2 + 1 - e1) = 2 * 2 ^ (e2 - e1)).
    { replace (e2 + 1 - e1) with (e2 - e1 + 1) by lia.
      apply pow2_succ. lia. }
    apply pack_mono; try lia; try nia.
  - apply pack_mono; lia.
Qed.

Lemma round_mono (Ma Mb : positive) (Ea Eb c : Z) :
  prec <= Zpos (digits2_pos Ma) ->
  prec <= Zpos (digits2_pos Mb) ->
  Ea <= Eb ->
  Zpos Ma <= Zpos Mb * 2 ^ (Eb - Ea) ->
  int_lt_float c (binary_round_aux prec emax false (Zpos Ma) Ea loc_Exact)
  = true ->
  int_lt_float c (binary_round_aux prec emax false (Zpos Mb) Eb loc_Exact)
  = true.
Proof.
  intros Hda Hdb HE HM.
  assert (Hka : 0 <= shift_of Ma Ea) by (unfold shift_of; lia).
  assert (Hkb : 0 <= shift_of Mb Eb) by (unfold shift_of; lia).
  rewrite (round_spec Ma Ea Hka), (round_spec Mb Eb Hkb).
  assert (Pd := pow2_pos (Eb - Ea) ltac:(lia)).
  assert (HdA := digits2_pos_spec Ma). assert (HdB := digits2_pos_spec Mb).
  destruct (rounding_mono (Zpos Ma) (Zpos Mb * 2 ^ (Eb - Ea))
              (Zpos (digits2_pos Ma)) (Zpos (digits2_pos Mb) + (Eb - Ea))
              (emin prec emax - Ea)) as [Hk Hv]; try lia.
  { replace (Z.pos (digits2_pos Mb) + (Eb - Ea) - 1)
      with (Z.pos (digits2_pos Mb) - 1 + (Eb - Ea)) by lia.
    rewrite !Z.pow_add_r by lia. nia. }
  replace (Z.max (Z.pos (digits2_pos Mb) + (Eb - Ea) - prec)
                 (emin prec emax - Ea))
    with (shift_of Mb Eb + (Eb - Ea)) in Hk, Hv by (unfold shift_of; lia).
  fold (shift_of Ma Ea) in Hk, Hv.
  rewrite rne_scale in Hv by lia.
  apply renorm_mono.
  - now apply rne_range.
  - now apply rne_range.
  - lia.
  - replace (Eb + shift_of Mb Eb - (Ea + shift_of Ma Ea))
      with (shift_of Mb Eb + (Eb - Ea) - shift_of Ma Ea) by lia.
    exact Hv.
Qed.

(** ** Products of a converted integer *)

Lemma round_shape (m e : Z) (l : location) :
  let r := binary_round_aux prec emax false m e l in
  r = S754_zero false \/ r = S754_nan \/ r = S754_infinity false
  \/ exists p e', r = S754_finite false p e'.
Proof.
  unfold binary_round_aux.
  destruct (shr_fexp prec emax m e l) as [mrs' e'].
  destruct (shr_fexp prec emax _ e' loc_Exact) as [mrs'' e''].
  destruct (shr_m mrs'') as [|p|p]; auto 10.
  destruct (e'' <=? emax - prec); eauto 10.
Qed.

Lemma float_of_int_shape (n : Z) (y : float) :
  0 <= n ->
  float_of_int n = Ok y ->
  y = S754_zero false \/ y = S754_nan
  \/ exists p e, y = S754_finite false p e.
Proof.
  intros Hn. unfold float_of_int, binary_normalize.
  destruct n as [|p|p]; [| |lia].
  - intros [= <-]. now left.
  - unfold binary_round.
    destruct (shl_align p 0 _) as [mz ez].
    destruct (round_shape (Zpos mz) ez loc_Exact) as [H|[H|[H|(q & e & H)]]];
      rewrite H; intros E; try discriminate E; injection E as <-;
      eauto 10.
Qed.

Lemma digits_of_large (M : positive) :
  2 ^ (prec - 1) <= Zpos M -> prec <= Zpos (digits2_pos M).
Proof.
  intros H. assert (Hd := digits2_pos_spec M).
  assert (prec - 1 < Zpos (digits2_pos M)); [|lia].
  apply (Z.pow_lt_mono_r_iff 2); lia.
Qed.

(** [n * a] and [n * b] for a non-negative integer and two normal
    positive floats with [a <= b]: every integer below the first product
    is below the second. *)
Lemma int_mul_float_mono (n c : Z) (y : float) (ma mb : positive)
  (ea eb : Z) :
  0 <= n ->
  float_of_int n = Ok y ->
  2 ^ (prec - 1) <= Zpos ma ->
  2 ^ (prec - 1) <= Zpos mb ->
  ea <= eb ->
  Zpos ma <= Zpos mb * 2 ^ (eb - ea) ->
  int_lt_float c (SFmul prec emax y (S754_finite false ma ea)) = true ->
  int_lt_float c (SFmul prec emax y (S754_finite false mb eb)) = true.
Proof.
  intros Hn Hy Ha Hb He Hab.
  destruct (float_of_int_shape n y Hn Hy) as [->|[->|(mx & ex & ->)]];
    cbn [SFmul xorb]; try (intros H; exact H).
  apply round_mono.
  - apply digits_of_large. rewrite Pos2Z.inj_mul. nia.
  - apply digits_of_large. rewrite Pos2Z.inj_mul. nia.
  - lia.
  - replace (ex + eb - (ex + ea)) with (eb - ea) by lia.
    rewrite !Pos2Z.inj_mul.
    assert (Pd := pow2_pos (eb - ea) ltac:(lia)). nia.
Qed.

Lemma threshold_levels_mono (L n c : Z) (y : float) :
  1 <= L <= 4 ->
  0 <= n ->
  float_of_int n = Ok y ->
  exists a b,
    threshold_levels L = Ok a
    /\ threshold_levels (L + 1) = Ok b
    /\ (int_lt_float c (SFmul prec emax y a) = true ->
        int_lt_float c (SFmul prec emax y b) = true).
Proof.
  intros HL Hn Hy.
  assert (HL' : L = 1 \/ L = 2 \/ L = 3 \/ L = 4) by lia.
  destruct HL' as [-> | [-> | [-> | ->]]];
    (eexists; eexists; split; [reflexivity | split; [reflexivity|]]);
    apply (int_mul_float_mono n c y _ _ _ _ Hn Hy);
    try (vm_compute; intros H; discriminate H).
Qed.

(** ** Exact conversion of small integers *)

Lemma iter_xO_value (p q : positive) :
  Zpos (Pos.iter xO p q) = Zpos p * 2 ^ Zpos q.
Proof.
  induction q as [|q IH] using Pos.peano_ind.
  - cbn [Pos.iter]. rewrite Pos2Z.inj_xO, Z.pow_1_r. lia.
  - rewrite Pos.iter_succ, Pos2Z.inj_succ, Pos2Z.inj_xO, IH.
    unfold Z.succ. rewrite pow2_succ by lia. lia.
Qed.

Lemma iter_xO_digits (p q : positive) :
  Zpos (digits2_pos (Pos.iter xO p q)) = Zpos (digits2_pos p) + Zpos q.
Proof.
  induction q as [|q IH] using Pos.peano_ind.
  - cbn [Pos.iter digits2_pos]. lia.
  - rewrite Pos.iter_succ. cbn [digits2_pos].
    rewrite !Pos2Z.inj_succ, IH. lia.
Qed.

Lemma rne_0 (M : Z) : rne M 0 = M.
Proof.
  unfold rne. change (2 ^ 0) with 1. rewrite Z.div_1_r, Z.mod_1_r.
  reflexivity.
Qed.

(** An integer with at most [prec] bits converts exactly, to a
    normalised float. *)
Lemma float_of_int_exact (p : positive) :
  Zpos p < 2 ^ prec ->
  exists mx ex,
    float_of_int (Zpos p) = Ok (S754_finite false mx ex)
    /\ Zpos (digits2_pos mx) = prec
    /\ ex = Zpos (digits2_pos p) - prec
    /\ Zpos mx = Zpos p * 2 ^ (- ex).
Proof.
  intros Hp. assert (Hd := digits2_pos_spec p).
  assert (Hd53 : Zpos (digits2_pos p) <= prec).
  { assert (Zpos (digits2_pos p) - 1 < prec); [|lia].
    apply (Z.pow_lt_mono_r_iff 2); unfold prec in *; lia. }
  unfold float_of_int, binary_normalize, binary_round, shl_align.
  replace (fexp prec emax (Z.pos (digits2_pos p) + 0) - 0)
    with (Zpos (digits2_pos p) - prec)
    by (unfold fexp, emin, prec, emax in *; lia).
  replace (fexp prec emax (Z.pos (digits2_pos p) + 0))
    with (Zpos (digits2_pos p) - prec)
    by (unfold fexp, emin, prec, emax in *; lia).
  destruct (Zpos (digits2_pos p) - prec) as [|d|d] eqn:Ed; [|lia|].
  - assert (Hk : shift_of p 0 = 0)
      by (unfold shift_of, emin, prec, emax in *; lia).
    rewrite round_spec by lia. rewrite Hk, rne_0. unfold renorm.
    destruct (Z.eqb_spec (Zpos p) (2 ^ prec)) as [E|_]; [lia|].
    cbn [pack]. exists p, 0. cbn [Z.add].
    change (0 <=? emax - prec) with true. cbv iota.
    split; [reflexivity|]. split; [lia|]. split; [lia|].
    change (2 ^ (- 0)) with 1. lia.
  - assert (Hdig := iter_xO_digits p d).
    assert (Hval := iter_xO_value p d).
    assert (Hk : shift_of (Pos.iter xO p d) (Zneg d) = 0).
    { unfold shift_of. rewrite Hdig. unfold emin, prec, emax in *. lia. }
    rewrite round_spec by lia. rewrite Hk, rne_0. unfold renorm.
    destruct (Z.eqb_spec (Zpos (Pos.iter xO p d)) (2 ^ prec)) as [E|_].
    { exfalso. assert (Hs := digits2_pos_spec (Pos.iter xO p d)).
      rewrite Hdig, E in Hs.
      replace (Zpos (digits2_pos p) + Zpos d) with prec in Hs by lia.
      lia. }
    cbn [pack]. rewrite Z.add_0_r.
    assert (Hle : (Zneg d <=? emax - prec) = true)
      by (apply Z.leb_le; unfold emax, prec; lia).
    rewrite Hle. exists (Pos.iter xO p d), (Zneg d).
    split; [reflexivity|]. split; [lia|]. split; [lia|].
    rewrite Hval. reflexivity.
Qed.

(** ** The float test and the exact fraction *)

Lemma rne_exact (g k : Z) : 0 <= k -> rne (g * 2 ^ k) k = g.
Proof.
  intros Hk. assert (P := pow2_pos k Hk). unfold rne.
  rewrite Z.div_mul, Z.mod_mul by lia.
  destruct (Z.ltb_spec (2 * 0) (2 ^ k)); [reflexivity | lia].
Qed.

Lemma int_lt_float_renorm (c m e K : Z) :
  0 <= m <= 2 ^ prec ->
  e + 1 <= emax - prec ->
  0 <= K -> 0 <= e + K ->
  int_lt_float c (renorm m e) = true <-> c * 2 ^ K < m * 2 ^ (e + K).
Proof.
  intros Hm He HK HeK. unfold renorm.
  destruct (Z.eqb_spec m (2 ^ prec)) as [->|Hne].
  - rewrite (int_lt_float_pack c (2 ^ (prec - 1)) (e + 1) K);
      [|unfold prec; lia|lia|lia].
    replace (e + 1 + K) with (e + K + 1) by lia.
    rewrite pow2_succ by lia.
    change (2 ^ prec) with (2 ^ (prec - 1) * 2).
    split; [intros [[_ H]|H]; lia | intros H; right; lia].
  - rewrite (int_lt_float_pack c m e K) by lia.
    split; [intros [[_ H]|H]; lia | intros H; now right].
Qed.

Lemma scaled_le (den n mf c P num : Z) :
  0 < den -> 0 < n -> 0 < P ->
  den * mf <= num * P ->
  n * num <= c * den ->
  n * mf <= c * P.
Proof.
  intros Hden Hn HP Hf Hc.
  assert (H1 : n * (den * mf) <= n * (num * P))
    by (apply Z.mul_le_mono_nonneg_l; lia).
  assert (H2 : n * num * P <= c * den * P)
    by (apply Z.mul_le_mono_nonneg_r; lia).
  apply (Z.mul_le_mono_pos_l _ _ den); lia.
Qed.

Lemma scaled_gap (den n mf c P num : Z) :
  0 < den -> 0 < n -> 0 < P ->
  num * P <= den * mf + den ->
  c * den < n * num ->
  3 * n * den <= P ->
  2 * n <= n * mf - c * P.
Proof.
  intros Hden Hn HP Hf Hc Hb.
  assert (H1 : n * (num * P) <= n * (den * mf + den))
    by (apply Z.mul_le_mono_nonneg_l; lia).
  assert (H2 : (c * den + 1) * P <= n * num * P)
    by (apply Z.mul_le_mono_nonneg_r; lia).
  apply (Z.mul_le_mono_pos_l _ _ den); lia.
Qed.

(** The float test against [n * f] agrees with the exact comparison
    against [n * num / den] when the float [f = mf * 2 ^ (- s)] is the
    fraction [num / den] rounded down by at most one unit in the last
    place, and [n] is below [2 ^ 47]. *)
Lemma product_below_exact (n mf : positive) (c s num den : Z) (y : float) :
  Zpos n < 2 ^ 47 ->
  2 ^ (prec - 1) <= Zpos mf < 2 ^ prec ->
  53 <= s <= 60 ->
  0 < den <= 20 ->
  den * Zpos mf <= num * 2 ^ s <= den * Zpos mf + den ->
  float_of_int (Zpos n) = Ok y ->
  int_lt_float c (SFmul prec emax y (S754_finite false mf (- s))) = true
  <-> c * den < Zpos n * num.
Proof.
  intros Hn Hmf Hs Hden Hf Hy.
  assert (Hn53 : Zpos n < 2 ^ prec).
  { eapply Z.lt_trans; [exact Hn|]. reflexivity. }
  destruct (float_of_int_exact n Hn53) as (mx & ex & Hy' & Hdx & Hex & Hmx).
  rewrite Hy in Hy'. injection Hy' as ->. cbn [SFmul xorb].
  assert (Hdn := digits2_pos_spec n).
  assert (Hdmx := digits2_pos_spec mx). rewrite Hdx in Hdmx.
  set (d := Zpos (digits2_pos n)) in *.
  assert (Hd : 1 <= d <= 47).
  { split; [unfold d; lia|].
    assert (d - 1 < 47); [|lia].
    apply (Z.pow_lt_mono_r_iff 2); lia. }
  unfold prec in Hdmx, Hmf, Hex.
  change (2 ^ (53 - 1)) with (2 ^ 52) in *.
  (* the product mantissa has 105 or 106 bits *)
  assert (HM := digits2_pos_spec (mx * mf)).
  set (D := Zpos (digits2_pos (mx * mf))) in *.
  rewrite Pos2Z.inj_mul in HM.
  assert (HD : 105 <= D <= 106).
  { assert (H104 : 2 ^ 104 = 2 ^ 52 * 2 ^ 52) by reflexivity.
    assert (H106 : 2 ^ 106 = 2 ^ 53 * 2 ^ 53) by reflexivity.
    assert (Hlo : 2 ^ 104 <= Zpos mx * Zpos mf).
    { rewrite H104. apply Z.mul_le_mono_nonneg; lia. }
    assert (Hhi : Zpos mx * Zpos mf < 2 ^ 106).
    { rewrite H106. apply Z.mul_lt_mono_nonneg; lia. }
    split.
    - assert (104 < D); [|lia].
      apply (Z.pow_lt_mono_r_iff 2); [lia | unfold D; lia | lia].
    - assert (D - 1 < 106); [|lia].
      apply (Z.pow_lt_mono_r_iff 2); [lia | lia | lia]. }
  assert (Hk : shift_of (mx * mf) (ex + - s) = D - 53).
  { unfold shift_of. fold D. unfold emin, prec, emax. lia. }
  rewrite round_spec by lia. rewrite Hk.
  assert (Hr := rne_range (mx * mf) (ex + - s) ltac:(lia)).
  rewrite Hk in Hr.
  rewrite (int_lt_float_renorm c _ _ (s - ex));
    [|exact Hr|unfold emax, prec; lia|lia|lia].
  replace (ex + - s + (D - 53) + (s - ex)) with (D - 53) by lia.
  set (k := D - 53) in *.
  assert (Hkr : 52 <= k <= 53) by (unfold k; lia).
  assert (Pk := pow2_pos k ltac:(lia)).
  set (a := 2 ^ (- ex)) in *.
  assert (Pa : 0 < a) by (apply pow2_pos; lia).
  assert (Ps := pow2_pos s ltac:(lia)).
  assert (HK : 2 ^ (s - ex) = 2 ^ s * a).
  { unfold a. rewrite <- Z.pow_add_r by lia. f_equal; lia. }
  assert (Hg : 2 ^ (s - ex) = 2 ^ (s - ex - k) * 2 ^ k).
  { rewrite <- Z.pow_add_r by lia. f_equal; lia. }
  assert (Hka : 2 ^ k <= 2 * Zpos n * a).
  { assert (Hda : 2 ^ d * a = 2 ^ 53).
    { unfold a. rewrite <- Z.pow_add_r by lia. f_equal; lia. }
    assert (Hk53 : 2 ^ k <= 2 ^ 53) by (apply Z.pow_le_mono_r; lia).
    assert (Hd2 : 2 ^ d = 2 * 2 ^ (d - 1)).
    { replace d with (d - 1 + 1) at 1 by lia. apply pow2_succ. lia. }
    assert (2 ^ d * a <= 2 * Zpos n * a);
      [apply Z.mul_le_mono_nonneg_r; lia | lia]. }
  assert (Hb : 3 * Zpos n * den <= 2 ^ s).
  { assert (Hs53 : 2 ^ 53 <= 2 ^ s) by (apply Z.pow_le_mono_r; lia).
    assert (H47 : 2 ^ 53 = 64 * 2 ^ 47) by reflexivity.
    assert (Zpos n * den <= 2 ^ 47 * 20);
      [apply Z.mul_le_mono_nonneg; lia | lia]. }
  rewrite Pos2Z.inj_mul, Hmx.
  set (g := 2 ^ (s - ex - k)) in *.
  split.
  - (* the float test implies the exact one *)
    intros Hlt.
    destruct (Z.lt_ge_cases (c * den) (Zpos n * num)) as [H|H]; [exact H|].
    exfalso.
    assert (HX := scaled_le den (Zpos n) (Zpos mf) c (2 ^ s) num
                    ltac:(lia) ltac:(lia) Ps ltac:(lia) H).
    assert (HMC : Zpos n * a * Zpos mf <= c * g * 2 ^ k).
    { replace (c * g * 2 ^ k) with (c * 2 ^ s * a)
        by (rewrite <- (Z.mul_assoc c g), <- Hg, HK; ring).
      replace (Zpos n * a * Zpos mf) with (Zpos n * Zpos mf * a) by ring.
      apply Z.mul_le_mono_nonneg_r; lia. }
    assert (Hm := rne_mono _ _ k ltac:(lia) HMC).
    rewrite rne_exact in Hm by lia.
    rewrite Hg, Z.mul_assoc in Hlt.
    assert (rne (Zpos n * a * Zpos mf) k * 2 ^ k <= c * g * 2 ^ k);
      [apply Z.mul_le_mono_nonneg_r; lia | lia].
  - (* the exact test implies the float one *)
    intros Hlt.
    assert (HX := scaled_gap den (Zpos n) (Zpos mf) c (2 ^ s) num
                    ltac:(lia) ltac:(lia) Ps ltac:(lia) Hlt Hb).
    assert (HMC : (c * g + 1) * 2 ^ k <= Zpos n * a * Zpos mf).
    { replace ((c * g + 1) * 2 ^ k) with (c * (2 ^ s * a) + 2 ^ k)
        by (rewrite <- HK, Hg; ring).
      assert (2 * Zpos n * a <= (Zpos n * Zpos mf - c * 2 ^ s) * a);
        [apply Z.mul_le_mono_nonneg_r; lia|].
      replace (Zpos n * a * Zpos mf)
        with (c * (2 ^ s * a) + (Zpos n * Zpos mf - c * 2 ^ s) * a) by ring.
      lia. }
    assert (Hm := rne_mono _ _ k ltac:(lia) HMC).
    rewrite rne_exact in Hm by lia.
    rewrite Hg, Z.mul_assoc.
    assert ((c * g + 1) * 2 ^ k <= rne (Zpos n * a * Zpos mf) k * 2 ^ k);
      [apply Z.mul_le_mono_nonneg_r; lia | lia].
Qed.

Lemma rne_low (G e k : Z) :
  0 <= k -> 0 <= e -> 2 * e < 2 ^ k -> rne (G * 2 ^ k + e) k = G.
Proof.
  intros Hk He Hh. assert (P := pow2_pos k Hk). unfold rne.
  rewrite (Z.add_comm (G * 2 ^ k) e).
  rewrite Z.div_add, Z.mod_add by lia.
  rewrite Z.div_small, Z.mod_small by lia.
  destruct (Z.ltb_spec (2 * e) (2 ^ k)); [reflexivity | lia].
Qed.

(** The same for a float [f = mf * 2 ^ (- s)] that is the fraction
    [1 / den] rounded up by [delta / den] units in the last place. *)
Lemma product_below_exact_up (n mf : positive) (c s den delta : Z)
  (y : float) :
  Zpos n < 2 ^ 47 ->
  2 ^ (prec - 1) <= Zpos mf < 2 ^ prec ->
  54 <= s <= 60 ->
  0 < den <= 20 ->
  den * Zpos mf = 2 ^ s + delta ->
  0 <= delta ->
  delta * 2 ^ 54 <= 2 ^ s ->
  2 * delta <= den ->
  float_of_int (Zpos n) = Ok y ->
  int_lt_float c (SFmul prec emax y (S754_finite false mf (- s))) = true
  <-> c * den < Zpos n.
Proof.
  intros Hn Hmf Hs Hden Hf Hdelta Hsmall Hhalf Hy.
  assert (Hn53 : Zpos n < 2 ^ prec).
  { eapply Z.lt_trans; [exact Hn|]. reflexivity. }
  destruct (float_of_int_exact n Hn53) as (mx & ex & Hy' & Hdx & Hex & Hmx).
  rewrite Hy in Hy'. injection Hy' as ->. cbn [SFmul xorb].
  assert (Hdn := digits2_pos_spec n).
  assert (Hdmx := digits2_pos_spec mx). rewrite Hdx in Hdmx.
  set (d := Zpos (digits2_pos n)) in *.
  assert (Hd : 1 <= d <= 47).
  { split; [unfold d; lia|].
    assert (d - 1 < 47); [|lia].
    apply (Z.pow_lt_mono_r_iff 2); lia. }
  unfold prec in Hdmx, Hmf, Hex.
  change (2 ^ (53 - 1)) with (2 ^ 52) in *.
  assert (HM := digits2_pos_spec (mx * mf)).
  set (D := Zpos (digits2_pos (mx * mf))) in *.
  rewrite Pos2Z.inj_mul in HM.
  assert (HD : 105 <= D <= 106).
  { assert (H104 : 2 ^ 104 = 2 ^ 52 * 2 ^ 52) by reflexivity.
    assert (H106 : 2 ^ 106 = 2 ^ 53 * 2 ^ 53) by reflexivity.
    assert (Hlo : 2 ^ 104 <= Zpos mx * Zpos mf).
    { rewrite H104. apply Z.mul_le_mono_nonneg; lia. }
    assert (Hhi : Zpos mx * Zpos mf < 2 ^ 106).
    { rewrite H106. apply Z.mul_lt_mono_nonneg; lia. }
    split.
    - assert (104 < D); [|lia].
      apply (Z.pow_lt_mono_r_iff 2); [lia | unfold D; lia | lia].
    - assert (D - 1 < 106); [|lia].
      apply (Z.pow_lt_mono_r_iff 2); [lia | lia | lia]. }
  assert (Hk : shift_of (mx * mf) (ex + - s) = D - 53).
  { unfold shift_of. fold D. unfold emin, prec, emax. lia. }
  rewrite round_spec by lia. rewrite Hk.
  assert (Hr := rne_range (mx * mf) (ex + - s) ltac:(lia)).
  rewrite Hk in Hr.
  rewrite (int_lt_float_renorm c _ _ (s - ex));
    [|exact Hr|unfold emax, prec; lia|lia|lia].
  replace (ex + - s + (D - 53) + (s - ex)) with (D - 53) by lia.
  set (k := D - 53) in *.
  assert (Hkr : 52 <= k <= 53) by (unfold k; lia).
  assert (Pk := pow2_pos k ltac:(lia)).
  set (a := 2 ^ (- ex)) in *.
  assert (Pa : 0 < a) by (apply pow2_pos; lia).
  assert (Ps := pow2_pos s ltac:(lia)).
  assert (HK : 2 ^ (s - ex) = 2 ^ s * a).
  { unfold a. rewrite <- Z.pow_add_r by lia. f_equal; lia. }
  assert (Hg : 2 ^ (s - ex) = 2 ^ (s - ex - k) * 2 ^ k).
  { rewrite <- Z.pow_add_r by lia. f_equal; lia. }
  assert (Hda : 2 ^ d * a = 2 ^ 53).
  { unfold a. rewrite <- Z.pow_add_r by lia. f_equal; lia. }
  assert (Hd2 : 2 ^ d = 2 * 2 ^ (d - 1)).
  { replace d with (d - 1 + 1) at 1 by lia. apply pow2_succ. lia. }
  assert (Hka : 2 ^ k <= 2 * Zpos n * a).
  { assert (Hk53 : 2 ^ k <= 2 ^ 53) by (apply Z.pow_le_mono_r; lia).
    assert (2 ^ d * a <= 2 * Zpos n * a);
      [apply Z.mul_le_mono_nonneg_r; lia | lia]. }
  assert (Hs54 : 2 ^ 54 <= 2 ^ s) by (apply Z.pow_le_mono_r; lia).
  assert (H47 : 2 ^ 54 = 128 * 2 ^ 47) by reflexivity.
  assert (Hb : 3 * Zpos n * den <= 2 ^ s).
  { assert (Zpos n * den <= 2 ^ 47 * 20);
      [apply Z.mul_le_mono_nonneg; lia | lia]. }
  assert (Hnd : Zpos n * delta <= 2 ^ s).
  { assert (Zpos n * delta <= 2 ^ 47 * delta);
      [apply Z.mul_le_mono_nonneg_r; lia | lia]. }
  rewrite Pos2Z.inj_mul, Hmx.
  set (g := 2 ^ (s - ex - k)) in *.
  assert (Hexp : den * (Zpos n * Zpos mf - c * 2 ^ s)
                 = (Zpos n - c * den) * 2 ^ s + Zpos n * delta).
  { replace (den * (Zpos n * Zpos mf - c * 2 ^ s))
      with (Zpos n * (den * Zpos mf) - c * den * 2 ^ s) by ring.
    rewrite Hf. ring. }
  split.
  - (* the float test implies the exact one *)
    intros Hlt.
    destruct (Z.lt_ge_cases (c * den) (Zpos n)) as [H|H]; [exact H|].
    exfalso. rewrite Hg, Z.mul_assoc in Hlt.
    assert (Hrne : rne (Zpos n * a * Zpos mf) k <= c * g);
      [|assert (rne (Zpos n * a * Zpos mf) k * 2 ^ k <= c * g * 2 ^ k);
        [apply Z.mul_le_mono_nonneg_r; lia | lia]].
    destruct (Z.eq_dec (c * den) (Zpos n)) as [Heq|Hne].
    + (* the product is just above the integer [c] *)
      assert (HX : Zpos n * Zpos mf - c * 2 ^ s = c * delta).
      { apply (Z.mul_reg_l _ _ den); [lia|]. rewrite Hexp, <- Heq. ring. }
      assert (Hc0 : 0 < c).
      { destruct (Z.lt_ge_cases 0 c) as [Hc|Hc]; [exact Hc|].
        assert (c * den <= 0); [apply Z.mul_nonpos_nonneg; lia | lia]. }
      assert (HMe : Zpos n * a * Zpos mf
                    = c * g * 2 ^ k + c * delta * a).
      { replace (c * g * 2 ^ k) with (c * 2 ^ s * a)
          by (rewrite <- (Z.mul_assoc c g), <- Hg, HK; ring).
        rewrite <- HX. ring. }
      rewrite HMe. rewrite rne_low; [lia | lia | |].
      { apply Z.mul_nonneg_nonneg; [apply Z.mul_nonneg_nonneg|]; lia. }
      assert (Hca : c * a * den = Zpos n * a) by (rewrite <- Heq; ring).
      destruct (Z.eq_dec k 52) as [Ek|Ek].
      * (* a product below [2 ^ 105] *)
        assert (HMlt : Zpos n * a * Zpos mf < 2 ^ 105).
        { assert (HD105 : D = 105) by (unfold k in Ek; lia).
          rewrite <- Hmx, <- HD105. apply HM. }
        assert (Hlow : c * a * 2 ^ s < 2 ^ 105).
        { rewrite <- Hca in HMlt.
          replace (c * a * den * Zpos mf) with (c * a * (den * Zpos mf))
            in HMlt by ring.
          rewrite Hf in HMlt.
          assert (0 <= c * a * delta)
            by (apply Z.mul_nonneg_nonneg;
                [apply Z.mul_nonneg_nonneg|]; lia).
          lia. }
        assert (H105 : 2 ^ 105 = 2 ^ 51 * 2 ^ 54) by reflexivity.
        assert (Hds : c * a * (delta * 2 ^ 54) <= c * a * 2 ^ s).
        { apply Z.mul_le_mono_nonneg_l;
            [apply Z.mul_nonneg_nonneg; lia | lia]. }
        rewrite Ek.
        assert (c * delta * a * 2 ^ 54 < 2 ^ 51 * 2 ^ 54) by lia.
        assert (c * delta * a < 2 ^ 51).
        { apply (Z.mul_lt_mono_pos_r (2 ^ 54)); [reflexivity | lia]. }
        change (2 ^ 52) with (2 * 2 ^ 51). lia.
      * assert (Ek' : k = 53) by lia. rewrite Ek'.
        assert (Hna : Zpos n * a < 2 ^ 53).
        { rewrite <- Hda. apply Z.mul_lt_mono_pos_r; lia. }
        assert (Hcda : 2 * (c * delta * a) <= c * a * den).
        { replace (2 * (c * delta * a)) with (c * a * (2 * delta)) by ring.
          apply Z.mul_le_mono_nonneg_l;
            [apply Z.mul_nonneg_nonneg; lia | lia]. }
        lia.
    + (* the product is below the integer [c] *)
      assert (HX : Zpos n * Zpos mf <= c * 2 ^ s).
      { assert (Hle : (Zpos n - c * den) * 2 ^ s <= (- 1) * 2 ^ s)
          by (apply Z.mul_le_mono_nonneg_r; lia).
        assert (den * (Zpos n * Zpos mf - c * 2 ^ s) <= den * 0);
          [rewrite Hexp; lia|].
        apply Z.mul_le_mono_pos_l in H0; lia. }
      assert (HMC : Zpos n * a * Zpos mf <= c * g * 2 ^ k).
      { replace (c * g * 2 ^ k) with (c * 2 ^ s * a)
          by (rewrite <- (Z.mul_assoc c g), <- Hg, HK; ring).
        replace (Zpos n * a * Zpos mf) with (Zpos n * Zpos mf * a) by ring.
        apply Z.mul_le_mono_nonneg_r; lia. }
      assert (Hm := rne_mono _ _ k ltac:(lia) HMC).
      rewrite rne_exact in Hm by lia. exact Hm.
  - (* the exact test implies the float one *)
    intros Hlt.
    assert (HX : 2 * Zpos n <= Zpos n * Zpos mf - c * 2 ^ s).
    { assert (Hge : 1 * 2 ^ s <= (Zpos n - c * den) * 2 ^ s)
        by (apply Z.mul_le_mono_nonneg_r; lia).
      assert (Hnn : 0 <= Zpos n * delta)
        by (apply Z.mul_nonneg_nonneg; lia).
      apply (Z.mul_le_mono_pos_l _ _ den); [lia|]. rewrite Hexp. lia. }
    assert (HMC : (c * g + 1) * 2 ^ k <= Zpos n * a * Zpos mf).
    { replace ((c * g + 1) * 2 ^ k) with (c * (2 ^ s * a) + 2 ^ k)
        by (rewrite <- HK, Hg; ring).
      assert (2 * Zpos n * a <= (Zpos n * Zpos mf - c * 2 ^ s) * a);
        [apply Z.mul_le_mono_nonneg_r; lia|].
      replace (Zpos n * a * Zpos mf)
        with (c * (2 ^ s * a) + (Zpos n * Zpos mf - c * 2 ^ s) * a) by ring.
      lia. }
    assert (Hm := rne_mono _ _ k ltac:(lia) HMC).
    rewrite rne_exact in Hm by lia.
    rewrite Hg, Z.mul_assoc.
    assert ((c * g + 1) * 2 ^ k <= rne (Zpos n * a * Zpos mf) k * 2 ^ k);
      [apply Z.mul_le_mono_nonneg_r; lia | lia].
Qed.

(** ** The fractions of the script *)

(** Closed comparisons of integer constants. *)
Ltac by_computation :=
  repeat match goal with |- _ /\ _ => split end;
  vm_compute;
  solve [reflexivity | let H := fresh in intros H; discriminate H].

Lemma threshold_levels_dom (level : Z) (thr : float) :
  threshold_levels level = Ok thr -> 1 <= level <= 5.
Proof.
  unfold threshold_levels. intros H.
  destruct level as [|p|p]; try discriminate H.
  do 3 (try (destruct p as [p|p|]; try discriminate H; try lia)).
Qed.

(** Below [2 ^ 47] entries, the float test of a level is the exact
    comparison with the fraction of the level. *)
Lemma level_product_exact (level n c num den : Z) (thr y : float) :
  threshold_levels level = Ok thr ->
  level_fraction level = Some (num, den) ->
  0 <= n < 2 ^ 47 ->
  float_of_int n = Ok y ->
  int_lt_float c (SFmul prec emax y thr) = true <-> c * den < n * num.
Proof.
  intros Hthr Hfr Hn Hy.
  assert (Hdom := threshold_levels_dom level thr Hthr).
  destruct n as [|n|n]; [| |lia].
  { (* no entry at all *)
    injection Hy as <-.
    assert (Hden : 0 < den).
    { assert (HL : level = 1 \/ level = 2 \/ level = 3 \/ level = 4
                   \/ level = 5) by lia.
      destruct HL as [-> | [-> | [-> | [-> | ->]]]];
        injection Hfr as <- <-; lia. }
    assert (HL : level = 1 \/ level = 2 \/ level = 3 \/ level = 4
                 \/ level = 5) by lia.
    destruct HL as [-> | [-> | [-> | [-> | ->]]]];
      injection Hthr as <-;
      cbn [SFmul xorb int_lt_float f_0_1 f_0_25 f_0_5 f_0_75 f_0_95];
      rewrite Z.ltb_lt; lia. }
  assert (HL : level = 1 \/ level = 2 \/ level = 3 \/ level = 4
               \/ level = 5) by lia.
  destruct HL as [-> | [-> | [-> | [-> | ->]]]];
    injection Hthr as <-; injection Hfr as <- <-.
  - rewrite Z.mul_1_r.
    apply (product_below_exact_up n _ c 56 10 4 y); try assumption;
      try lia; by_computation.
  - apply (product_below_exact n _ c 54 1 4 y); try assumption; try lia;
      by_computation.
  - apply (product_below_exact n _ c 53 1 2 y); try assumption; try lia;
      by_computation.
  - apply (product_below_exact n _ c 53 3 4 y); try assumption; try lia;
      by_computation.
  - apply (product_below_exact n _ c 53 19 20 y); try assumption; try lia;
      by_computation.
Qed.

(** The same for the fixed cutoff of the entry inventory. *)
Lemma inventory_product_exact (n c : Z) (y : float) :
  0 <= n < 2 ^ 47 ->
  float_of_int n = Ok y ->
  int_lt_float c (SFmul prec emax y f_0_6) = true <-> 5 * c < 3 * n.
Proof.
  intros Hn Hy. destruct n as [|n|n]; [| |lia].
  - injection Hy as <-. cbn [SFmul xorb int_lt_float f_0_6].
    rewrite Z.ltb_lt. lia.
  - assert (H : int_lt_float c (SFmul prec emax y f_0_6) = true
                <-> c * 5 < Zpos n * 3)
      by (apply (product_below_exact n _ c 53 3 5 y); try assumption;
          try lia; by_computation).
    rewrite H. lia.
Qed.

(** Sizes below [2 ^ 53] convert without exception. *)
Lemma float_of_int_small (n : Z) :
  0 <= n < 2 ^ prec -> exists y, float_of_int n = Ok y.
Proof.
  intros Hn. destruct n as [|n|n]; [| |lia].
  - now exists (S754_zero false).
  - destruct (float_of_int_exact n (proj2 Hn)) as (mx & ex & H & _).
    eauto.
Qed.

Local Close Scope Z_scope.

(** ** Display names *)

Lemma get_username_named (user : entry) :
  named user -> get_username user = Ok (display_name user).
Proof.
  unfold named, get_username, display_name.
  destruct (dict_get user cn) as [[|v vs]|]; intros H;
    [now exfalso | reflexivity | reflexivity].
Qed.

Lemma for_each_skip {A S : Type} (body : S -> A -> res S) (x : A)
  (pre post : list A) (s : S) :
  (forall s', body s' x = Ok s') ->
  for_each body (pre ++ x :: post) s = for_each body (pre ++ post) s.
Proof.
  intros H. rewrite !for_each_app.
  destruct (for_each body pre s) as [s1|]; simpl; [|reflexivity].
  now rewrite H.
Qed.

(** ** The entry inventory *)

Lemma below_total (field_count : counter) (total_users : Z)
  (fraction x : float) (field : str) :
  int_mul_float total_users fraction = Ok x ->
  below field_count total_users fraction field
  = Ok (int_lt_float (counter_get field_count field) x).
Proof. unfold below. now intros ->. Qed.

Lemma list_users_step_named (total_users : Z) (field_count : counter)
  (x : float) (printed : list (color * str)) (n : Z) (user : entry) :
  int_mul_float total_users f_0_6 = Ok x ->
  named user ->
  list_users_step total_users field_count (printed, n) user
  = Ok (printed ++ inventory_line field_count x user,
        (n + Z.of_nat (List.length (inventory_line field_count x user)))%Z).
Proof.
  intros Hx Hn. unfold list_users_step, inventory_line.
  rewrite (get_username_named user Hn). simpl.
  destruct (str_eqb (display_name user) Unknown).
  - simpl. now rewrite app_nil_r, Z.add_0_r.
  - rewrite (any_m_total _
      (fun field => int_lt_float (counter_get field_count field) x)).
    + simpl. unfold tier_of.
      destruct (existsb _ (keys user)); [reflexivity|].
      destruct (existsb _ (keys user)); reflexivity.
    + intros f _. now apply below_total.
Qed.

Lemma list_users_loop (total_users : Z) (field_count : counter) (x : float)
  (users : list entry) :
  int_mul_float total_users f_0_6 = Ok x ->
  Forall named users ->
  forall printed n,
    for_each (list_users_step total_users field_count) users (printed, n)
    = Ok (printed ++ flat_map (inventory_line field_count x) users,
          (n + Z.of_nat
                 (List.length
                    (flat_map (inventory_line field_count x) users)))%Z).
Proof.
  intros Hx. induction 1 as [|u l Hu Hl IH]; intros printed n;
    cbn [for_each flat_map].
  - cbn. now rewrite app_nil_r, Z.add_0_r.
  - rewrite (list_users_step_named _ _ _ _ _ _ Hx Hu). cbn [bind].
    rewrite IH, <- app_assoc, length_app, Nat2Z.inj_add.
    do 2 f_equal. lia.
Qed.

(** C8. In [list_users], on a data set whose size converts to a float
    and whose entries all have a usable [cn], the function prints, in
    order, one line per entry whose display name is not "Unknown": red
    (non-standard) if some attribute is outside the standard set, else
    yellow (rare) if some attribute has a count strictly below
    [total_users * 0.6], else uncoloured (standard). Entries named
    "Unknown" print nothing and are not counted; the returned number is
    the number of printed lines. The function has no threshold
    parameter. Below [2 ^ 47] entries the float test against
    [total_users * 0.6] is the exact test [5 * count < 3 * total], and
    the table the top level passes counts, for each attribute, the
    entries that have it. *)
Theorem list_users_tiers :
  forall (users : list entry) (field_count : counter) (x : float),
    int_mul_float (Z.of_nat (List.length users)) f_0_6 = Ok x ->
    Forall named users ->
    let shown := flat_map (inventory_line field_count x) users in
    list_users users field_count = Ok (shown, Z.of_nat (List.length shown))
    /\ (forall user,
          display_name user = Unknown ->
          inventory_line field_count x user = [])
    /\ (forall user,
          display_name user <> Unknown ->
          inventory_line field_count x user
          = [(match tier_of field_count x user with
              | NonStandardTier => RED
              | RareTier => YELLOW
              | StandardTier => RESET
              end, display_name user)])
    /\ (forall user,
          tier_of field_count x user = NonStandardTier <->
          exists field,
            In field (keys user)
            /\ ~ In field standard_ldap_fields)
    /\ (forall user,
          tier_of field_count x user = RareTier <->
          (forall field,
              In field (keys user) -> In field standard_ldap_fields)
          /\ exists field,
              In field (keys user)
              /\ int_lt_float (counter_get field_count field) x = true)
    /\ ((Z.of_nat (List.length users) < 2 ^ 47)%Z ->
        forall c,
          int_lt_float c x = true <->
          (5 * c < 3 * Z.of_nat (List.length users))%Z)
    /\ (Forall (fun user => NoDup (keys user)) users ->
        forall field,
          counter_get (count_fields users) field = frequency users field).
Proof.
  intros users field_count x Hx Hn shown.
  split; [|split; [|split; [|split; [|split; [|split]]]]];
    [| | | | | |
     intros Hnd field; now apply count_fields_frequency];
    [| | | | |
     intros Hsize c; unfold int_mul_float in Hx;
     destruct (float_of_int (Z.of_nat (List.length users))) as [y|] eqn:Ey;
     [|discriminate Hx]; cbn [bind] in Hx; injection Hx as <-;
     apply (inventory_product_exact _ c y); [lia | exact Ey]].
  - unfold list_users. now rewrite (list_users_loop _ _ _ _ Hx Hn).
  - intros user H. unfold inventory_line. rewrite H.
    now rewrite str_eqb_refl.
  - intros user H. unfold inventory_line.
    apply str_eqb_neq in H. rewrite H. unfold tier_color.
    reflexivity.
  - intros user. unfold tier_of.
    destruct (existsb _ (keys user)) eqn:E.
    + split; [intros _|reflexivity].
      apply existsb_exists in E as (f & Hf & Hs).
      exists f. split; [assumption|].
      rewrite <- str_in_In. now destruct (str_in f standard_ldap_fields).
    + split.
      * destruct (existsb (fun f => int_lt_float _ _) (keys user));
          intros H; discriminate H.
      * intros (f & Hf & Hs). exfalso.
        assert (T : existsb
                      (fun field => negb (str_in field standard_ldap_fields))
                      (keys user) = true).
        { apply existsb_exists. exists f. split; [assumption|].
          destruct (str_in f standard_ldap_fields) eqn:E'; [|reflexivity].
          apply str_in_In in E'. contradiction. }
        congruence.
  - intros user. unfold tier_of.
    destruct (existsb (fun field => negb _) (keys user)) eqn:E.
    + split; [intros H; discriminate H|]. intros [Hall _]. exfalso.
      apply existsb_exists in E as (f & Hf & Hs).
      apply Hall, str_in_In in Hf. rewrite Hf in Hs. discriminate.
    + assert (Hall : forall field,
                 In field (keys user) -> In field standard_ldap_fields).
      { intros f Hf. apply str_in_In.
        destruct (str_in f standard_ldap_fields) eqn:E'; [reflexivity|].
        exfalso.
        assert (T : existsb
                      (fun field => negb (str_in field standard_ldap_fields))
                      (keys user) = true).
        { apply existsb_exists. exists f. now rewrite E'. }
        congruence. }
      destruct (existsb (fun f => int_lt_float _ _) (keys user)) eqn:E2.
      * split; [intros _|reflexivity]. split; [assumption|].
        apply existsb_exists in E2 as (f & Hf & Hs). now exists f.
      * split; [intros H; discriminate H|]. intros [_ (f & Hf & Hs)]. exfalso.
        assert (T : existsb
                      (fun field =>
                         int_lt_float (counter_get field_count field) x)
                      (keys user) = true).
        { apply existsb_exists. now exists f. }
        congruence.
Qed.

Lemma list_users_tiers_witness :
  int_mul_float (Z.of_nat (List.length directory)) f_0_6
  = Ok (S754_finite false 5404319552844595 (-51))
  /\ Forall named directory
  /\ list_users directory (count_fields directory)
     = Ok ([(RED, lit "bob"); (YELLOW, lit "al"); (RESET, lit "cy")], 3%Z).
Proof.
  assert (H1 : int_mul_float (Z.of_nat (List.length directory)) f_0_6
               = Ok (S754_finite false 5404319552844595 (-51)))
    by (vm_compute; reflexivity).
  assert (H2 : Forall named directory)
    by (repeat constructor; discriminate).
  split; [exact H1 | split; [exact H2|]].
  exact (proj1 (list_users_tiers directory (count_fields directory) _
                  H1 H2)).
Defined.

(** ** The per-entry scan of the classifier *)

Section ClassifierFacts.

Variables (exclude_fields include_fields include_all_fields : list str).
Variable threshold_percentage : float.
Variable field_count : counter.
Variable total_users : Z.

Let scan := scan_field exclude_fields threshold_percentage field_count
                       total_users.
Let step := classify_user exclude_fields include_fields include_all_fields
                          threshold_percentage field_count total_users.

Lemma selected_total (x : float) (field : str) :
  int_mul_float total_users threshold_percentage = Ok x ->
  selected exclude_fields threshold_percentage field_count total_users
           field
  = Ok (noteworthy exclude_fields field_count x field).
Proof.
  intros Hx. unfold selected, noteworthy.
  destruct (str_in field exclude_fields); [reflexivity|].
  destruct (str_in field standard_ldap_fields); [|reflexivity].
  cbn [negb andb orb]. now apply below_total.
Qed.

(** Every attribute the scan records is outside the exclude set and
    carries one of the two scan labels. *)
Lemma scan_labels (user : entry) (data data' : dict item) :
  (forall f i,
      dict_get data f = Some i ->
      str_in f exclude_fields = false
      /\ (label_of i = NonStandardField
          \/ label_of i = RareStandardField)) ->
  for_each scan user data = Ok data' ->
  forall f i,
    dict_get data' f = Some i ->
    str_in f exclude_fields = false
    /\ (label_of i = NonStandardField \/ label_of i = RareStandardField).
Proof.
  intros H0 H.
  refine (for_each_invariant
            (fun d => forall f i, dict_get d f = Some i ->
               str_in f exclude_fields = false
               /\ (label_of i = NonStandardField
                   \/ label_of i = RareStandardField))
            scan user _ data data' H0 H).
  clear. intros d [g v] d' _ Hd Hs f i Hf.
  unfold scan, scan_field, selected in Hs.
  destruct (str_in g exclude_fields) eqn:Ex; cbn [negb bind] in Hs.
  { injection Hs as <-. now apply Hd. }
  destruct (str_in g standard_ldap_fields) eqn:Es; cbn [negb bind] in Hs.
  - destruct (below field_count total_users threshold_percentage g)
      as [[|]|]; cbn [bind] in Hs; try discriminate;
      injection Hs as <-; [|now apply Hd].
    rewrite dict_get_set in Hf.
    destruct (str_eqb g f) eqn:Egf; [|now apply Hd].
    apply str_eqb_eq in Egf. subst g. injection Hf as <-.
    split; [assumption | now right].
  - injection Hs as <-.
    rewrite dict_get_set in Hf.
    destruct (str_eqb g f) eqn:Egf; [|now apply Hd].
    apply str_eqb_eq in Egf. subst g. injection Hf as <-.
    split; [assumption | now left].
Qed.

(** Lookups in the result of the [--include] loop. *)
Lemma get_add_included (user : entry) (l : list str) (data : dict item)
  (f : str) :
  dict_get (fold_left (add_included user) l data) f
  = match (if str_in f l then dict_get user f else None) with
    | Some value => Some (IncludedField, (GREEN, f), value)
    | None => dict_get data f
    end.
Proof.
  revert data; induction l as [|g l IH]; intros data; cbn [fold_left].
  - reflexivity.
  - rewrite IH, str_in_cons. unfold add_included.
    destruct (str_in f l) eqn:Efl.
    + rewrite orb_true_r.
      destruct (dict_get user f) eqn:Ef; [reflexivity|].
      destruct (dict_get user g) eqn:Eg; [|reflexivity].
      rewrite dict_get_set.
      destruct (str_eqb g f) eqn:Egf; [|reflexivity].
      apply str_eqb_eq in Egf. subst. congruence.
    + rewrite orb_false_r. rewrite (str_eqb_sym f g).
      destruct (str_eqb g f) eqn:Egf.
      * apply str_eqb_eq in Egf. subst g.
        destruct (dict_get user f); [|reflexivity].
        rewrite dict_get_set. now rewrite str_eqb_refl.
      * destruct (dict_get user g); [|reflexivity].
        rewrite dict_get_set. now rewrite Egf.
Qed.

(** Lookups in the result of the [--include-all] loop. *)
Lemma get_add_include_all (user : entry) (l : list str)
  (data : dict item) (f : str) :
  dict_get (fold_left (add_include_all user) l data) f
  = match (if str_in f l then dict_get user f else None) with
    | Some value => Some (IncludeAllField, (GREEN, f), value)
    | None => dict_get data f
    end.
Proof.
  revert data; induction l as [|g l IH]; intros data; cbn [fold_left].
  - reflexivity.
  - rewrite IH, str_in_cons. unfold add_include_all.
    destruct (str_in f l) eqn:Efl.
    + rewrite orb_true_r.
      destruct (dict_get user f) eqn:Ef; [reflexivity|].
      destruct (dict_get user g) eqn:Eg; [|reflexivity].
      rewrite dict_get_set.
      destruct (str_eqb g f) eqn:Egf; [|reflexivity].
      apply str_eqb_eq in Egf. subst. congruence.
    + rewrite orb_false_r. rewrite (str_eqb_sym f g).
      destruct (str_eqb g f) eqn:Egf.
      * apply str_eqb_eq in Egf. subst g.
        destruct (dict_get user f); [|reflexivity].
        rewrite dict_get_set. now rewrite str_eqb_refl.
      * destruct (dict_get user g); [|reflexivity].
        rewrite dict_get_set. now rewrite Egf.
Qed.

(** The loop body on a named entry, case by case. *)
Lemma classify_user_named (user : entry)
  (prim addl : list (str * dict item)) :
  named user ->
  step (prim, addl) user
  = if skipped user then Ok (prim, addl)
    else
      data <- for_each scan user [] ;;
      Ok (if truthy data
          then prim ++ [(display_name user,
                         fold_left (add_included user) include_fields
                                   data)]
          else prim,
          if truthy include_all_fields
             && existsb (dict_mem user) include_all_fields
          then addl ++ [(display_name user,
                         fold_left (add_include_all user)
                                   include_all_fields [])]
          else addl).
Proof.
  intros Hn. unfold step, classify_user, skipped.
  rewrite (get_username_named user Hn). reflexivity.
Qed.

End ClassifierFacts.

(** ** The classifier as a function of the data set *)

Lemma scan_is_fold (exclude_fields : list str)
  (threshold_percentage : float) (field_count : counter) (total_users : Z)
  (x : float) (user : entry) :
  int_mul_float total_users threshold_percentage = Ok x ->
  forall data,
    for_each (scan_field exclude_fields threshold_percentage field_count
                         total_users) user data
    = Ok (fold_left (scan_entry exclude_fields field_count x) user data).
Proof.
  intros Hx.
  induction user as [|[f v] user IH]; intros data; cbn [for_each fold_left];
    [reflexivity|].
  unfold scan_field at 1. rewrite (selected_total _ _ _ _ x f Hx).
  cbn [bind]. unfold scan_entry at 2. cbn [fst snd].
  destruct (noteworthy exclude_fields field_count x f); apply IH.
Qed.

Lemma classify_user_contribution
  (exclude_fields include_fields include_all_fields : list str)
  (threshold_percentage : float) (field_count : counter) (total_users : Z)
  (x : float) (user : entry) (prim addl : list (str * dict item)) :
  int_mul_float total_users threshold_percentage = Ok x ->
  named user ->
  classify_user exclude_fields include_fields include_all_fields
                threshold_percentage field_count total_users
                (prim, addl) user
  = Ok (prim ++ primary_part exclude_fields include_fields field_count x
                             user,
        addl ++ include_all_part include_all_fields user).
Proof.
  intros Hx Hn. rewrite classify_user_named by assumption.
  unfold primary_part, include_all_part.
  destruct (skipped user); [now rewrite !app_nil_r|].
  rewrite (scan_is_fold _ _ _ _ x user Hx). cbn [bind].
  destruct (truthy (fold_left (scan_entry exclude_fields field_count x)
                              user []));
    destruct (truthy include_all_fields
              && existsb (dict_mem user) include_all_fields);
    now rewrite ?app_nil_r.
Qed.

Lemma classify_loop
  (exclude_fields include_fields include_all_fields : list str)
  (threshold_percentage : float) (field_count : counter) (total_users : Z)
  (x : float) (users : list entry) :
  int_mul_float total_users threshold_percentage = Ok x ->
  Forall named users ->
  forall prim addl,
    for_each (classify_user exclude_fields include_fields include_all_fields
                            threshold_percentage field_count total_users)
             users (prim, addl)
    = Ok (prim ++ flat_map (primary_part exclude_fields include_fields
                                         field_count x) users,
          addl ++ flat_map (include_all_part include_all_fields) users).
Proof.
  intros Hx. induction 1 as [|u l Hu Hl IH]; intros prim addl;
    cbn [for_each flat_map].
  - now rewrite !app_nil_r.
  - rewrite (classify_user_contribution _ _ _ _ _ _ x u _ _ Hx Hu).
    cbn [bind]. rewrite IH. now rewrite <- !app_assoc.
Qed.

(** On a data set whose size converts to the float [y] and whose entries
    all have a usable [cn], and for a level of the table, the classifier
    returns the concatenated contributions of the entries, in order. *)
Lemma find_non_standard_fields_contributions (users : list entry)
  (exclude_fields include_fields include_all_fields : list str)
  (threshold_level : Z) (threshold_percentage y : float) :
  threshold_levels threshold_level = Ok threshold_percentage ->
  float_of_int (Z.of_nat (List.length users)) = Ok y ->
  Forall named users ->
  find_non_standard_fields users exclude_fields include_fields
                           include_all_fields threshold_level
  = Ok (flat_map
          (primary_part exclude_fields include_fields (count_fields users)
                        (SFmul prec emax y threshold_percentage)) users,
        flat_map (include_all_part include_all_fields) users).
Proof.
  intros Hl Hy Hn. unfold find_non_standard_fields. rewrite Hl. cbn [bind].
  rewrite (classify_loop _ _ _ _ _ _
             (SFmul prec emax y threshold_percentage) users); auto.
  unfold int_mul_float. now rewrite Hy.
Qed.

(** ** The include-all output *)

(** C1, counterexample. An entry without [cn] and without [description]
    that has the include-all attribute [shoeSize] is left out of the
    include-all output: the skip at the head of the loop body applies to
    both outputs. *)
Lemma include_all_skips_nameless_entry :
  existsb (dict_mem nameless) [shoeSize] = true
  /\ get_username nameless = Ok Unknown
  /\ dict_mem nameless description = false
  /\ find_non_standard_fields [nameless] [] [] [shoeSize] 2 = Ok ([], []).
Proof. repeat split; reflexivity. Qed.

(** C1, amended. On a data set whose size converts to a float and whose
    entries all have a usable [cn], the include-all output is the
    concatenation, in entry order, of the contributions of the entries:
    nothing for an entry the skip rule drops (display name "Unknown" and
    no [description]), nothing for an entry without any include-all
    attribute, and otherwise one pair of the display name and a result
    whose lookups are exactly the include-all attributes the entry has,
    labelled "Include-All Field", with the entry's values. The primary
    pass has no part in it. *)
Theorem include_all_of_kept_entries :
  forall (users : list entry) (exclude_fields include_fields
          include_all_fields : list str) (threshold_level : Z)
         (threshold_percentage y : float),
    threshold_levels threshold_level = Ok threshold_percentage ->
    float_of_int (Z.of_nat (List.length users)) = Ok y ->
    Forall named users ->
    exists prim,
      find_non_standard_fields users exclude_fields include_fields
                               include_all_fields threshold_level
      = Ok (prim, flat_map (include_all_part include_all_fields) users)
      /\ forall user,
          (skipped user = true ->
           include_all_part include_all_fields user = [])
          /\ (existsb (dict_mem user) include_all_fields = false ->
              include_all_part include_all_fields user = [])
          /\ (skipped user = false ->
              existsb (dict_mem user) include_all_fields = true ->
              exists result,
                include_all_part include_all_fields user
                = [(display_name user, result)]
                /\ forall f,
                    dict_get result f
                    = if str_in f include_all_fields
                      then option_map
                             (fun value =>
                                (IncludeAllField, (GREEN, f), value))
                             (dict_get user f)
                      else None).
Proof.
  intros users ex inc inca level thr y Hl Hy Hn.
  eexists. split.
  - apply (find_non_standard_fields_contributions users ex inc inca level
             thr y Hl Hy Hn).
  - intros user. unfold include_all_part. split; [|split].
    + now intros ->.
    + intros ->. rewrite andb_false_r. now destruct (skipped user).
    + intros -> E. rewrite E, andb_true_r.
      assert (T : truthy inca = true).
      { destruct inca; [discriminate E | reflexivity]. }
      rewrite T. eexists. split; [reflexivity|].
      intros f. rewrite get_add_include_all.
      destruct (str_in f inca); [|reflexivity].
      now destruct (dict_get user f).
Qed.

Lemma include_all_of_kept_entries_witness :
  threshold_levels 2 = Ok f_0_25
  /\ float_of_int (Z.of_nat (List.length [bob; nameless]))
     = Ok (S754_finite false 4503599627370496 (-51))
  /\ Forall named [bob; nameless]
  /\ exists prim,
      find_non_standard_fields [bob; nameless] [] [] [shoeSize] 2
      = Ok (prim, flat_map (include_all_part [shoeSize]) [bob; nameless]).
Proof.
  assert (H1 : threshold_levels 2 = Ok f_0_25) by reflexivity.
  assert (H2 : float_of_int (Z.of_nat (List.length [bob; nameless]))
               = Ok (S754_finite false 4503599627370496 (-51)))
    by (vm_compute; reflexivity).
  assert (H3 : Forall named [bob; nameless])
    by (repeat constructor; discriminate).
  split; [exact H1 | split; [exact H2 | split; [exact H3|]]].
  destruct (include_all_of_kept_entries [bob; nameless] [] [] [shoeSize] 2
              f_0_25 _ H1 H2 H3) as (prim & Hp & _).
  exists prim. exact Hp.
Defined.

(** ** Exclusion and inclusion in the primary output *)

(** C2, counterexample. With [mail] both excluded and included, the
    entry [bob], which has the non-standard attribute [shoeSize], shows
    [mail] in its primary result, labelled "Included Field": the
    [--include] loop does not consult the exclude set. *)
Lemma excluded_field_shown_when_included :
  str_in mail [mail] = true
  /\ dict_mem bob mail = true
  /\ exists result,
      find_non_standard_fields [bob] [mail] [mail] [] 2
      = Ok ([(lit "bob", result)], [])
      /\ dict_get result mail
         = Some (IncludedField, (GREEN, mail), [lit "b@x.com"]).
Proof.
  split; [reflexivity | split; [reflexivity|]].
  eexists. split; vm_compute; reflexivity.
Qed.

(** C2, amended. In every pair of the primary output, an attribute of
    the exclude set is never labelled "Non-Standard Field" or "Rare
    Standard Field": if it appears at all, it is labelled "Included
    Field" and belongs to the include set. *)
Theorem excluded_only_as_included :
  forall (users : list entry) (exclude_fields include_fields
          include_all_fields : list str) (threshold_level : Z)
         (prim addl : list (str * dict item)),
    find_non_standard_fields users exclude_fields include_fields
                             include_all_fields threshold_level
    = Ok (prim, addl) ->
    forall (name : str) (result : dict item) (f : str) (i : item),
      In (name, result) prim ->
      In f exclude_fields ->
      dict_get result f = Some i ->
      label_of i = IncludedField /\ In f include_fields.
Proof.
  intros users ex inc inca level prim addl H.
  unfold find_non_standard_fields in H.
  destruct (threshold_levels level) as [thr|]; [|discriminate].
  cbn [bind] in H.
  set (P := fun st : list (str * dict item) * list (str * dict item) =>
              forall name result f i,
                In (name, result) (fst st) -> In f ex ->
                dict_get result f = Some i ->
                label_of i = IncludedField /\ In f inc).
  assert (HP : P (prim, addl)).
  { refine (for_each_invariant P _ users _ ([], []) (prim, addl) _ H).
    - clear. intros [p a] user [p' a'] _ HPs Hstep.
      unfold classify_user in Hstep.
      destruct (get_username user) as [username|]; [|discriminate].
      cbn [bind] in Hstep.
      destruct (str_eqb username Unknown && negb (dict_mem user description)).
      { injection Hstep as <- <-. exact HPs. }
      destruct (for_each (scan_field _ _ _ _) user []) as [data|] eqn:Escan;
        [|discriminate].
      cbn [bind] in Hstep. injection Hstep as <- _.
      destruct (truthy data); [|exact HPs].
      assert (H0 : forall (f : str) (i : item),
                 dict_get [] f = Some i ->
                 str_in f ex = false
                 /\ (label_of i = NonStandardField
                     \/ label_of i = RareStandardField))
        by (intros ? ? HH; discriminate HH).
      intros name result f i Hin Hex Hget. cbn [fst] in Hin.
      apply in_app_or in Hin as [Hin|[Hin|[]]].
      { exact (HPs name result f i Hin Hex Hget). }
      injection Hin as <- <-.
      rewrite get_add_included in Hget.
      destruct (str_in f inc) eqn:Einc.
      + destruct (dict_get user f).
        * injection Hget as <-. split; [reflexivity|].
          now apply str_in_In.
        * exfalso.
          destruct (scan_labels ex thr _ _ user [] data H0 Escan f i Hget)
            as [Hno _].
          apply str_in_In in Hex. congruence.
      + exfalso.
        destruct (scan_labels ex thr _ _ user [] data H0 Escan f i Hget)
          as [Hno _].
        apply str_in_In in Hex. congruence.
    - intros name result f i []. }
  intros name result f i. apply (HP name result f i).
Qed.

Lemma excluded_only_as_included_witness :
  find_non_standard_fields [bob] [mail] [mail] [] 2
  = Ok ([(lit "bob", bob_result)], [])
  /\ In (lit "bob", bob_result) [(lit "bob", bob_result)]
  /\ In mail [mail]
  /\ dict_get bob_result mail
     = Some (IncludedField, (GREEN, mail), [lit "b@x.com"])
  /\ label_of (IncludedField, (GREEN, mail), [lit "b@x.com"])
     = IncludedField
  /\ In mail [mail].
Proof.
  assert (H1 : find_non_standard_fields [bob] [mail] [mail] [] 2
               = Ok ([(lit "bob", bob_result)], []))
    by (vm_compute; reflexivity).
  assert (H2 : In (lit "bob", bob_result) [(lit "bob", bob_result)])
    by (left; reflexivity).
  assert (H3 : In mail [mail]) by (left; reflexivity).
  assert (H4 : dict_get bob_result mail
               = Some (IncludedField, (GREEN, mail), [lit "b@x.com"]))
    by (vm_compute; reflexivity).
  split; [exact H1 | split; [exact H2 | split; [exact H3 | split;
    [exact H4|]]]].
  exact (excluded_only_as_included [bob] [mail] [mail] [] 2 _ _ H1
           (lit "bob") bob_result mail _ H2 H3 H4).
Defined.

(** ** Include-gating *)

Lemma scan_entry_nothing (exclude_fields : list str)
  (field_count : counter) (x : float) (user : entry) (data : dict item) :
  (forall f, In f (keys user) ->
             noteworthy exclude_fields field_count x f = false) ->
  fold_left (scan_entry exclude_fields field_count x) user data = data.
Proof.
  revert data. induction user as [|[f v] user IH]; intros data H;
    cbn [fold_left]; [reflexivity|].
  unfold scan_entry at 2. cbn [fst].
  rewrite (H f (or_introl eq_refl)).
  apply IH. intros g Hg. apply H. now right.
Qed.

(** C3. On a data set whose size converts to a float and whose entries
    all have a usable [cn], the primary output is the concatenation of
    the contributions of the entries, and the contribution of an entry is
    empty when each of its attributes outside the exclude set is standard
    and not below the threshold product, whatever the include set is and
    whichever of its attributes the entry has. Below [2 ^ 47] entries,
    a count is below the float product exactly when it is below the
    fraction of the level times the number of entries. *)
Theorem include_alone_adds_nothing :
  forall (users : list entry) (exclude_fields include_fields
          include_all_fields : list str) (threshold_level : Z)
         (threshold_percentage y : float),
    threshold_levels threshold_level = Ok threshold_percentage ->
    float_of_int (Z.of_nat (List.length users)) = Ok y ->
    Forall named users ->
    let x := SFmul prec emax y threshold_percentage in
    let field_count := count_fields users in
    exists addl,
      find_non_standard_fields users exclude_fields include_fields
                               include_all_fields threshold_level
      = Ok (flat_map (primary_part exclude_fields include_fields
                                   field_count x) users,
            addl)
      /\ (forall user,
          (forall f,
              In f (keys user) ->
              ~ In f exclude_fields ->
              In f standard_ldap_fields
              /\ int_lt_float (counter_get field_count f) x = false) ->
          primary_part exclude_fields include_fields field_count x user
          = [])
      /\ forall num den c,
          level_fraction threshold_level = Some (num, den) ->
          (Z.of_nat (List.length users) < 2 ^ 47)%Z ->
          int_lt_float c x = true <->
          (c * den < Z.of_nat (List.length users) * num)%Z.
Proof.
  intros users ex inc inca level thr y Hl Hy Hn x fc.
  eexists. split; [|split].
  3:{ intros num den c Hfr Hsize.
      apply (level_product_exact level _ c num den thr y Hl Hfr);
        [lia | exact Hy]. }
  - apply (find_non_standard_fields_contributions users ex inc inca level
             thr y Hl Hy Hn).
  - intros user H. unfold primary_part.
    destruct (skipped user); [reflexivity|].
    rewrite scan_entry_nothing; [reflexivity|].
    intros f Hf. unfold noteworthy.
    destruct (str_in f ex) eqn:Ex; [reflexivity|].
    destruct (H f Hf) as [Hs Hb].
    { intros Hin. apply str_in_In in Hin. congruence. }
    apply str_in_In in Hs. now rewrite Hs, Hb.
Qed.

Lemma include_alone_adds_nothing_witness :
  threshold_levels 2 = Ok f_0_25
  /\ float_of_int (Z.of_nat (List.length [al]))
     = Ok (S754_finite false 4503599627370496 (-52))
  /\ Forall named [al]
  /\ exists addl,
      find_non_standard_fields [al] [] [mail] [] 2 = Ok ([], addl).
Proof.
  assert (H1 : threshold_levels 2 = Ok f_0_25) by reflexivity.
  assert (H2 : float_of_int (Z.of_nat (List.length [al]))
               = Ok (S754_finite false 4503599627370496 (-52)))
    by (vm_compute; reflexivity).
  assert (H3 : Forall named [al]) by (repeat constructor; discriminate).
  split; [exact H1 | split; [exact H2 | split; [exact H3|]]].
  destruct (include_alone_adds_nothing [al] [] [mail] [] 2 f_0_25 _
              H1 H2 H3) as (addl & Hfind & Hnone & _).
  exists addl. rewrite Hfind. cbn [flat_map].
  rewrite (Hnone al); [reflexivity|].
  intros f [<-|[<-|[]]] _; split; vm_compute; auto 50.
Defined.

(** ** An entry whose [cn] is the word "Unknown" *)

(** C10. An entry whose [cn] has "Unknown" as its first value gets the
    display name of an entry without [cn]. The inventory loop leaves its
    state unchanged on it, so that the inventory of a data set is the
    loop over the other entries (the entry still counts in
    [total_users]). When the entry has no [description], the same holds
    for the classifier loop, whatever the other attributes, the name sets
    and the threshold are. *)
Theorem cn_unknown_is_no_cn :
  forall (user : entry) (rest : list str),
    dict_get user cn = Some (Unknown :: rest) ->
    get_username user = Ok Unknown
    /\ (forall other,
          dict_get other cn = None ->
          get_username other = get_username user)
    /\ (forall total_users field_count st,
          list_users_step total_users field_count st user = Ok st)
    /\ (forall pre post field_count,
          list_users (pre ++ user :: post) field_count
          = for_each
              (list_users_step
                 (Z.of_nat (List.length (pre ++ user :: post)))
                 field_count)
              (pre ++ post) ([], 0%Z))
    /\ (dict_mem user description = false ->
        (forall ex inc inca thr field_count total_users st,
            classify_user ex inc inca thr field_count total_users st user
            = Ok st)
        /\ forall pre post ex inc inca level,
            find_non_standard_fields (pre ++ user :: post) ex inc inca level
            = (thr <- threshold_levels level ;;
               for_each
                 (classify_user ex inc inca thr
                    (count_fields (pre ++ user :: post))
                    (Z.of_nat (List.length (pre ++ user :: post))))
                 (pre ++ post) ([], []))).
Proof.
  intros user rest Hcn.
  assert (Hname : get_username user = Ok Unknown).
  { unfold get_username. now rewrite Hcn. }
  assert (Hlist : forall total_users field_count st,
             list_users_step total_users field_count st user = Ok st).
  { intros t fc [printed n]. unfold list_users_step.
    rewrite Hname. cbn [bind]. now rewrite str_eqb_refl. }
  split; [exact Hname | split; [|split; [exact Hlist | split]]].
  - intros other Ho. rewrite Hname. unfold get_username. now rewrite Ho.
  - intros pre post fc. unfold list_users.
    apply for_each_skip. intros s'. apply Hlist.
  - intros Hd.
    assert (Hcls : forall ex inc inca thr field_count total_users st,
               classify_user ex inc inca thr field_count total_users st user
               = Ok st).
    { intros ex inc inca thr fc t [p a]. unfold classify_user.
      rewrite Hname. cbn [bind]. now rewrite str_eqb_refl, Hd. }
    split; [exact Hcls|].
    intros pre post ex inc inca level. unfold find_non_standard_fields.
    destruct (threshold_levels level) as [thr|]; [|reflexivity].
    cbn [bind]. apply for_each_skip. intros s'. apply Hcls.
Qed.

Lemma cn_unknown_is_no_cn_witness :
  dict_get called_unknown cn = Some (Unknown :: [])
  /\ get_username called_unknown = Ok Unknown
  /\ list_users [bob; called_unknown] (count_fields [bob; called_unknown])
     = for_each
         (list_users_step 2 (count_fields [bob; called_unknown]))
         [bob] ([], 0%Z)
  /\ find_non_standard_fields [bob; called_unknown] [] [] [shoeSize] 2
     = for_each
         (classify_user [] [] [shoeSize] f_0_25
            (count_fields [bob; called_unknown]) 2)
         [bob] ([], []).
Proof.
  assert (H : dict_get called_unknown cn = Some (Unknown :: []))
    by reflexivity.
  destruct (cn_unknown_is_no_cn called_unknown [] H)
    as (H1 & _ & _ & H4 & H5).
  split; [exact H | split; [exact H1 | split]].
  - exact (H4 [bob] [] _).
  - destruct (H5 eq_refl) as [_ H6].
    exact (H6 [bob] [] [] [] [shoeSize] 2%Z).
Defined.

(* ================================================================== *)
(** * The parser                                                       *)
(* ================================================================== *)

(** ** [strip] *)

Lemma lstrip_head_ok (s : str) : head_ok (lstrip s).
Proof.
  induction s as [|c s IH]; cbn [lstrip]; [exact I|].
  destruct (isspace c) eqn:E; [exact IH | exact E].
Qed.

Lemma lstrip_id (s : str) : head_ok s -> lstrip s = s.
Proof. destruct s as [|c s]; cbn; [reflexivity | now intros ->]. Qed.

Lemma lstrip_app (a b : str) :
  lstrip (a ++ b)
  = if forallb isspace a then lstrip b else lstrip a ++ b.
Proof.
  induction a as [|c a IH]; cbn [app lstrip forallb]; [reflexivity|].
  destruct (isspace c); cbn [andb]; [exact IH | reflexivity].
Qed.

Lemma lstrip_nil_iff (s : str) : lstrip s = [] <-> forallb isspace s = true.
Proof.
  induction s as [|c s IH]; cbn [lstrip forallb]; [tauto|].
  destruct (isspace c) eqn:E; cbn [andb]; [exact IH|].
  split; discriminate.
Qed.

Lemma rstrip_id (s : str) : head_ok (rev s) -> rstrip s = s.
Proof.
  intros H. unfold rstrip. rewrite (lstrip_id _ H). apply rev_involutive.
Qed.

Lemma rstrip_last_ok (s : str) : head_ok (rev (rstrip s)).
Proof. unfold rstrip. rewrite rev_involutive. apply lstrip_head_ok. Qed.

Lemma rstrip_cons (c : char) (s : str) :
  rstrip (c :: s)
  = match rstrip s with
    | [] => if isspace c then [] else [c]
    | _ :: _ => c :: rstrip s
    end.
Proof.
  unfold rstrip. cbn [rev]. rewrite lstrip_app.
  destruct (forallb isspace (rev s)) eqn:E.
  - apply lstrip_nil_iff in E. rewrite E. cbn [rev lstrip].
    now destruct (isspace c).
  - destruct (lstrip (rev s)) as [|d t] eqn:El.
    + apply lstrip_nil_iff in El. congruence.
    + rewrite rev_app_distr. cbn [rev app].
      destruct (rev t ++ [d]) eqn:Et; [|reflexivity].
      now destruct (rev t).
Qed.

Lemma rstrip_head_ok (s : str) : head_ok s -> head_ok (rstrip s).
Proof.
  destruct s as [|c s]; [intros _; exact I|].
  cbn [head_ok]. intros H. rewrite rstrip_cons, H.
  destruct (rstrip s); exact H.
Qed.

Lemma strip_trimmed (s : str) : trimmed (strip s).
Proof.
  unfold strip. split.
  - apply rstrip_head_ok, lstrip_head_ok.
  - apply rstrip_last_ok.
Qed.

Lemma strip_id (s : str) : trimmed s -> strip s = s.
Proof.
  intros [H1 H2]. unfold strip. rewrite (lstrip_id _ H1).
  now apply rstrip_id.
Qed.

Lemma strip_idempotent (s : str) : strip (strip s) = strip s.
Proof. apply strip_id, strip_trimmed. Qed.

Lemma trimmed_iff (s : str) : trimmed s <-> strip s = s.
Proof.
  split; [apply strip_id|]. intros <-. apply strip_trimmed.
Qed.

(** ** Splitting at the first colon *)

Lemma has_char_app (c : char) (a b : str) :
  has_char c (a ++ b) = has_char c a || has_char c b.
Proof. unfold has_char. apply existsb_app. Qed.

Lemma cut_first (sep : char) (pre post : str) :
  has_char sep pre = false ->
  cut sep (pre ++ sep :: post) = Some (pre, post).
Proof.
  induction pre as [|c pre IH]; cbn [app cut has_char existsb].
  - intros _. now rewrite N.eqb_refl.
  - intros H. apply orb_false_iff in H as [Hc Hp].
    rewrite N.eqb_sym in Hc. rewrite Hc.
    fold (has_char sep pre) in Hp. now rewrite (IH Hp).
Qed.

Lemma cut_spec (sep : char) (s pre post : str) :
  cut sep s = Some (pre, post) ->
  s = pre ++ sep :: post /\ has_char sep pre = false.
Proof.
  revert pre post. induction s as [|c s IH]; intros pre post;
    cbn [cut]; [discriminate|].
  destruct (N.eqb c sep) eqn:E.
  - apply N.eqb_eq in E. subst c. intros [= <- <-]. now split.
  - destruct (cut sep s) as [[a b]|]; [|discriminate].
    intros [= <- <-]. destruct (IH a b eq_refl) as [-> Ha].
    split; [reflexivity|]. cbn [has_char existsb].
    rewrite N.eqb_sym, E. exact Ha.
Qed.

Lemma cut_None (sep : char) (s : str) :
  cut sep s = None <-> has_char sep s = false.
Proof.
  induction s as [|c s IH]; cbn [cut has_char existsb]; [tauto|].
  rewrite (N.eqb_sym sep c).
  destruct (N.eqb c sep); cbn [orb]; [split; discriminate|].
  fold (has_char sep s). rewrite <- IH.
  destruct (cut sep s) as [[a b]|]; split; congruence.
Qed.

(** ** The loop body, line by line *)

Lemma parse_line_blank (users : list entry) (user : entry) (raw : str) :
  strip raw = [] ->
  parse_line (users, user) raw
  = Ok (if truthy user then users ++ [user] else users, []).
Proof. unfold parse_line. now intros ->. Qed.

Lemma parse_line_attribute (users : list entry) (user : entry)
  (raw pre post : str) :
  strip raw = pre ++ colon :: post ->
  has_char colon pre = false ->
  parse_line (users, user) raw
  = Ok (users,
        match dict_get user (strip pre) with
        | Some vs => dict_set user (strip pre) (vs ++ [strip post])
        | None => dict_set user (strip pre) [strip post]
        end).
Proof.
  intros Hl Hp. unfold parse_line. rewrite Hl.
  assert (T : truthy (pre ++ colon :: post) = true) by now destruct pre.
  rewrite T. cbn [negb].
  rewrite has_char_app, Hp. cbn [orb has_char existsb]. rewrite N.eqb_refl.
  cbn [orb]. unfold split1. rewrite (cut_first _ _ _ Hp). cbn [map].
  now destruct (dict_get user (strip pre)).
Qed.

Lemma last_item_app {A : Type} (l : list A) (x : A) :
  last_item (l ++ [x]) = Ok x.
Proof. unfold last_item. now rewrite rev_app_distr. Qed.

Lemma set_last_item_app {A : Type} (l : list A) (x y : A) :
  set_last_item (l ++ [x]) y = l ++ [y].
Proof. unfold set_last_item. now rewrite removelast_last. Qed.

Lemma dict_get_last {V : Type} (d : dict V) (k : str) (v : V) :
  ~ In k (keys d) -> dict_get (d ++ [(k, v)]) k = Some v.
Proof.
  induction d as [|[k0 v0] d IH]; cbn [app dict_get keys map fst In].
  - intros _. now rewrite str_eqb_refl.
  - intros H. destruct (str_eqb k0 k) eqn:E.
    + apply str_eqb_eq in E. exfalso. apply H. now left.
    + apply IH. intros Hin. apply H. now right.
Qed.

Lemma dict_set_last {V : Type} (d : dict V) (k : str) (v w : V) :
  ~ In k (keys d) -> dict_set (d ++ [(k, v)]) k w = d ++ [(k, w)].
Proof.
  induction d as [|[k0 v0] d IH]; cbn [app dict_set keys map fst In].
  - intros _. now rewrite str_eqb_refl.
  - intros H. destruct (str_eqb k0 k) eqn:E.
    + apply str_eqb_eq in E. exfalso. apply H. now left.
    + f_equal. apply IH. intros Hin. apply H. now right.
Qed.

Lemma parse_line_continuation (users : list entry) (d : entry)
  (k : str) (vs : list str) (v raw : str) :
  strip raw <> [] ->
  has_char colon (strip raw) = false ->
  ~ In k (keys d) ->
  parse_line (users, d ++ [(k, vs ++ [v])]) raw
  = Ok (users,
        if truthy k
        then d ++ [(k, vs ++ [v ++ [space] ++ strip raw])]
        else d ++ [(k, vs ++ [v])]).
Proof.
  intros Hne Hc Hk. unfold parse_line.
  destruct (strip raw) as [|c l] eqn:El; [congruence|].
  cbn [truthy negb]. rewrite Hc.
  assert (T : truthy (d ++ [(k, vs ++ [v])]) = true) by now destruct d.
  rewrite T. unfold keys. rewrite map_app. cbn [map fst].
  rewrite last_item_app. cbn [bind].
  destruct (truthy k); [|reflexivity].
  rewrite (dict_get_last d k (vs ++ [v]) Hk), last_item_app. cbn [bind].
  rewrite set_last_item_app, (dict_set_last d k _ _ Hk).
  rewrite <- El, strip_idempotent. reflexivity.
Qed.

Lemma parse_line_orphan (users : list entry) (raw : str) :
  strip raw <> [] ->
  has_char colon (strip raw) = false ->
  parse_line (users, []) raw = Ok (users, []).
Proof.
  intros Hne Hc. unfold parse_line. destruct (strip raw); [congruence|].
  cbn [truthy negb]. now rewrite Hc.
Qed.

(** ** Attribute lines *)

(** C6. A line whose trimmed text has a colon is split at the first
    colon, and the key and the value are the trimmed parts. If the key is
    already in the accumulator, the value goes to the end of the key's
    values, the order of the keys and the values of the other keys are
    unchanged; otherwise the key comes last with the value alone. The
    text with two [mail] lines parses to one entry with both values in
    order. *)
Theorem attribute_line_accumulates :
  (forall (users : list entry) (user : entry) (raw : str),
      has_char colon (strip raw) = true ->
      exists pre post,
        strip raw = pre ++ colon :: post
        /\ has_char colon pre = false
        /\ trimmed (strip pre) /\ trimmed (strip post)
        /\ (forall vs,
              dict_get user (strip pre) = Some vs ->
              exists user',
                parse_line (users, user) raw = Ok (users, user')
                /\ keys user' = keys user
                /\ dict_get user' (strip pre) = Some (vs ++ [strip post])
                /\ forall k,
                    k <> strip pre -> dict_get user' k = dict_get user k)
        /\ (dict_get user (strip pre) = None ->
            parse_line (users, user) raw
            = Ok (users, user ++ [(strip pre, [strip post])])))
  /\ parse_ldap_output two_mails
     = Ok [[(mail, [lit "a@x.com"; lit "b@x.com"])]].
Proof.
  split; [|vm_compute; reflexivity].
  intros users user raw Hcolon.
  destruct (cut colon (strip raw)) as [[pre post]|] eqn:Ecut.
  2:{ apply cut_None in Ecut. congruence. }
  apply cut_spec in Ecut as [Hl Hp].
  exists pre, post.
  split; [exact Hl | split; [exact Hp|]].
  split; [apply strip_trimmed | split; [apply strip_trimmed|]].
  split.
  - intros vs Hget. exists (dict_set user (strip pre) (vs ++ [strip post])).
    split; [|split; [|split]].
    + rewrite (parse_line_attribute users user raw pre post Hl Hp).
      now rewrite Hget.
    + now apply keys_dict_set_present with (v0 := vs).
    + now rewrite dict_get_set, str_eqb_refl.
    + intros k Hk. rewrite dict_get_set.
      destruct (str_eqb (strip pre) k) eqn:E; [|reflexivity].
      apply str_eqb_eq in E. congruence.
  - intros Hget.
    rewrite (parse_line_attribute users user raw pre post Hl Hp).
    rewrite Hget. now rewrite dict_set_fresh.
Qed.

Lemma attribute_line_accumulates_witness :
  has_char colon (strip (lit " mail : b@x.com ")) = true
  /\ parse_line ([], [(mail, [lit "a@x.com"])]) (lit " mail : b@x.com ")
     = Ok ([], [(mail, [lit "a@x.com"; lit "b@x.com"])]).
Proof.
  assert (H1 : has_char colon (strip (lit " mail : b@x.com ")) = true)
    by (vm_compute; reflexivity).
  split; [exact H1|].
  destruct (proj1 attribute_line_accumulates [] [(mail, [lit "a@x.com"])]
              (lit " mail : b@x.com ") H1)
    as (pre & post & Hl & Hp & _ & _ & Hold & Hnew).
  destruct (dict_get [(mail, [lit "a@x.com"])] (strip pre)) as [vs|] eqn:E.
  - destruct (Hold vs eq_refl) as (user' & Hparse & _).
    pose proof Hparse as Hc. vm_compute in Hc. injection Hc as <-.
    exact Hparse.
  - pose proof (Hnew eq_refl) as Hparse.
    pose proof Hparse as Hc. vm_compute in Hc. discriminate Hc.
Defined.

(** ** Continuation lines *)

(** C5, counterexample. After the attribute line [": v"], whose name is
    empty, the accumulator has one attribute, and yet the line ["w"],
    which has no colon, is dropped: the value stays ["v"]. *)
Lemma continuation_after_empty_name_is_dropped :
  parse_line ([], []) (lit ": v") = Ok ([], [([], [lit "v"])])
  /\ has_char colon (lit "w") = false
  /\ parse_line ([], [([], [lit "v"])]) (lit "w")
     = Ok ([], [([], [lit "v"])])
  /\ parse_ldap_output empty_name_then_text = Ok [[([], [lit "v"])]].
Proof. repeat split; vm_compute; reflexivity. Qed.

(** C5, amended. For a line without colon whose trimmed text is not
    empty: on an empty accumulator the line is dropped; on an accumulator
    whose last key is not the empty string, the trimmed text, after one
    space, is added to the end of the last value of that key; on an
    accumulator whose last key is the empty string the line is dropped.
    Nothing is raised in either case. The text with the folded
    [description] parses to one entry with the joined value. *)
Theorem continuation_line_joins :
  forall (users : list entry) (raw : str),
    strip raw <> [] ->
    has_char colon (strip raw) = false ->
    parse_line (users, []) raw = Ok (users, [])
    /\ (forall (d : entry) (k : str) (vs : list str) (v : str),
          ~ In k (keys d) ->
          parse_line (users, d ++ [(k, vs ++ [v])]) raw
          = Ok (users,
                if truthy k
                then d ++ [(k, vs ++ [v ++ [space] ++ strip raw])]
                else d ++ [(k, vs ++ [v])]))
    /\ parse_ldap_output folded_description
       = Ok [[(description, [lit "Long te xt here"])]].
Proof.
  intros users raw Hne Hc. split; [|split].
  - now apply parse_line_orphan.
  - intros d k vs v Hk. now apply parse_line_continuation.
  - vm_compute. reflexivity.
Qed.

Lemma continuation_line_joins_witness :
  strip (lit " xt here") <> []
  /\ has_char colon (strip (lit " xt here")) = false
  /\ parse_line ([], [] ++ [(description, [] ++ [lit "Long te"])])
                (lit " xt here")
     = Ok ([], [(description, [lit "Long te xt here"])]).
Proof.
  assert (H1 : strip (lit " xt here") <> [])
    by (vm_compute; discriminate).
  assert (H2 : has_char colon (strip (lit " xt here")) = false)
    by (vm_compute; reflexivity).
  split; [exact H1 | split; [exact H2|]].
  destruct (continuation_line_joins [] (lit " xt here") H1 H2)
    as (_ & H3 & _).
  exact (eq_trans (H3 [] description [] (lit "Long te") (fun H => H))
                  eq_refl).
Defined.

(** ** What the trimmed parts of a line inherit from the line *)

Lemma In_lstrip (c : char) (s : str) : In c (lstrip s) -> In c s.
Proof.
  induction s as [|d s IH]; cbn [lstrip]; [tauto|].
  destruct (isspace d); [intros H; right; now apply IH | tauto].
Qed.

Lemma In_rstrip (c : char) (s : str) : In c (rstrip s) -> In c s.
Proof.
  unfold rstrip. intros H. apply in_rev in H. apply In_lstrip in H.
  now apply in_rev.
Qed.

Lemma In_strip (c : char) (s : str) : In c (strip s) -> In c s.
Proof. unfold strip. intros H. now apply In_lstrip, In_rstrip. Qed.

Lemma one_line_In (s : str) :
  one_line s <-> forall c, In c s -> is_linebreak c = false.
Proof.
  unfold one_line. rewrite forallb_forall. split; intros H c Hc.
  - apply H in Hc. now destruct (is_linebreak c).
  - now rewrite (H c Hc).
Qed.

Lemma colon_free_In (s : str) : colon_free s <-> ~ In colon s.
Proof.
  unfold colon_free, has_char. split.
  - intros H Hin.
    assert (T : existsb (N.eqb colon) s = true).
    { apply existsb_exists. exists colon. split; [exact Hin|].
      apply N.eqb_refl. }
    congruence.
  - intros H. destruct (existsb (N.eqb colon) s) eqn:E; [|reflexivity].
    apply existsb_exists in E as (c & Hc & Heq).
    apply N.eqb_eq in Heq. subst c. contradiction.
Qed.

Lemma one_line_strip (s : str) : one_line s -> one_line (strip s).
Proof.
  rewrite !one_line_In. intros H c Hc. now apply H, In_strip.
Qed.

Lemma colon_free_strip (s : str) : colon_free s -> colon_free (strip s).
Proof.
  rewrite !colon_free_In. intros H Hc. now apply H, In_strip.
Qed.

Lemma one_line_app (a b : str) :
  one_line (a ++ b) <-> one_line a /\ one_line b.
Proof. unfold one_line. rewrite forallb_app. apply andb_true_iff. Qed.

(** ** The lines of [splitlines] *)

Lemma splitlines_from_one_line (n : nat) :
  forall (s cur : str),
    (List.length s <= n)%nat ->
    one_line cur ->
    Forall one_line (splitlines_from cur s).
Proof.
  assert (Hrev : forall cur, one_line cur -> one_line (rev cur)).
  { intros cur. rewrite !one_line_In. intros H c Hc.
    apply H. now apply in_rev. }
  induction n as [|n IH]; intros s cur Hlen Hcur.
  - destruct s; [|cbn in Hlen; lia]. cbn [splitlines_from].
    destruct cur; [constructor|]. constructor; [|constructor].
    now apply Hrev.
  - destruct s as [|c rest]; cbn [splitlines_from].
    { destruct cur; [constructor|]. constructor; [|constructor].
      now apply Hrev. }
    cbn [List.length] in Hlen.
    assert (Hnil : one_line []) by reflexivity.
    destruct (N.eqb c 13) eqn:E13.
    + destruct rest as [|c' rest'].
      * constructor; [now apply Hrev|]. cbn. constructor.
      * cbn [List.length] in Hlen.
        destruct (N.eqb c' 10); constructor;
          try (now apply Hrev); apply IH; cbn [List.length];
          try lia; exact Hnil.
    + destruct (is_linebreak c) eqn:Elb.
      * constructor; [now apply Hrev|]. apply IH; [lia | exact Hnil].
      * apply IH; [lia|]. unfold one_line. cbn [forallb].
        rewrite Elb. exact Hcur.
Qed.

Lemma splitlines_one_line (s : str) : Forall one_line (splitlines s).
Proof.
  apply (splitlines_from_one_line (List.length s)); [lia | reflexivity].
Qed.

(** A line without boundary, closed by a line feed, is the next line. *)
Lemma splitlines_from_line (l rest cur : str) :
  one_line l ->
  splitlines_from cur (l ++ newline :: rest)
  = (rev cur ++ l) :: splitlines_from [] rest.
Proof.
  revert cur. induction l as [|c l IH]; intros cur Hl.
  - cbn. now rewrite app_nil_r.
  - unfold one_line in Hl. cbn [forallb] in Hl.
    apply andb_true_iff in Hl as [Hc Hl].
    cbn [app splitlines_from].
    assert (E13 : N.eqb c 13 = false).
    { destruct (N.eqb c 13) eqn:E; [|reflexivity].
      apply N.eqb_eq in E. subst c. discriminate Hc. }
    rewrite E13. destruct (is_linebreak c); [discriminate Hc|].
    rewrite (IH (c :: cur) Hl). cbn [rev]. now rewrite <- app_assoc.
Qed.

(** ** The state of the parser *)

Lemma Forall_dict_set {V : Type} (P : str * V -> Prop) (d : dict V)
  (k : str) (v : V) :
  Forall P d -> P (k, v) -> Forall P (dict_set d k v).
Proof.
  intros Hd Hk. induction d as [|[k0 v0] d IH]; cbn [dict_set].
  - now constructor.
  - apply Forall_cons_iff in Hd as [H0 Hd].
    destruct (str_eqb k0 k) eqn:E.
    + apply str_eqb_eq in E. subst k0. now constructor.
    + constructor; [assumption | now apply IH].
Qed.

Lemma good_acc_set (d : entry) (k : str) (vs : list str) :
  good_acc d -> good_attr (k, vs) -> good_acc (dict_set d k vs).
Proof.
  intros [Hnd Hall] Hk. split; [|now apply Forall_dict_set].
  destruct (dict_get d k) as [vs0|] eqn:E.
  - now rewrite (keys_dict_set_present d k vs vs0 E).
  - rewrite (dict_set_fresh d k vs E). unfold keys. rewrite map_app.
    cbn [map fst]. apply NoDup_app; [exact Hnd | | ].
    + constructor; [intros [] | constructor].
    + intros x Hx [<-|[]]. now apply dict_get_None_keys in E.
Qed.

Lemma good_acc_last (d : entry) (k : str) (vs : list str) :
  good_acc (d ++ [(k, vs)]) ->
  ~ In k (keys d) /\ good_acc d /\ good_attr (k, vs).
Proof.
  intros [Hnd Hall]. unfold keys in Hnd. rewrite map_app in Hnd.
  cbn [map fst] in Hnd. apply Forall_app in Hall as [Hd Hk].
  apply Forall_cons_iff in Hk as [Hk _].
  split; [|split; [split|]]; try assumption.
  - intros Hin.
    apply NoDup_remove_2 in Hnd. apply Hnd. rewrite app_nil_r.
    exact Hin.
  - apply NoDup_remove_1 in Hnd. now rewrite app_nil_r in Hnd.
Qed.

(** The loop body never raises on a state the parser can reach, and
    keeps the state reachable. *)
Lemma parse_line_good (st : list entry * entry) (raw : str) :
  good_state st ->
  one_line raw ->
  exists st', parse_line st raw = Ok st' /\ good_state st'.
Proof.
  destruct st as [users user]. intros [Hus Hu] Hraw.
  cbn [fst snd] in Hus, Hu.
  assert (Hline : one_line (strip raw)) by now apply one_line_strip.
  assert (Hcase : strip raw = [] \/ strip raw <> [])
    by (destruct (strip raw); [left | right]; congruence).
  destruct Hcase as [El|Hne].
  { rewrite (parse_line_blank users user raw El). eexists.
    split; [reflexivity|]. split; cbn [fst snd].
    - destruct user as [|a u]; [exact Hus|]. cbn [truthy].
      apply Forall_app. split; [exact Hus|].
      constructor; [|constructor]. split; [discriminate | exact Hu].
    - split; constructor. }
  destruct (cut colon (strip raw)) as [[pre post]|] eqn:Ecut.
  - apply cut_spec in Ecut as [Hsplit Hpre].
    rewrite (parse_line_attribute users user raw pre post Hsplit Hpre).
    rewrite Hsplit in Hline.
    apply one_line_app in Hline as [Hl1 Hl2].
    assert (Hpost : one_line post).
    { unfold one_line in Hl2 |- *. cbn [forallb] in Hl2.
      now apply andb_true_iff in Hl2 as [_ Hl2]. }
    assert (Hkey : clean_key (strip pre)).
    { split; [apply strip_trimmed|split].
      - now apply colon_free_strip.
      - now apply one_line_strip. }
    assert (Hval : one_line (strip post)) by now apply one_line_strip.
    destruct (dict_get user (strip pre)) as [vs|] eqn:Eget;
      eexists; (split; [reflexivity|]); split; cbn [fst snd];
      try exact Hus; apply good_acc_set; try exact Hu;
      split; cbn [fst snd]; try exact Hkey; split.
    + now destruct vs.
    + apply Forall_app. split; [|now constructor].
      apply dict_get_In in Eget. destruct Hu as [_ Hall].
      rewrite Forall_forall in Hall. apply Hall in Eget.
      now destruct Eget as (_ & _ & Hvs).
    + discriminate.
    + now constructor.
  - apply cut_None in Ecut.
    destruct user as [|a u] eqn:Eu.
    { eexists. split; [now apply parse_line_orphan|].
      split; [exact Hus | exact Hu]. }
    destruct (exists_last (l := a :: u)) as (d & [k vs] & Hd);
      [discriminate|].
    rewrite Hd in Hu |- *.
    destruct (good_acc_last d k vs Hu) as (Hk & Hgd & Hattr).
    destruct Hattr as (Hck & Hnv & Hvs). cbn [fst snd] in Hck, Hnv, Hvs.
    destruct (exists_last Hnv) as (vs' & v & ->).
    eexists. split; [now apply parse_line_continuation|].
    split; cbn [fst snd]; [exact Hus|].
    destruct (truthy k); [|exact Hu].
    destruct Hu as [Hnd Hall]. split.
    + unfold keys in Hnd |- *. rewrite map_app in Hnd |- *. exact Hnd.
    + apply Forall_app in Hall as [Hall _]. apply Forall_app.
      split; [exact Hall|]. constructor; [|constructor].
      split; [exact Hck|]. cbn [fst snd]. split; [now destruct vs'|].
      apply Forall_app in Hvs as [Hvs' Hv]. apply Forall_app.
      split; [exact Hvs'|]. constructor; [|constructor].
      apply Forall_cons_iff in Hv as [Hv _].
      apply one_line_app. split; [exact Hv|].
      apply one_line_app. split; [reflexivity | exact Hline].
Qed.

Lemma parse_loop_good (lines : list str) :
  Forall one_line lines ->
  forall st,
    good_state st ->
    exists st', for_each parse_line lines st = Ok st' /\ good_state st'.
Proof.
  induction 1 as [|raw lines Hraw Hlines IH]; intros st Hst;
    cbn [for_each].
  - now exists st.
  - destruct (parse_line_good st raw Hst Hraw) as (st1 & E1 & H1).
    rewrite E1. cbn [bind]. now apply IH.
Qed.

(** The parser returns on every text, and every entry it returns is
    non-empty, has distinct trimmed names without colon, and only
    non-empty value lists. *)
Lemma parse_ldap_output_total (ldap_output : str) :
  exists users,
    parse_ldap_output ldap_output = Ok users /\ Forall good_entry users.
Proof.
  unfold parse_ldap_output.
  destruct (parse_loop_good (splitlines ldap_output)
              (splitlines_one_line ldap_output) ([], []))
    as ([users user] & E & Hus & Hu).
  { split; cbn [fst snd]; [constructor|]. split; constructor. }
  rewrite E. cbn [bind fst snd] in *. eexists. split; [reflexivity|].
  destruct user as [|a u]; [exact Hus|]. cbn [truthy].
  apply Forall_app. split; [exact Hus|].
  constructor; [|constructor]. split; [discriminate | exact Hu].
Qed.

(** Every entry the parser returns has a usable [cn], if it has one. *)
Lemma parsed_entries_named (ldap_output : str) (users : list entry) :
  parse_ldap_output ldap_output = Ok users -> Forall named users.
Proof.
  intros Hparse.
  destruct (parse_ldap_output_total ldap_output) as (users' & E & Hgood).
  rewrite Hparse in E. injection E as <-.
  apply Forall_forall. intros user Hu.
  rewrite Forall_forall in Hgood.
  destruct (Hgood user Hu) as (_ & _ & Hattrs).
  unfold named. intros Hget. apply dict_get_In in Hget.
  rewrite Forall_forall in Hattrs.
  destruct (Hattrs _ Hget) as (_ & Hne & _). now apply Hne.
Qed.

(** ** The round trip *)

Lemma head_ok_app (a b : str) : a <> [] -> head_ok a -> head_ok (a ++ b).
Proof. destruct a; [congruence | intros _ H; exact H]. Qed.

Lemma strip_key_value (k v : str) :
  trimmed k -> trimmed v ->
  strip (k ++ [colon; space] ++ v)
  = k ++ colon :: match v with [] => [] | _ :: _ => space :: v end.
Proof.
  intros [Hk _] [_ Hv]. unfold strip.
  assert (Hh : head_ok (k ++ [colon; space] ++ v)).
  { destruct k; [reflexivity | exact Hk]. }
  rewrite (lstrip_id _ Hh).
  destruct v as [|c v].
  - unfold rstrip. rewrite rev_app_distr. cbn [rev app lstrip].
    assert (E1 : isspace space = true) by reflexivity.
    assert (E2 : isspace colon = false) by reflexivity.
    rewrite E1, E2. cbn [rev]. now rewrite rev_involutive.
  - apply rstrip_id. rewrite rev_app_distr. cbn [app rev].
    cbn [rev] in Hv.
    repeat (apply head_ok_app; [destruct (rev v); cbn; discriminate|]).
    exact Hv.
Qed.

Lemma strip_after_colon (v : str) :
  trimmed v ->
  strip match v with [] => [] | _ :: _ => space :: v end = v.
Proof.
  intros Hv. destruct v as [|c v]; [reflexivity|].
  unfold strip. cbn [lstrip].
  assert (E1 : isspace space = true) by reflexivity.
  rewrite E1. apply (strip_id _ Hv).
Qed.

Lemma parse_line_tidy (users : list entry) (acc : entry)
  (kv : str * list str) :
  tidy_attr kv ->
  ~ In (fst kv) (keys acc) ->
  parse_line (users, acc) (line_of kv) = Ok (users, acc ++ [kv]).
Proof.
  destruct kv as [k vs]. intros [(Hk & Hc & _) (v & Hvs & Hv & _)] Hin.
  cbn [fst snd] in *. subst vs. unfold line_of. cbn [fst snd hd].
  rewrite (parse_line_attribute users acc _ k
             match v with [] => [] | _ :: _ => space :: v end
             (strip_key_value k v Hk Hv) Hc).
  rewrite (strip_id k Hk), (strip_after_colon v Hv).
  apply dict_get_None_keys in Hin. rewrite Hin.
  now rewrite dict_set_fresh.
Qed.

Lemma line_of_one_line (kv : str * list str) :
  tidy_attr kv -> one_line (line_of kv).
Proof.
  destruct kv as [k vs]. intros [(_ & _ & Hk) (v & Hvs & _ & Hv)].
  cbn [fst snd] in *. subst vs. unfold line_of. cbn [fst snd hd].
  apply one_line_app. split; [exact Hk|].
  apply one_line_app. split; [reflexivity | exact Hv].
Qed.

Lemma serialize_attribute_tidy (kv : str * list str) :
  tidy_attr kv -> serialize_attribute kv = line_of kv ++ [newline].
Proof.
  destruct kv as [k vs]. intros [_ (v & Hvs & _)]. cbn [fst snd] in *.
  subst vs. unfold serialize_attribute, line_of. cbn [flat_map fst snd hd].
  now rewrite app_nil_r, <- !app_assoc.
Qed.

Lemma splitlines_serialized (e : entry) (rest : str) :
  Forall tidy_attr e ->
  splitlines_from [] (flat_map serialize_attribute e ++ rest)
  = List.map line_of e ++ splitlines_from [] rest.
Proof.
  induction 1 as [|kv e Hkv He IH]; cbn [flat_map map app]; [reflexivity|].
  rewrite (serialize_attribute_tidy kv Hkv), <- !app_assoc.
  cbn [app].
  rewrite (splitlines_from_line _ _ [] (line_of_one_line kv Hkv)).
  cbn [rev app]. now rewrite IH.
Qed.

Lemma parse_tidy_lines (users : list entry) (tail : list str) :
  forall (rest acc : entry),
    Forall tidy_attr rest ->
    NoDup (keys (acc ++ rest)) ->
    for_each parse_line (List.map line_of rest ++ tail) (users, acc)
    = for_each parse_line tail (users, acc ++ rest).
Proof.
  induction rest as [|kv rest IH]; intros acc Ht Hnd; cbn [map app for_each].
  - now rewrite app_nil_r.
  - apply Forall_cons_iff in Ht as [Hkv Ht].
    assert (Hin : ~ In (fst kv) (keys acc)).
    { unfold keys in Hnd |- *. rewrite map_app in Hnd. cbn [map] in Hnd.
      apply NoDup_remove_2 in Hnd. intros H. apply Hnd.
      apply in_or_app. now left. }
    rewrite (parse_line_tidy users acc kv Hkv Hin). cbn [bind].
    rewrite IH; [|exact Ht|].
    + now rewrite <- app_assoc.
    + now rewrite <- app_assoc.
Qed.

Lemma bind_Ok {A B : Type} (m : res A) (k : A -> res B) (a : A)
  (r : res B) :
  m = Ok a -> k a = r -> bind m k = r.
Proof. now intros -> <-. Qed.

Lemma round_trip_tidy (e : entry) :
  e <> [] ->
  NoDup (keys e) ->
  Forall tidy_attr e ->
  parse_ldap_output (serialize_entry e) = Ok [e].
Proof.
  intros Hne Hnd Ht. unfold parse_ldap_output.
  assert (Hlines : splitlines (serialize_entry e)
                   = List.map line_of e ++ [[]]).
  { unfold serialize_entry, splitlines.
    now rewrite (splitlines_serialized e [newline] Ht). }
  rewrite Hlines.
  apply bind_Ok with (a := ([e], [])).
  - etransitivity; [exact (parse_tidy_lines [] [[]] e [] Ht Hnd)|].
    cbn [app for_each].
    apply bind_Ok with (a := ([e], [])); [|reflexivity].
    etransitivity; [exact (parse_line_blank [] e [] eq_refl)|].
    destruct e; [congruence | reflexivity].
  - reflexivity.
Qed.

(** C7. An entry with at least one attribute and distinct names, whose
    names are trimmed, without colon and without line boundary, and whose
    attributes have one value each, trimmed and without line boundary, is
    read back alone and unchanged from its serialisation (one
    [name: value] line per attribute, then a blank line). In particular
    this holds for every entry the parser returns whose attributes have
    one trimmed value each, which is the case when no continuation line
    contributed. *)
Theorem round_trip_single_valued :
  (forall e : entry,
      e <> [] ->
      NoDup (keys e) ->
      Forall tidy_attr e ->
      parse_ldap_output (serialize_entry e) = Ok [e])
  /\ (forall (ldap_output : str) (users : list entry) (e : entry),
        parse_ldap_output ldap_output = Ok users ->
        In e users ->
        Forall single_trimmed e ->
        parse_ldap_output (serialize_entry e) = Ok [e]).
Proof.
  split; [exact round_trip_tidy|].
  intros text users e Hparse Hin Hsingle.
  destruct (parse_ldap_output_total text) as (users' & E & Hgood).
  rewrite Hparse in E. injection E as <-.
  rewrite Forall_forall in Hgood.
  destruct (Hgood e Hin) as (Hne & Hnd & Hattrs).
  apply round_trip_tidy; try assumption.
  rewrite Forall_forall in Hattrs, Hsingle |- *.
  intros kv Hkv.
  destruct (Hattrs kv Hkv) as (Hck & _ & Hlines).
  destruct (Hsingle kv Hkv) as (v & Hv & Htrim).
  split; [exact Hck|]. exists v. split; [exact Hv | split; [exact Htrim|]].
  rewrite Hv in Hlines. now apply Forall_cons_iff in Hlines as [Hl _].
Qed.

Lemma round_trip_single_valued_witness :
  al <> []
  /\ NoDup (keys al)
  /\ Forall tidy_attr al
  /\ parse_ldap_output (serialize_entry al) = Ok [al].
Proof.
  assert (H1 : al <> []) by discriminate.
  assert (H2 : NoDup (keys al)).
  { repeat constructor; cbn; intros H; repeat destruct H as [H|H];
      try discriminate H; exact H. }
  assert (H3 : Forall tidy_attr al).
  { repeat constructor; cbn [fst snd];
      try (eexists; split; [reflexivity|]; repeat split);
      vm_compute; reflexivity. }
  split; [exact H1 | split; [exact H2 | split; [exact H3|]]].
  exact (proj1 round_trip_single_valued al H1 H2 H3).
Defined.

(* ================================================================== *)
(** * Threshold levels                                                 *)
(* ================================================================== *)

(** A larger threshold product selects at least the same attributes. *)
Lemma noteworthy_mono (exclude_fields : list str) (field_count : counter)
  (xa xb : float) :
  (forall c, int_lt_float c xa = true -> int_lt_float c xb = true) ->
  forall f,
    noteworthy exclude_fields field_count xa f = true ->
    noteworthy exclude_fields field_count xb f = true.
Proof.
  intros Hx f. unfold noteworthy.
  destruct (str_in f exclude_fields); cbn [negb andb]; [easy|].
  destruct (str_in f standard_ldap_fields); cbn [negb orb]; [|easy].
  apply Hx.
Qed.

Lemma scan_entry_mono (exclude_fields : list str) (field_count : counter)
  (xa xb : float) :
  (forall f,
      noteworthy exclude_fields field_count xa f = true ->
      noteworthy exclude_fields field_count xb f = true) ->
  forall (user : entry) (da db : dict item),
    (forall f i,
        dict_get da f = Some i ->
        noteworthy exclude_fields field_count xa f = true) ->
    (forall f i, dict_get da f = Some i -> dict_get db f = Some i) ->
    forall f i,
      dict_get (fold_left (scan_entry exclude_fields field_count xa) user da)
               f = Some i ->
      dict_get (fold_left (scan_entry exclude_fields field_count xb) user db)
               f = Some i.
Proof.
  intros Hmono. induction user as [|[g v] user IH]; intros da db HI HR;
    cbn [fold_left]; [exact HR|].
  apply IH.
  - intros f i. unfold scan_entry. cbn [fst snd].
    destruct (noteworthy exclude_fields field_count xa g) eqn:Ea;
      [|apply HI].
    rewrite dict_get_set. destruct (str_eqb g f) eqn:Egf; [|apply HI].
    apply str_eqb_eq in Egf. now subst g.
  - intros f i. unfold scan_entry. cbn [fst snd].
    destruct (noteworthy exclude_fields field_count xa g) eqn:Ea.
    + rewrite (Hmono g Ea), !dict_get_set.
      destruct (str_eqb g f); [easy | apply HR].
    + intros Hget.
      destruct (noteworthy exclude_fields field_count xb g); [|now apply HR].
      rewrite dict_get_set. destruct (str_eqb g f) eqn:Egf; [|now apply HR].
      apply str_eqb_eq in Egf. subst g.
      apply HI in Hget. congruence.
Qed.

Lemma truthy_dict_get {V : Type} (d : dict V) :
  truthy d = true -> exists f i, dict_get d f = Some i.
Proof.
  destruct d as [|[k v] d]; [discriminate|]. intros _.
  exists k, v. cbn [dict_get]. now rewrite str_eqb_refl.
Qed.

Lemma primary_part_mono (exclude_fields include_fields : list str)
  (field_count : counter) (xa xb : float) :
  (forall c, int_lt_float c xa = true -> int_lt_float c xb = true) ->
  forall (user : entry) (name : str) (result : dict item) (f : str)
         (i : item),
    In (name, result)
       (primary_part exclude_fields include_fields field_count xa user) ->
    dict_get result f = Some i ->
    label_of i = RareStandardField ->
    exists result',
      In (name, result')
         (primary_part exclude_fields include_fields field_count xb user)
      /\ dict_get result' f = Some i.
Proof.
  intros Hx user name result f i. unfold primary_part.
  destruct (skipped user); [intros []|].
  set (da := fold_left (scan_entry exclude_fields field_count xa) user []).
  set (db := fold_left (scan_entry exclude_fields field_count xb) user []).
  assert (HR : forall g j, dict_get da g = Some j -> dict_get db g = Some j).
  { apply scan_entry_mono.
    - now apply noteworthy_mono.
    - intros g j H. discriminate H.
    - intros g j H. discriminate H. }
  cbv zeta. destruct (truthy da) eqn:Ta; [|intros []].
  assert (Tb : truthy db = true).
  { destruct (truthy_dict_get da Ta) as (g & j & Hg).
    apply HR in Hg. destruct db; [discriminate Hg | reflexivity]. }
  rewrite Tb. intros [Hin|[]] Hget Hlab. injection Hin as <- <-.
  eexists. split; [left; reflexivity|].
  rewrite get_add_included in Hget |- *.
  destruct (if str_in f include_fields then dict_get user f else None).
  - injection Hget as <-. discriminate Hlab.
  - now apply HR.
Qed.

(** C4. For a level [L] from 1 to 4, on a data set whose size converts
    to a float and whose entries all have a usable [cn], the classifier
    returns at both levels [L] and [L + 1], its primary output being the
    concatenation of the contributions of the entries; and for every
    entry, every attribute labelled "Rare Standard Field" in its
    contribution at level [L] has the same label and values in its
    contribution at level [L + 1]. The products [total_users * fraction]
    are the rounded float products of the script; below [2 ^ 47]
    entries a count is below such a product exactly when it is below the
    fraction of the level times the number of entries. *)
Theorem rare_standard_monotone :
  forall (users : list entry) (exclude_fields include_fields
          include_all_fields : list str) (L : Z) (y : float),
    (1 <= L <= 4)%Z ->
    float_of_int (Z.of_nat (List.length users)) = Ok y ->
    Forall named users ->
    exists a b,
      threshold_levels L = Ok a
      /\ threshold_levels (L + 1) = Ok b
      /\ (exists addl,
            find_non_standard_fields users exclude_fields include_fields
                                     include_all_fields L
            = Ok (flat_map
                    (primary_part exclude_fields include_fields
                                  (count_fields users) (SFmul prec emax y a))
                    users, addl))
      /\ (exists addl,
            find_non_standard_fields users exclude_fields include_fields
                                     include_all_fields (L + 1)
            = Ok (flat_map
                    (primary_part exclude_fields include_fields
                                  (count_fields users) (SFmul prec emax y b))
                    users, addl))
      /\ (forall (user : entry) (name : str) (result : dict item) (f : str)
                (i : item),
          In (name, result)
             (primary_part exclude_fields include_fields
                           (count_fields users) (SFmul prec emax y a)
                           user) ->
          dict_get result f = Some i ->
          label_of i = RareStandardField ->
          exists result',
            In (name, result')
               (primary_part exclude_fields include_fields
                             (count_fields users) (SFmul prec emax y b)
                             user)
            /\ dict_get result' f = Some i)
      /\ ((Z.of_nat (List.length users) < 2 ^ 47)%Z ->
          forall num den c,
            (level_fraction L = Some (num, den) ->
             int_lt_float c (SFmul prec emax y a) = true <->
             (c * den < Z.of_nat (List.length users) * num)%Z)
            /\ (level_fraction (L + 1) = Some (num, den) ->
                int_lt_float c (SFmul prec emax y b) = true <->
                (c * den < Z.of_nat (List.length users) * num)%Z)).
Proof.
  intros users ex inc inca L y HL Hy Hn.
  assert (Hlen : (0 <= Z.of_nat (List.length users))%Z) by lia.
  destruct (threshold_levels_mono L (Z.of_nat (List.length users)) 0 y
              HL Hlen Hy) as (a & b & Ha & Hb & _).
  exists a, b. split; [exact Ha | split; [exact Hb|]].
  split; [|split; [|split]].
  4:{ intros Hsize num den c. split; intros Hfr.
      - apply (level_product_exact L _ c num den a y Ha Hfr);
          [lia | exact Hy].
      - apply (level_product_exact (L + 1) _ c num den b y Hb Hfr);
          [lia | exact Hy]. }
  - eexists.
    apply (find_non_standard_fields_contributions users ex inc inca L a y
             Ha Hy Hn).
  - eexists.
    apply (find_non_standard_fields_contributions users ex inc inca (L + 1)
             b y Hb Hy Hn).
  - apply primary_part_mono. intros c.
    destruct (threshold_levels_mono L (Z.of_nat (List.length users)) c y
                HL Hlen Hy) as (a' & b' & Ha' & Hb' & Hmono).
    rewrite Ha in Ha'. rewrite Hb in Hb'.
    injection Ha' as <-. injection Hb' as <-. exact Hmono.
Qed.

Lemma rare_standard_monotone_witness :
  (1 <= 4 <= 4)%Z
  /\ float_of_int (Z.of_nat (List.length directory))
     = Ok (S754_finite false 4503599627370496 (-50))
  /\ Forall named directory
  /\ In (lit "al", [(mail, al_rare_mail)])
        (primary_part [] [] (count_fields directory)
           (SFmul prec emax (S754_finite false 4503599627370496 (-50))
                  f_0_75) al)
  /\ exists result',
      In (lit "al", result')
         (primary_part [] [] (count_fields directory)
            (SFmul prec emax (S754_finite false 4503599627370496 (-50))
                   f_0_95) al)
      /\ dict_get result' mail = Some al_rare_mail.
Proof.
  assert (H1 : (1 <= 4 <= 4)%Z) by lia.
  assert (H2 : float_of_int (Z.of_nat (List.length directory))
               = Ok (S754_finite false 4503599627370496 (-50)))
    by (vm_compute; reflexivity).
  assert (H3 : Forall named directory)
    by (repeat constructor; discriminate).
  assert (H4 : In (lit "al", [(mail, al_rare_mail)])
                  (primary_part [] [] (count_fields directory)
                     (SFmul prec emax
                        (S754_finite false 4503599627370496 (-50)) f_0_75)
                     al))
    by (vm_compute; left; reflexivity).
  split; [exact H1 | split; [exact H2 | split; [exact H3 | split;
    [exact H4|]]]].
  destruct (rare_standard_monotone directory [] [] [] 4 _ H1 H2 H3)
    as (a & b & Ha & Hb & _ & _ & Hmono & _).
  injection Ha as <-. injection Hb as <-.
  exact (Hmono al (lit "al") [(mail, al_rare_mail)] mail al_rare_mail H4
           eq_refl eq_refl).
Defined.

(* ================================================================== *)
(** * The classification run                                           *)
(* ================================================================== *)

(** ** Validation of the include names *)

Lemma validate_fields_filter (existing_fields fields : list str) :
  forall valid warned,
    fold_left (validate_step existing_fields) fields (valid, warned)
    = (valid ++ filter (fun f => str_in f existing_fields) fields,
       warned
         ++ filter (fun f => negb (str_in f existing_fields)) fields).
Proof.
  induction fields as [|f fields IH]; intros valid warned;
    cbn [fold_left filter].
  - now rewrite !app_nil_r.
  - unfold validate_step at 2.
    destruct (str_in f existing_fields); cbn [negb]; rewrite IH;
      now rewrite <- app_assoc.
Qed.

Lemma keys_dict_set_In {V : Type} (d : dict V) (k k' : str) (v : V) :
  In k' (keys (dict_set d k v)) <-> k' = k \/ In k' (keys d).
Proof.
  induction d as [|[k0 v0] d IH]; cbn [dict_set keys map fst In].
  - split; [intros [H|[]]; now left | intros [H|[]]; now left].
  - destruct (str_eqb k0 k) eqn:E; cbn [keys map fst In].
    + apply str_eqb_eq in E. subst. intuition congruence.
    + fold (keys (dict_set d k v)). fold (keys d). rewrite IH.
      intuition congruence.
Qed.

Lemma keys_counter_update (ks : list str) (c : counter) (k : str) :
  In k (keys (counter_update c ks)) <-> In k ks \/ In k (keys c).
Proof.
  unfold counter_update. revert c.
  induction ks as [|k0 ks IH]; intros c; cbn [fold_left In].
  - tauto.
  - rewrite IH, keys_dict_set_In. split; intros H; intuition congruence.
Qed.

(** The names of the frequency table are the attribute names of the
    data set. *)
Lemma keys_count_fields (users : list entry) (k : str) :
  In k (keys (count_fields users)) <->
  exists user, In user users /\ In k (keys user).
Proof.
  unfold count_fields.
  assert (G : forall c,
             In k (keys (fold_left
                           (fun c user => counter_update c (keys user))
                           users c))
             <-> (exists user, In user users /\ In k (keys user))
                 \/ In k (keys c)).
  { induction users as [|u users IH]; intros c; cbn [fold_left].
    - split; [now right | intros [(u & [] & _)|H]; exact H].
    - rewrite IH, keys_counter_update. split.
      + intros [(u' & Hu' & Hk)|[Hk|Hk]].
        * left. exists u'. split; [now right | assumption].
        * left. exists u. split; [now left | assumption].
        * now right.
      + intros [(u' & [<-|Hu'] & Hk)|Hk].
        * right. now left.
        * left. now exists u'.
        * right. now right. }
  rewrite G. split; [intros [H|[]]; exact H | intros H; now left].
Qed.

(** An excluded name that no entry has changes nothing. *)
Lemma exclude_absent_name (users : list entry)
  (exclude_fields include_fields include_all_fields : list str)
  (threshold_level : Z) (name : str) :
  (forall user, In user users -> dict_mem user name = false) ->
  find_non_standard_fields users (name :: exclude_fields) include_fields
                           include_all_fields threshold_level
  = find_non_standard_fields users exclude_fields include_fields
                             include_all_fields threshold_level.
Proof.
  intros Habs. unfold find_non_standard_fields.
  destruct (threshold_levels threshold_level) as [thr|]; [|reflexivity].
  cbn [bind]. apply for_each_ext_in. intros user [p a] Hu.
  unfold classify_user.
  destruct (get_username user) as [username|]; [|reflexivity].
  cbn [bind]. destruct (_ && _); [reflexivity|].
  assert (E : for_each (scan_field (name :: exclude_fields) thr
                          (count_fields users)
                          (Z.of_nat (List.length users))) user []
              = for_each (scan_field exclude_fields thr (count_fields users)
                            (Z.of_nat (List.length users))) user []).
  { apply for_each_ext_in. intros [f v] d Hf.
    unfold scan_field, selected. rewrite str_in_cons.
    assert (Hne : str_eqb f name = false).
    { apply str_eqb_neq. intros ->.
      assert (Hk : In name (keys user)).
      { unfold keys. apply (in_map fst) in Hf. exact Hf. }
      apply dict_mem_keys in Hk. rewrite (Habs user Hu) in Hk.
      discriminate. }
    now rewrite Hne. }
  now rewrite E.
Qed.

(** The classification run returns for every level of the table on a
    data set of fewer than [2 ^ 53] entries. *)
Lemma run_classify_total (ldap_output : str)
  (exclude_fields include_fields include_all_fields : list str)
  (threshold_level : Z) (users : list entry) :
  parse_ldap_output ldap_output = Ok users ->
  (1 <= threshold_level <= 5)%Z ->
  (Z.of_nat (List.length users) < 2 ^ 53)%Z ->
  exists out,
    run_classify ldap_output exclude_fields include_fields
                 include_all_fields threshold_level
    = Ok out.
Proof.
  intros Hparse Hlevel Hsize. unfold run_classify. rewrite Hparse.
  cbn [bind].
  destruct (validate_fields include_fields _) as [inc w1].
  destruct (validate_fields include_all_fields _) as [inca w2].
  assert (Hthr : exists thr, threshold_levels threshold_level = Ok thr).
  { assert (HL : (threshold_level = 1 \/ threshold_level = 2
                  \/ threshold_level = 3 \/ threshold_level = 4
                  \/ threshold_level = 5)%Z) by lia.
    destruct HL as [-> | [-> | [-> | [-> | ->]]]]; eexists; reflexivity. }
  destruct Hthr as (thr & Hthr).
  destruct (float_of_int_small (Z.of_nat (List.length users)))
    as (y & Hy); [unfold prec; lia|].
  rewrite (find_non_standard_fields_contributions users exclude_fields
             inc inca threshold_level thr y Hthr Hy
             (parsed_entries_named ldap_output users Hparse)).
  cbn [bind]. eexists. reflexivity.
Qed.

(** C9. [validate_fields] keeps, in order, the names found among the
    existing fields and warns about the others; it cannot raise. In the
    classification run the include and include-all names are validated
    against the attribute names of the parsed data set and the run goes
    on with the names kept, while the exclude names reach the classifier
    as given. An excluded name that no entry has does not change the
    result of the classifier. For a level from 1 to 5 and fewer than
    [2 ^ 53] entries the run returns, whatever the three name sets
    are. *)
Theorem validation_drops_absent_names :
  (forall fields existing_fields,
      validate_fields fields existing_fields
      = (filter (fun f => str_in f existing_fields) fields,
         filter (fun f => negb (str_in f existing_fields)) fields))
  /\ (forall users name,
        In name (keys (count_fields users)) <->
        exists user, In user users /\ In name (keys user))
  /\ (forall ldap_output exclude_fields include_fields include_all_fields
             threshold_level,
        run_classify ldap_output exclude_fields include_fields
                     include_all_fields threshold_level
        = (users <- parse_ldap_output ldap_output ;;
           let present := fun f => str_in f (keys (count_fields users)) in
           r <- find_non_standard_fields users exclude_fields
                  (filter present include_fields)
                  (filter present include_all_fields) threshold_level ;;
           Ok (filter (fun f => negb (present f)) include_fields
                 ++ filter (fun f => negb (present f)) include_all_fields,
               r)))
  /\ (forall users exclude_fields include_fields include_all_fields
             threshold_level name,
        (forall user, In user users -> dict_mem user name = false) ->
        find_non_standard_fields users (name :: exclude_fields)
                                 include_fields include_all_fields
                                 threshold_level
        = find_non_standard_fields users exclude_fields include_fields
                                   include_all_fields threshold_level)
  /\ (forall ldap_output exclude_fields include_fields include_all_fields
             threshold_level users,
        parse_ldap_output ldap_output = Ok users ->
        (1 <= threshold_level <= 5)%Z ->
        (Z.of_nat (List.length users) < 2 ^ 53)%Z ->
        exists out,
          run_classify ldap_output exclude_fields include_fields
                       include_all_fields threshold_level
          = Ok out).
Proof.
  split; [|split; [|split; [|split]]].
  5:{ intros text ex inc inca level users Hparse Hlevel Hsize.
      apply run_classify_total with (users := users); assumption. }
  - intros fields existing. unfold validate_fields.
    now rewrite validate_fields_filter.
  - apply keys_count_fields.
  - intros text ex inc inca level. unfold run_classify.
    destruct (parse_ldap_output text) as [users|]; [|reflexivity].
    cbn [bind]. unfold validate_fields.
    now rewrite !validate_fields_filter.
  - intros users ex inc inca level name. apply exclude_absent_name.
Qed.

Lemma validation_drops_absent_names_witness :
  (forall user, In user [bob] -> dict_mem user (lit "pager") = false)
  /\ find_non_standard_fields [bob] [lit "pager"] [] [] 2
     = find_non_standard_fields [bob] [] [] [] 2.
Proof.
  assert (H : forall user, In user [bob] ->
                           dict_mem user (lit "pager") = false).
  { intros user [<-|[]]. reflexivity. }
  split; [exact H|].
  destruct validation_drops_absent_names as (_ & _ & _ & H4 & _).
  exact (H4 [bob] [] [] [] 2%Z (lit "pager") H).
Defined.

(* ================================================================== *)
(** * Blank lines and the entries between them                         *)
(* ================================================================== *)

Lemma parse_blank_lines (lines : list str) (users : list entry) :
  Forall (fun line => strip line = []) lines ->
  for_each parse_line lines (users, []) = Ok (users, []).
Proof.
  induction 1 as [|line lines Hline _ IH]; [reflexivity|].
  cbn [for_each].
  apply bind_Ok with (a := (users, [])); [|exact IH].
  exact (parse_line_blank users [] line Hline).
Qed.

Lemma splitlines_from_gap_nil (rest cur : str) :
  exists k,
    splitlines_from cur (newline :: newline :: rest)
    = splitlines_from cur [] ++ [] :: repeat [] k ++ splitlines rest.
Proof.
  destruct cur as [|c cur].
  - exists 1%nat. reflexivity.
  - exists 0%nat. reflexivity.
Qed.

Lemma splitlines_from_cons (cur : str) (c : char) (rest : str) :
  splitlines_from cur (c :: rest)
  = if (c =? 13)%N then
      match rest with
      | c' :: rest' =>
          if (c' =? 10)%N then rev cur :: splitlines_from [] rest'
          else rev cur :: splitlines_from [] rest
      | [] => rev cur :: splitlines_from [] rest
      end
    else if is_linebreak c then rev cur :: splitlines_from [] rest
    else splitlines_from (c :: cur) rest.
Proof. reflexivity. Qed.

Lemma splitlines_from_gap (rest : str) (n : nat) :
  forall (s cur : str),
    (List.length s <= n)%nat ->
    exists k,
      splitlines_from cur (s ++ newline :: newline :: rest)
      = splitlines_from cur s ++ [] :: repeat [] k ++ splitlines rest.
Proof.
  induction n as [|n IH]; intros s cur Hlen.
  - destruct s; [apply splitlines_from_gap_nil | simpl in Hlen; lia].
  - destruct s as [|c s]; [apply splitlines_from_gap_nil|].
    simpl in Hlen.
    destruct s as [|c' s'].
    + cbn [app splitlines_from].
      destruct (c =? 13)%N.
      * exists 0%nat. reflexivity.
      * destruct (is_linebreak c).
        -- exists 1%nat. reflexivity.
        -- exists 0%nat. reflexivity.
    + cbn [app].
      rewrite (splitlines_from_cons cur c (c' :: s')).
      rewrite (splitlines_from_cons cur c
                 (c' :: s' ++ newline :: newline :: rest)).
      destruct (c =? 13)%N.
      * destruct (c' =? 10)%N.
        -- destruct (IH s' []) as [k Hk]; [simpl in Hlen; lia|].
           exists k. rewrite Hk. reflexivity.
        -- destruct (IH (c' :: s') []) as [k Hk]; [simpl in *; lia|].
           exists k. cbn [app] in Hk. rewrite Hk. reflexivity.
      * destruct (is_linebreak c).
        -- destruct (IH (c' :: s') []) as [k Hk]; [simpl in *; lia|].
           exists k. cbn [app] in Hk. rewrite Hk. reflexivity.
        -- destruct (IH (c' :: s') (c :: cur)) as [k Hk]; [simpl in *; lia|].
           exists k. cbn [app] in Hk. exact Hk.
Qed.

Lemma parse_line_prefix (pre users : list entry) (user : entry) (raw : str) :
  parse_line (pre ++ users, user) raw
  = st <- parse_line (users, user) raw ;; Ok (pre ++ fst st, snd st).
Proof.
  unfold parse_line.
  destruct (negb (truthy (strip raw))).
  - simpl. destruct (truthy user); [rewrite app_assoc|]; reflexivity.
  - destruct (has_char colon (strip raw)).
    + destruct (List.map strip (split1 colon (strip raw))) as [|k [|v [|? ?]]];
        try reflexivity.
      destruct (dict_get user k); reflexivity.
    + destruct (truthy user); [|reflexivity].
      destruct (last_item (keys user)) as [last_key|e]; [|reflexivity].
      simpl. destruct (truthy last_key); [|reflexivity].
      destruct (dict_get user last_key) as [vs|]; [|reflexivity].
      destruct (last_item vs); reflexivity.
Qed.

Lemma parse_loop_prefix (pre : list entry) (lines : list str) :
  forall users user,
    for_each parse_line lines (pre ++ users, user)
    = st <- for_each parse_line lines (users, user) ;;
      Ok (pre ++ fst st, snd st).
Proof.
  induction lines as [|line lines IH]; intros users user; [reflexivity|].
  cbn [for_each]. rewrite parse_line_prefix.
  destruct (parse_line (users, user) line) as [[users' user']|e];
    [|reflexivity].
  cbn [bind fst snd]. apply IH.
Qed.

(** X1. [parse_ldap_output] returns on every text: none of its index,
    key and unpacking operations raises. Every entry it returns has at
    least one attribute and no attribute name twice; every attribute has
    at least one value; names and values contain no line boundary; a
    name has no colon and no white space at either end. *)
Theorem parsed_entries_well_formed (ldap_output : str) :
  exists users,
    parse_ldap_output ldap_output = Ok users
    /\ Forall
         (fun user : entry =>
            user <> [] /\ distinct_names user
            /\ forall name values,
                 In (name, values) user ->
                 values <> [] /\ Forall one_line values
                 /\ trimmed name /\ colon_free name /\ one_line name)
         users.
Proof.
  destruct (parse_ldap_output_total ldap_output) as [users [Hp Hg]].
  exists users. split; [exact Hp|].
  eapply Forall_impl; [|exact Hg].
  intros user [Hne [Hnd Hattr]]. split; [exact Hne|]. split; [exact Hnd|].
  intros name values Hin.
  rewrite Forall_forall in Hattr.
  destruct (Hattr _ Hin) as [[Ht [Hc Ho]] [Hv Hl]]. simpl in *.
  auto.
Qed.

(** X2. A text all of whose lines are empty or white space (the empty
    text among them) parses to the empty list of entries. *)
Theorem blank_text_has_no_entries (ldap_output : str) :
  Forall (fun line => strip line = []) (splitlines ldap_output) ->
  parse_ldap_output ldap_output = Ok [].
Proof.
  intros H. unfold parse_ldap_output.
  rewrite (parse_blank_lines _ [] H). reflexivity.
Qed.

Lemma blank_text_has_no_entries_witness :
  parse_ldap_output (lit "  " ++ [newline; 9%N; 13%N; newline; 160%N]) = Ok [].
Proof.
  apply blank_text_has_no_entries. vm_compute. repeat constructor.
Defined.

(** X3. A blank line separates entries: the text made of [t1], two
    line feeds and [t2] parses to the entries of [t1] followed by the
    entries of [t2], whatever the two texts are and however [t1]
    ends. *)
Theorem blank_line_separates (t1 t2 : str) :
  exists users1 users2,
    parse_ldap_output t1 = Ok users1
    /\ parse_ldap_output t2 = Ok users2
    /\ parse_ldap_output (t1 ++ [newline; newline] ++ t2)
       = Ok (users1 ++ users2).
Proof.
  destruct (parse_loop_good (splitlines t1) (splitlines_one_line t1) ([], []))
    as [[us1 acc1] [H1 _]].
  { split; simpl; [constructor|]. split; simpl; constructor. }
  destruct (parse_loop_good (splitlines t2) (splitlines_one_line t2) ([], []))
    as [[us2 acc2] [H2 _]].
  { split; simpl; [constructor|]. split; simpl; constructor. }
  exists (if truthy acc1 then us1 ++ [acc1] else us1),
         (if truthy acc2 then us2 ++ [acc2] else us2).
  unfold parse_ldap_output.
  split; [rewrite H1; reflexivity|].
  split; [rewrite H2; reflexivity|].
  destruct (splitlines_from_gap t2 (List.length t1) t1 [] (le_n _))
    as [k Hk].
  unfold splitlines. cbn [app]. rewrite Hk.
  fold (splitlines t1). fold (splitlines t2).
  rewrite for_each_app, H1. cbn [bind for_each].
  rewrite (parse_line_blank us1 acc1 []) by reflexivity.
  cbn [bind]. rewrite for_each_app.
  rewrite parse_blank_lines by (apply Forall_forall; intros x Hx;
                                 apply repeat_spec in Hx; subst; reflexivity).
  cbn [bind].
  set (users1 := if truthy acc1 then us1 ++ [acc1] else us1).
  rewrite <- (app_nil_r users1) at 1.
  rewrite parse_loop_prefix.
  apply bind_Ok with (a := (users1 ++ us2, acc2)).
  - apply bind_Ok with (a := (us2, acc2)); [exact H2 | reflexivity].
  - destruct (truthy acc2); [rewrite app_assoc|]; reflexivity.
Qed.

(** The number of entries is at most the number of characters. *)






(* ================================================================== *)
(** * The field inventory                                              *)
(* ================================================================== *)

Lemma keys_dict_set {V : Type} (d : dict V) (k : str) (v : V) :
  keys (dict_set d k v) = if str_in k (keys d) then keys d else keys d ++ [k].
Proof.
  induction d as [|[k' v'] d IH]; [reflexivity|].
  cbn [dict_set keys List.map fst]. rewrite str_in_cons, (str_eqb_sym k k').
  destruct (str_eqb k' k); [reflexivity|].
  cbn [keys List.map fst orb]. fold (keys (dict_set d k v)). rewrite IH.
  fold (keys d). destruct (str_in k (keys d)); reflexivity.
Qed.

Lemma keys_counter_update_order (ks : list str) :
  forall c : counter,
    keys (counter_update c ks) = first_seen_from (keys c) ks.
Proof.
  induction ks as [|k ks IH]; intros c; [reflexivity|].
  unfold counter_update, first_seen_from in *. cbn [fold_left].
  rewrite IH, keys_dict_set. reflexivity.
Qed.

Lemma first_seen_from_app (seen a b : list str) :
  first_seen_from seen (a ++ b)
  = first_seen_from (first_seen_from seen a) b.
Proof. apply fold_left_app. Qed.

Lemma keys_count_loop_order (users : list entry) :
  forall c : counter,
    keys (fold_left (fun c user => counter_update c (keys user)) users c)
    = first_seen_from (keys c) (flat_map keys users).
Proof.
  induction users as [|user users IH]; intros c; [reflexivity|].
  cbn [fold_left flat_map]. rewrite first_seen_from_app, IH.
  now rewrite keys_counter_update_order.
Qed.

Lemma keys_count_fields_order (users : list entry) :
  keys (count_fields users) = first_seen (flat_map keys users).
Proof. apply keys_count_loop_order. Qed.

Lemma In_first_seen_from (x : str) (l : list str) :
  forall seen,
    In x (first_seen_from seen l) <-> In x seen \/ In x l.
Proof.
  induction l as [|k l IH]; intros seen; [simpl; tauto|].
  unfold first_seen_from in *. cbn [fold_left]. rewrite IH.
  destruct (str_in k seen) eqn:E.
  - apply str_in_In in E. simpl. intuition (subst; auto).
  - rewrite in_app_iff. simpl. intuition (subst; auto).
Qed.

Lemma NoDup_first_seen_from (l : list str) :
  forall seen, NoDup seen -> NoDup (first_seen_from seen l).
Proof.
  induction l as [|k l IH]; intros seen Hs; [exact Hs|].
  unfold first_seen_from in *. cbn [fold_left]. apply IH.
  destruct (str_in k seen) eqn:E; [exact Hs|].
  apply NoDup_app; [exact Hs | repeat constructor; simpl; tauto |].
  intros a Ha [<-|[]].
  apply str_in_In in Ha. congruence.
Qed.

Lemma NoDup_keys_count_fields (users : list entry) :
  NoDup (keys (count_fields users)).
Proof.
  rewrite keys_count_fields_order. apply NoDup_first_seen_from. constructor.
Qed.

Lemma In_dict_get {V : Type} (d : dict V) (k : str) (v : V) :
  NoDup (keys d) -> In (k, v) d -> dict_get d k = Some v.
Proof.
  induction d as [|[k' v'] d IH]; intros Hnd Hin; [destruct Hin|].
  cbn [keys List.map fst] in Hnd. apply NoDup_cons_iff in Hnd.
  destruct Hnd as [Hk Hnd]. cbn [dict_get].
  destruct Hin as [Heq|Hin].
  - injection Heq as -> ->. now rewrite str_eqb_refl.
  - destruct (str_eqb k' k) eqn:E; [|now apply IH].
    apply str_eqb_eq in E. subst k'.
    exfalso. apply Hk. change (In (fst (k, v)) (List.map fst d)).
    now apply in_map.
Qed.

Lemma filter_length_all {A : Type} (p : A -> bool) (l : list A) :
  List.length (filter p l) = List.length l <-> forall x, In x l -> p x = true.
Proof.
  induction l as [|a l IH]; [simpl; tauto|].
  pose proof (filter_length_le p l) as Hle.
  cbn [filter]. destruct (p a) eqn:E; cbn [List.length].
  - split.
    + intros H x [<-|Hx]; [exact E|]. apply IH; [lia | exact Hx].
    + intros H. f_equal. apply IH. intros x Hx. apply H. now right.
  - split; [lia|]. intros H. rewrite (H a) in E by now left. discriminate E.
Qed.

Lemma filter_length_some {A : Type} (p : A -> bool) (l : list A) :
  (1 <= List.length (filter p l))%nat <-> exists x, In x l /\ p x = true.
Proof.
  split.
  - destruct (filter p l) as [|x r] eqn:E; [simpl; lia|]. intros _.
    exists x. apply filter_In. rewrite E. now left.
  - intros [x Hx]. apply filter_In in Hx.
    destruct (filter p l); [destruct Hx | simpl; lia].
Qed.

Lemma frequency_bounds (users : list entry) (field : str) :
  (0 <= frequency users field <= Z.of_nat (List.length users))%Z
  /\ ((1 <= frequency users field)%Z
      <-> exists user, In user users /\ In field (keys user))
  /\ (frequency users field = Z.of_nat (List.length users)
      <-> forall user, In user users -> In field (keys user)).
Proof.
  unfold frequency.
  pose proof (filter_length_le (fun user : entry => dict_mem user field)
                               users) as Hle.
  split; [split; [apply Nat2Z.is_nonneg | apply Nat2Z.inj_le; exact Hle]|].
  split.
  - change 1%Z with (Z.of_nat 1). rewrite <- Nat2Z.inj_le.
    etransitivity; [apply filter_length_some|].
    split; intros [user [Hin Hm]]; exists user; split; auto;
      now apply dict_mem_keys.
  - rewrite Nat2Z.inj_iff.
    etransitivity; [apply filter_length_all|].
    split; intros H user Hin; apply dict_mem_keys; auto.
Qed.

(** X4. On entries without repeated attribute names, the count the
    table holds for a field is the number of entries that have the
    field. It lies between zero and the number of entries, is at least
    one exactly for the fields some entry has, and reaches the number of
    entries exactly for the fields every entry has. *)
Theorem field_count_is_frequency (users : list entry) (field : str) :
  Forall distinct_names users ->
  counter_get (count_fields users) field = frequency users field
  /\ (0 <= counter_get (count_fields users) field
      <= Z.of_nat (List.length users))%Z
  /\ ((1 <= counter_get (count_fields users) field)%Z
      <-> exists user, In user users /\ In field (keys user))
  /\ (counter_get (count_fields users) field = Z.of_nat (List.length users)
      <-> forall user, In user users -> In field (keys user)).
Proof.
  intros Hd. rewrite (count_fields_frequency users field Hd).
  split; [reflexivity|]. apply frequency_bounds.
Qed.

Lemma field_count_is_frequency_witness :
  counter_get (count_fields directory) mail = 2%Z
  /\ counter_get (count_fields directory) cn = 4%Z.
Proof.
  assert (Hd : Forall distinct_names directory).
  { repeat constructor; simpl; intuition discriminate. }
  split.
  - destruct (field_count_is_frequency directory mail Hd) as [-> _].
    reflexivity.
  - destruct (field_count_is_frequency directory cn Hd) as [-> _].
    reflexivity.
Defined.

(** X5. [list_fields] prints one line per attribute name of the data
    set, in the order in which the names are first met when the entries
    are read in order. A line gives the number of entries that have the
    field, which is at least one, over the number of entries, and is red
    exactly when the field is outside the standard set. *)
Theorem list_fields_lines (users : list entry) :
  Forall distinct_names users ->
  List.map (fun line => snd (fst (fst line))) (list_fields users)
  = first_seen (flat_map keys users)
  /\ forall c field count total,
       In (c, field, count, total) (list_fields users) ->
       total = Z.of_nat (List.length users)
       /\ count = frequency users field
       /\ (1 <= count <= total)%Z
       /\ c = (if str_in field standard_ldap_fields then RESET else RED).
Proof.
  intros Hd. split.
  - rewrite <- keys_count_fields_order. unfold list_fields, keys.
    rewrite map_map. reflexivity.
  - intros c field count total Hin. unfold list_fields in Hin.
    apply in_map_iff in Hin. destruct Hin as [[f n] [Heq Hin]].
    pose proof (f_equal (fun l => fst (fst (fst l))) Heq) as Hc.
    pose proof (f_equal (fun l => snd (fst (fst l))) Heq) as Hf.
    pose proof (f_equal (fun l => snd (fst l)) Heq) as Hcount.
    pose proof (f_equal snd Heq) as Ht.
    cbn [fst snd] in Hc, Hf, Hcount, Ht. subst c field count total.
    clear Heq.
    assert (Hn : n = frequency users f).
    { rewrite <- (count_fields_frequency users f Hd). unfold counter_get.
      now rewrite (In_dict_get _ _ _ (NoDup_keys_count_fields users) Hin). }
    assert (Hk : In f (keys (count_fields users))).
    { change (In (fst (f, n)) (List.map fst (count_fields users))).
      now apply in_map. }
    apply keys_count_fields in Hk.
    destruct (frequency_bounds users f) as [Hb [Hone _]].
    apply Hone in Hk.
    split; [reflexivity|]. split; [exact Hn|]. split; [lia|].
    destruct (str_in f standard_ldap_fields); reflexivity.
Qed.

Lemma list_fields_lines_witness :
  List.map (fun line => snd (fst (fst line))) (list_fields directory)
  = [cn; mail; shoeSize].
Proof.
  assert (Hd : Forall distinct_names directory).
  { repeat constructor; simpl; intuition discriminate. }
  destruct (list_fields_lines directory Hd) as [-> _]. reflexivity.
Defined.

(* ================================================================== *)
(** * The results of the classifier, attribute by attribute            *)
(* ================================================================== *)

Lemma get_scan_entry (exclude_fields : list str) (field_count : counter)
  (x : float) (user : entry) :
  NoDup (keys user) ->
  forall data f,
    dict_get (fold_left (scan_entry exclude_fields field_count x) user data) f
    = match dict_get user f with
      | Some value =>
          if noteworthy exclude_fields field_count x f
          then Some (scan_item f value)
          else dict_get data f
      | None => dict_get data f
      end.
Proof.
  induction user as [|[k v] user IH]; intros Hnd data f; [reflexivity|].
  cbn [keys List.map fst] in Hnd. apply NoDup_cons_iff in Hnd.
  destruct Hnd as [Hk Hnd].
  cbn [fold_left dict_get]. rewrite (IH Hnd).
  destruct (str_eqb k f) eqn:E.
  - apply str_eqb_eq in E. subst f.
    apply dict_get_None_keys in Hk. rewrite Hk.
    unfold scan_entry. cbn [fst snd].
    destruct (noteworthy exclude_fields field_count x k); [|reflexivity].
    rewrite dict_get_set, str_eqb_refl. reflexivity.
  - assert (Hd : dict_get (scan_entry exclude_fields field_count x data (k, v))
                          f = dict_get data f).
    { unfold scan_entry. cbn [fst snd].
      destruct (noteworthy exclude_fields field_count x k); [|reflexivity].
      now rewrite dict_get_set, E. }
    rewrite Hd. reflexivity.
Qed.

Lemma keys_scan_entry (exclude_fields : list str) (field_count : counter)
  (x : float) (user : entry) :
  forall data,
    keys (fold_left (scan_entry exclude_fields field_count x) user data)
    = first_seen_from (keys data)
        (filter (noteworthy exclude_fields field_count x) (keys user)).
Proof.
  induction user as [|[k v] user IH]; intros data; [reflexivity|].
  cbn [fold_left]. rewrite IH.
  change (keys ((k, v) :: user)) with (k :: keys user). cbn [filter].
  unfold scan_entry. cbn [fst snd].
  destruct (noteworthy exclude_fields field_count x k); [|reflexivity].
  rewrite keys_dict_set. reflexivity.
Qed.

Lemma keys_add_included (user : entry) (l : list str) :
  forall data,
    keys (fold_left (add_included user) l data)
    = first_seen_from (keys data) (filter (dict_mem user) l).
Proof.
  induction l as [|f l IH]; intros data; [reflexivity|].
  cbn [fold_left filter]. rewrite IH. unfold add_included, dict_mem.
  destruct (dict_get user f); [|reflexivity].
  rewrite keys_dict_set. reflexivity.
Qed.

Lemma keys_add_include_all (user : entry) (l : list str) :
  forall data,
    keys (fold_left (add_include_all user) l data)
    = first_seen_from (keys data) (filter (dict_mem user) l).
Proof.
  induction l as [|f l IH]; intros data; [reflexivity|].
  cbn [fold_left filter]. rewrite IH. unfold add_include_all, dict_mem.
  destruct (dict_get user f); [|reflexivity].
  rewrite keys_dict_set. reflexivity.
Qed.

Lemma truthy_first_seen_from (l seen : list str) :
  truthy (first_seen_from seen l) = truthy seen || truthy l.
Proof.
  revert seen. induction l as [|k l IH]; intros seen.
  - simpl. now rewrite orb_false_r.
  - unfold first_seen_from in *. cbn [fold_left]. rewrite IH.
    destruct (str_in k seen) eqn:E.
    + destruct seen; [discriminate E | reflexivity].
    + destruct seen; simpl; reflexivity.
Qed.

Lemma truthy_keys {V : Type} (d : dict V) : truthy (keys d) = truthy d.
Proof. destruct d; reflexivity. Qed.

Lemma truthy_filter {A : Type} (p : A -> bool) (l : list A) :
  truthy (filter p l) = existsb p l.
Proof.
  induction l as [|a l IH]; [reflexivity|].
  simpl. destruct (p a); [reflexivity | exact IH].
Qed.

Lemma truthy_scan_entry (exclude_fields : list str) (field_count : counter)
  (x : float) (user : entry) :
  truthy (fold_left (scan_entry exclude_fields field_count x) user [])
  = existsb (noteworthy exclude_fields field_count x) (keys user).
Proof.
  rewrite <- truthy_keys, keys_scan_entry, truthy_first_seen_from.
  apply truthy_filter.
Qed.

Lemma In_primary_part (exclude_fields include_fields : list str)
  (field_count : counter) (x : float) (user : entry) (name : str)
  (result : dict item) :
  In (name, result)
     (primary_part exclude_fields include_fields field_count x user)
  <-> skipped user = false
      /\ existsb (noteworthy exclude_fields field_count x) (keys user) = true
      /\ name = display_name user
      /\ result
         = fold_left (add_included user) include_fields
             (fold_left (scan_entry exclude_fields field_count x) user []).
Proof.
  unfold primary_part. rewrite truthy_scan_entry.
  destruct (skipped user); [simpl; intuition discriminate|].
  destruct (existsb _ (keys user)); [|simpl; intuition discriminate].
  simpl. split.
  - intros [H|[]]. injection H as <- <-. auto.
  - intros [_ [_ [-> ->]]]. now left.
Qed.

Lemma In_include_all_part (include_all_fields : list str) (user : entry)
  (name : str) (result : dict item) :
  In (name, result) (include_all_part include_all_fields user)
  <-> skipped user = false
      /\ existsb (dict_mem user) include_all_fields = true
      /\ name = display_name user
      /\ result = fold_left (add_include_all user) include_all_fields [].
Proof.
  unfold include_all_part.
  assert (Ht : truthy include_all_fields
               && existsb (dict_mem user) include_all_fields
               = existsb (dict_mem user) include_all_fields)
    by (destruct include_all_fields; reflexivity).
  rewrite Ht.
  destruct (skipped user); [simpl; intuition discriminate|].
  destruct (existsb (dict_mem user) include_all_fields);
    [|simpl; intuition discriminate].
  simpl. split.
  - intros [H|[]]. injection H as <- <-. auto.
  - intros [_ [_ [-> ->]]]. now left.
Qed.

Lemma find_non_standard_fields_product (users : list entry)
  (exclude_fields include_fields include_all_fields : list str)
  (threshold_level : Z) (threshold_percentage x : float) :
  threshold_levels threshold_level = Ok threshold_percentage ->
  int_mul_float (Z.of_nat (List.length users)) threshold_percentage = Ok x ->
  Forall named users ->
  find_non_standard_fields users exclude_fields include_fields
                           include_all_fields threshold_level
  = Ok (flat_map
          (primary_part exclude_fields include_fields (count_fields users) x)
          users,
        flat_map (include_all_part include_all_fields) users).
Proof.
  intros Hl Hx Hn. unfold find_non_standard_fields. rewrite Hl. cbn [bind].
  exact (classify_loop exclude_fields include_fields include_all_fields
           threshold_percentage (count_fields users)
           (Z.of_nat (List.length users)) x users Hx Hn [] []).
Qed.

(** X6. The primary output of [find_non_standard_fields], attribute by
    attribute, on named entries without repeated attribute names. Every
    pair comes from an entry that is not skipped and has a noteworthy
    attribute (not excluded, and non-standard or below the threshold
    product), and carries its display name; its result maps a field of
    the entry that is in the include set to "Included Field" with the
    entry's values, even when the scan had labelled it; any other
    noteworthy field of the entry to its scan label and colour with the
    entry's values; and nothing else. Conversely every entry that is not
    skipped and has a noteworthy attribute has a pair. *)
Theorem primary_results_characterised (users : list entry)
  (exclude_fields include_fields include_all_fields : list str)
  (threshold_level : Z) (threshold_percentage x : float)
  (out : list (str * dict item) * list (str * dict item)) :
  threshold_levels threshold_level = Ok threshold_percentage ->
  int_mul_float (Z.of_nat (List.length users)) threshold_percentage = Ok x ->
  Forall named users ->
  Forall distinct_names users ->
  find_non_standard_fields users exclude_fields include_fields
                           include_all_fields threshold_level = Ok out ->
  (forall name result,
      In (name, result) (fst out) ->
      exists user,
        In user users /\ name = display_name user /\ skipped user = false
        /\ existsb (noteworthy exclude_fields (count_fields users) x)
                   (keys user) = true
        /\ forall f,
             dict_get result f
             = match dict_get user f with
               | None => None
               | Some value =>
                   if str_in f include_fields
                   then Some (IncludedField, (GREEN, f), value)
                   else if noteworthy exclude_fields (count_fields users) x f
                   then Some (scan_item f value)
                   else None
               end)
  /\ (forall user,
         In user users -> skipped user = false ->
         existsb (noteworthy exclude_fields (count_fields users) x)
                 (keys user) = true ->
         exists result, In (display_name user, result) (fst out)).
Proof.
  intros Hl Hx Hn Hd Hf.
  rewrite (find_non_standard_fields_product _ _ _ _ _ _ _ Hl Hx Hn) in Hf.
  injection Hf as <-. cbn [fst]. split.
  - intros name result Hin. apply in_flat_map in Hin.
    destruct Hin as [user [Hu Hin]]. apply In_primary_part in Hin.
    destruct Hin as [Hs [He [-> ->]]].
    exists user. repeat (split; [assumption || reflexivity|]).
    intros f. rewrite get_add_included.
    rewrite Forall_forall in Hd.
    rewrite (get_scan_entry _ _ _ _ (Hd _ Hu)).
    destruct (dict_get user f) as [value|];
      destruct (str_in f include_fields); try reflexivity.
  - intros user Hu Hs He. eexists. apply in_flat_map.
    exists user. split; [exact Hu|]. apply In_primary_part. auto.
Qed.

Lemma primary_results_characterised_witness :
  exists thr x out,
    find_non_standard_fields directory [] [mail] [] 2 = Ok out
    /\ threshold_levels 2 = Ok thr
    /\ int_mul_float 4 thr = Ok x
    /\ forall result,
         In (lit "bob", result) (fst out) ->
         exists user,
           In user directory /\ lit "bob" = display_name user.
Proof.
  eexists. eexists. eexists.
  split; [vm_compute; reflexivity|].
  split; [reflexivity|]. split; [vm_compute; reflexivity|].
  intros result Hin.
  assert (Hn : Forall named directory).
  { repeat constructor; intros H; discriminate H. }
  assert (Hd : Forall distinct_names directory).
  { repeat constructor; simpl; intuition discriminate. }
  destruct (primary_results_characterised directory [] [mail] [] 2 _ _ _
              eq_refl eq_refl Hn Hd eq_refl) as [Hsound _].
  destruct (Hsound _ _ Hin) as [user [Hu [Hname _]]].
  exists user. split; assumption.
Defined.

(** X7. The order of the attributes inside a result is the insertion
    order: in the primary output, the noteworthy fields in the order of
    the entry, then the included fields the entry has, in the order of
    the include sequence, each name once at its first place; in the
    include-all output, the include-all fields the entry has, in the
    order of the include-all sequence. *)
Theorem result_attribute_order (users : list entry)
  (exclude_fields include_fields include_all_fields : list str)
  (threshold_level : Z) (threshold_percentage x : float)
  (out : list (str * dict item) * list (str * dict item)) :
  threshold_levels threshold_level = Ok threshold_percentage ->
  int_mul_float (Z.of_nat (List.length users)) threshold_percentage = Ok x ->
  Forall named users ->
  find_non_standard_fields users exclude_fields include_fields
                           include_all_fields threshold_level = Ok out ->
  (forall name result,
      In (name, result) (fst out) ->
      exists user,
        In user users /\ name = display_name user
        /\ keys result
           = first_seen
               (filter (noteworthy exclude_fields (count_fields users) x)
                       (keys user)
                ++ filter (dict_mem user) include_fields))
  /\ (forall name result,
         In (name, result) (snd out) ->
         exists user,
           In user users /\ name = display_name user
           /\ keys result
              = first_seen (filter (dict_mem user) include_all_fields)).
Proof.
  intros Hl Hx Hn Hf.
  rewrite (find_non_standard_fields_product _ _ _ _ _ _ _ Hl Hx Hn) in Hf.
  injection Hf as <-. cbn [fst snd]. split.
  - intros name result Hin. apply in_flat_map in Hin.
    destruct Hin as [user [Hu Hin]]. apply In_primary_part in Hin.
    destruct Hin as [_ [_ [-> ->]]].
    exists user. split; [exact Hu|]. split; [reflexivity|].
    rewrite keys_add_included, keys_scan_entry.
    unfold first_seen. now rewrite first_seen_from_app.
  - intros name result Hin. apply in_flat_map in Hin.
    destruct Hin as [user [Hu Hin]]. apply In_include_all_part in Hin.
    destruct Hin as [_ [_ [-> ->]]].
    exists user. split; [exact Hu|]. split; [reflexivity|].
    apply keys_add_include_all.
Qed.

Lemma result_attribute_order_witness :
  exists out,
    find_non_standard_fields directory [] [mail; cn] [] 2 = Ok out
    /\ forall result,
         In (lit "bob", result) (fst out) -> 
         exists user,
           In user directory /\ lit "bob" = display_name user.
Proof.
  eexists. split; [vm_compute; reflexivity|].
  intros result Hin.
  assert (Hn : Forall named directory).
  { repeat constructor; intros H; discriminate H. }
  destruct (result_attribute_order directory [] [mail; cn] [] 2 _ _ _
              eq_refl eq_refl Hn eq_refl) as [Hord _].
  destruct (Hord _ _ Hin) as [user [Hu [Hname _]]].
  exists user. split; assumption.
Defined.

(* ================================================================== *)
(** * Exceptions of the classifier and of the inventory                *)
(* ================================================================== *)

Lemma threshold_levels_raise (level : Z) (e : exn) :
  threshold_levels level = Raise e -> e = KeyError.
Proof.
  unfold threshold_levels.
  repeat match goal with
         | |- context [match ?p with _ => _ end] => destruct p
         end;
    intros H; try discriminate H; injection H as <-; reflexivity.
Qed.

Lemma threshold_levels_inside (level : Z) :
  (1 <= level <= 5)%Z ->
  exists thr num den,
    threshold_levels level = Ok thr
    /\ level_fraction level = Some (num, den)
    /\ (0 < num < den)%Z.
Proof.
  intros H.
  assert (Hc : level = 1%Z \/ level = 2%Z \/ level = 3%Z \/ level = 4%Z
               \/ level = 5%Z) by lia.
  destruct Hc as [-> | [-> | [-> | [-> | ->]]]];
    eexists; eexists; eexists;
    (split; [reflexivity|]); (split; [reflexivity|]); lia.
Qed.

Lemma float_of_int_count (users : list entry) :
  (Z.of_nat (List.length users) < 2 ^ 53)%Z ->
  exists y, float_of_int (Z.of_nat (List.length users)) = Ok y.
Proof.
  intros H. apply float_of_int_small. unfold prec. lia.
Qed.

Lemma get_username_empty (user : entry) :
  dict_get user cn = Some [] -> get_username user = Raise IndexError.
Proof. intros H. unfold get_username. now rewrite H. Qed.

Lemma find_non_standard_fields_returns (users : list entry)
  (exclude_fields include_fields include_all_fields : list str)
  (threshold_level : Z) :
  Forall named users ->
  (Z.of_nat (List.length users) < 2 ^ 53)%Z ->
  (1 <= threshold_level <= 5)%Z ->
  exists out,
    find_non_standard_fields users exclude_fields include_fields
                             include_all_fields threshold_level
    = Ok out.
Proof.
  intros Hn Hlen Hl.
  destruct (threshold_levels_inside _ Hl) as [thr [num [den [Ht _]]]].
  destruct (float_of_int_count users Hlen) as [y Hy].
  eexists.
  exact (find_non_standard_fields_contributions users exclude_fields
           include_fields include_all_fields threshold_level thr y
           Ht Hy Hn).
Qed.

(** X8. On named entries, fewer than [2 ^ 53] of them,
    [find_non_standard_fields] raises [KeyError] exactly when the level
    is not one of 1 to 5, whatever the data and the name sets are, and
    returns for each of the five levels. *)
Theorem level_decides_key_error (users : list entry)
  (exclude_fields include_fields include_all_fields : list str)
  (threshold_level : Z) :
  Forall named users ->
  (Z.of_nat (List.length users) < 2 ^ 53)%Z ->
  (find_non_standard_fields users exclude_fields include_fields
                            include_all_fields threshold_level
   = Raise KeyError
   <-> (threshold_level < 1 \/ 5 < threshold_level)%Z)
  /\ ((1 <= threshold_level <= 5)%Z ->
      exists out,
        find_non_standard_fields users exclude_fields include_fields
                                 include_all_fields threshold_level
        = Ok out).
Proof.
  intros Hn Hlen.
  pose proof (find_non_standard_fields_returns users exclude_fields
                include_fields include_all_fields threshold_level Hn Hlen)
    as Hin.
  split; [|exact Hin]. split.
  - intros Hr.
    destruct (Z_lt_dec threshold_level 1) as [|H1]; [now left|].
    destruct (Z_lt_dec 5 threshold_level) as [|H5]; [now right|].
    destruct Hin as [out Ho]; [lia|]. rewrite Ho in Hr. discriminate Hr.
  - intros Hout. unfold find_non_standard_fields.
    destruct (threshold_levels threshold_level) as [thr|e] eqn:E.
    + apply threshold_levels_dom in E. lia.
    + apply threshold_levels_raise in E. subst e. reflexivity.
Qed.

Lemma level_decides_key_error_witness :
  find_non_standard_fields directory [] [] [] 0 = Raise KeyError
  /\ exists out, find_non_standard_fields directory [] [] [] 5 = Ok out.
Proof.
  assert (Hn : Forall named directory).
  { repeat constructor; intros H; discriminate H. }
  assert (Hlen : (Z.of_nat (List.length directory) < 2 ^ 53)%Z)
    by (vm_compute; reflexivity).
  split.
  - apply (level_decides_key_error directory [] [] [] 0 Hn Hlen). lia.
  - apply (level_decides_key_error directory [] [] [] 5 Hn Hlen). lia.
Defined.

(** X9. An entry whose [cn] has an empty list of values makes both
    [find_non_standard_fields] and [list_users] raise [IndexError] when
    the loop reaches it, the entries before it being named. (The parser
    never builds such an entry: every attribute it stores has a
    value.) *)
Theorem empty_cn_raises_index_error (pre post : list entry) (user : entry)
  (exclude_fields include_fields include_all_fields : list str)
  (threshold_level : Z) (field_count : counter) :
  Forall named pre ->
  dict_get user cn = Some [] ->
  (1 <= threshold_level <= 5)%Z ->
  (Z.of_nat (List.length (pre ++ user :: post)) < 2 ^ 53)%Z ->
  find_non_standard_fields (pre ++ user :: post) exclude_fields
                           include_fields include_all_fields threshold_level
  = Raise IndexError
  /\ list_users (pre ++ user :: post) field_count = Raise IndexError.
Proof.
  intros Hn Hcn Hl Hlen.
  destruct (threshold_levels_inside _ Hl) as [thr [num [den [Ht _]]]].
  destruct (float_of_int_count _ Hlen) as [y Hy].
  split.
  - unfold find_non_standard_fields. rewrite Ht. cbn [bind].
    rewrite for_each_app.
    erewrite classify_loop;
      [|unfold int_mul_float; rewrite Hy; reflexivity | exact Hn].
    cbn [bind for_each]. unfold classify_user.
    rewrite (get_username_empty user Hcn). reflexivity.
  - unfold list_users. rewrite for_each_app.
    erewrite list_users_loop;
      [|unfold int_mul_float; rewrite Hy; reflexivity | exact Hn].
    cbn [bind for_each]. unfold list_users_step.
    rewrite (get_username_empty user Hcn). reflexivity.
Qed.

Lemma empty_cn_raises_index_error_witness :
  find_non_standard_fields [bob; [(cn, [])]; al] [] [] [] 2
  = Raise IndexError
  /\ list_users [bob; [(cn, [])]; al] [] = Raise IndexError.
Proof.
  apply (empty_cn_raises_index_error [bob] [al] [(cn, [])] [] [] [] 2 []).
  - repeat constructor; intros H; discriminate H.
  - reflexivity.
  - lia.
  - vm_compute; reflexivity.
Defined.

(* ================================================================== *)
(** * The rarity tests in exact arithmetic                             *)
(* ================================================================== *)

Lemma bool_eq_iff (a b : bool) : (a = true <-> b = true) -> a = b.
Proof. destruct a, b; intuition congruence. Qed.

Lemma below_level_exact (field_count : counter) (n : Z) (field : str)
  (level num den : Z) (thr : float) :
  (0 <= n < 2 ^ 47)%Z ->
  threshold_levels level = Ok thr ->
  level_fraction level = Some (num, den) ->
  below field_count n thr field
  = Ok (counter_get field_count field * den <? n * num)%Z.
Proof.
  intros Hn Ht Hf.
  destruct (float_of_int_small n) as [y Hy]; [unfold prec; lia|].
  unfold below, int_mul_float. rewrite Hy. cbn [bind]. f_equal.
  apply bool_eq_iff. rewrite Z.ltb_lt.
  exact (level_product_exact level n _ num den thr y Ht Hf Hn Hy).
Qed.

Lemma below_inventory_exact (field_count : counter) (n : Z) (field : str) :
  (0 <= n < 2 ^ 47)%Z ->
  below field_count n f_0_6 field
  = Ok (5 * counter_get field_count field <? 3 * n)%Z.
Proof.
  intros Hn.
  destruct (float_of_int_small n) as [y Hy]; [unfold prec; lia|].
  unfold below, int_mul_float. rewrite Hy. cbn [bind]. f_equal.
  apply bool_eq_iff. rewrite Z.ltb_lt.
  exact (inventory_product_exact n _ y Hn Hy).
Qed.

(** The literals of the script are the floats of the model. *)
Lemma threshold_literals :
  f_0_1 = decimal 1 10 /\ f_0_25 = decimal 1 4 /\ f_0_5 = decimal 1 2
  /\ f_0_75 = decimal 3 4 /\ f_0_95 = decimal 19 20 /\ f_0_6 = decimal 3 5.
Proof. vm_compute. repeat split; reflexivity. Qed.

(** X10. The test of the inner loop of [find_non_standard_fields] in
    exact terms, on fewer than [2 ^ 47] entries without repeated
    attribute names: a field is kept exactly when it is not excluded
    and is either outside the standard set or held by a share of the
    entries strictly below the fraction of the level. The float product
    of the script loses nothing. *)
Theorem selected_by_frequency (users : list entry)
  (exclude_fields : list str) (level num den : Z) (thr : float)
  (field : str) :
  Forall distinct_names users ->
  (Z.of_nat (List.length users) < 2 ^ 47)%Z ->
  threshold_levels level = Ok thr ->
  level_fraction level = Some (num, den) ->
  selected exclude_fields thr (count_fields users)
           (Z.of_nat (List.length users)) field
  = Ok (negb (str_in field exclude_fields)
        && (negb (str_in field standard_ldap_fields)
            || (frequency users field * den
                <? Z.of_nat (List.length users) * num)%Z)).
Proof.
  intros Hd Hlen Ht Hf. unfold selected.
  destruct (str_in field exclude_fields); [reflexivity|].
  destruct (str_in field standard_ldap_fields); [|reflexivity].
  cbn [negb andb orb].
  rewrite (below_level_exact _ _ field level num den thr) by (auto; lia).
  now rewrite (count_fields_frequency users field Hd).
Qed.

Lemma selected_by_frequency_witness :
  selected [] f_0_25 (count_fields directory) 4 cn = Ok false
  /\ selected [] f_0_75 (count_fields directory) 4 mail = Ok true.
Proof.
  assert (Hd : Forall distinct_names directory).
  { repeat constructor; simpl; intuition discriminate. }
  assert (Hlen : (Z.of_nat (List.length directory) < 2 ^ 47)%Z)
    by (vm_compute; reflexivity).
  split.
  - etransitivity;
      [exact (selected_by_frequency directory [] 2 1 4 f_0_25 cn Hd Hlen
                eq_refl eq_refl)|].
    reflexivity.
  - etransitivity;
      [exact (selected_by_frequency directory [] 4 3 4 f_0_75 mail Hd Hlen
                eq_refl eq_refl)|].
    reflexivity.
Defined.

(** X11. A field that every entry has is never rare: at every level
    the inner test of [find_non_standard_fields] keeps it only if it is
    non-standard (and not excluded), and the 60% test of [list_users]
    is false for it. *)
Theorem universal_field_never_rare (users : list entry)
  (exclude_fields : list str) (level : Z) (thr : float) (field : str) :
  Forall distinct_names users ->
  (Z.of_nat (List.length users) < 2 ^ 47)%Z ->
  threshold_levels level = Ok thr ->
  (forall user, In user users -> In field (keys user)) ->
  selected exclude_fields thr (count_fields users)
           (Z.of_nat (List.length users)) field
  = Ok (negb (str_in field exclude_fields)
        && negb (str_in field standard_ldap_fields))
  /\ below (count_fields users) (Z.of_nat (List.length users)) f_0_6 field
     = Ok false.
Proof.
  intros Hd Hlen Ht Hall.
  pose proof (threshold_levels_dom _ _ Ht) as Hl.
  destruct (threshold_levels_inside _ Hl) as [thr' [num [den [Ht' [Hf Hnd]]]]].
  assert (Hfreq : frequency users field = Z.of_nat (List.length users))
    by now apply frequency_bounds.
  split.
  - unfold selected.
    destruct (str_in field exclude_fields); [reflexivity|].
    destruct (str_in field standard_ldap_fields); [|reflexivity].
    cbn [negb andb].
    rewrite (below_level_exact _ _ field level num den thr) by (auto; lia).
    rewrite (count_fields_frequency users field Hd), Hfreq.
    f_equal. apply Z.ltb_ge. apply Z.mul_le_mono_nonneg_l; lia.
  - rewrite below_inventory_exact by lia.
    rewrite (count_fields_frequency users field Hd), Hfreq.
    f_equal. apply Z.ltb_ge. lia.
Qed.

Lemma universal_field_never_rare_witness :
  selected [] f_0_95 (count_fields directory) 4 cn = Ok false
  /\ below (count_fields directory) 4 f_0_6 cn = Ok false.
Proof.
  assert (Hd : Forall distinct_names directory).
  { repeat constructor; simpl; intuition discriminate. }
  assert (Hlen : (Z.of_nat (List.length directory) < 2 ^ 47)%Z)
    by (vm_compute; reflexivity).
  apply (universal_field_never_rare directory [] 5 f_0_95 cn Hd Hlen eq_refl).
  intros user Hin. simpl in Hin.
  destruct Hin as [<- | [<- | [<- | [<- | []]]]]; simpl; auto.
Defined.

(* ================================================================== *)
(** * Validation twice                                                 *)
(* ================================================================== *)

Lemma filter_filter_same {A : Type} (p : A -> bool) (l : list A) :
  filter p (filter p l) = filter p l.
Proof.
  induction l as [|a l IH]; [reflexivity|].
  simpl. destruct (p a) eqn:E; [|exact IH].
  simpl. rewrite E. now f_equal.
Qed.

Lemma filter_filter_neg {A : Type} (p : A -> bool) (l : list A) :
  filter (fun a => negb (p a)) (filter p l) = [].
Proof.
  induction l as [|a l IH]; [reflexivity|].
  simpl. destruct (p a) eqn:E; [|exact IH].
  simpl. rewrite E. exact IH.
Qed.

Lemma filter_length_split {A : Type} (p : A -> bool) (l : list A) :
  (List.length (filter p l) + List.length (filter (fun a => negb (p a)) l)
   = List.length l)%nat.
Proof.
  induction l as [|a l IH]; [reflexivity|].
  simpl. destruct (p a); simpl; lia.
Qed.

Lemma validate_fields_eq (fields existing_fields : list str) :
  validate_fields fields existing_fields
  = (filter (fun f => str_in f existing_fields) fields,
     filter (fun f => negb (str_in f existing_fields)) fields).
Proof.
  unfold validate_fields.
  exact (validate_fields_filter existing_fields fields [] []).
Qed.

(** X12. Validating a validated list against the same fields keeps it
    as it is and warns about nothing; and every given name is either
    kept or warned about, repetitions included. *)
Theorem validate_fields_idempotent (fields existing_fields : list str) :
  validate_fields (fst (validate_fields fields existing_fields))
                  existing_fields
  = (fst (validate_fields fields existing_fields), [])
  /\ (List.length (fst (validate_fields fields existing_fields))
      + List.length (snd (validate_fields fields existing_fields))
      = List.length fields)%nat.
Proof.
  rewrite !validate_fields_eq. cbn [fst snd]. split.
  - now rewrite filter_filter_same, filter_filter_neg.
  - apply filter_length_split.
Qed.

(* ================================================================== *)
(** * The top level                                                    *)
(* ================================================================== *)

Lemma count_unknown_loop (users : list entry) :
  Forall named users ->
  forall n,
    for_each
      (fun (n : Z) (user : entry) =>
         username <- get_username user ;;
         Ok (if str_eqb username Unknown then (n + 1)%Z else n))
      users n
    = Ok (n + Z.of_nat
                (List.length
                   (filter (fun user => str_eqb (display_name user) Unknown)
                           users)))%Z.
Proof.
  induction 1 as [|user users Hu _ IH]; intros n.
  - simpl. f_equal. lia.
  - cbn [for_each filter]. rewrite (get_username_named user Hu).
    cbn [bind]. rewrite IH.
    destruct (str_eqb (display_name user) Unknown); cbn [List.length];
      f_equal; lia.
Qed.

Lemma classify_user_primary
  (exclude_fields include_fields include_all_fields : list str)
  (threshold_percentage : float) (field_count : counter) (total_users : Z)
  (user : entry) (prim addl prim' addl' : list (str * dict item)) :
  named user ->
  classify_user exclude_fields include_fields include_all_fields
                threshold_percentage field_count total_users
                (prim, addl) user
  = Ok (prim', addl') ->
  prim' = prim \/ exists result, prim' = prim ++ [(display_name user, result)].
Proof.
  intros Hn.
  rewrite (classify_user_named exclude_fields include_fields
             include_all_fields threshold_percentage field_count
             total_users user prim addl Hn).
  destruct (skipped user).
  - intros H. injection H as <- <-. now left.
  - destruct (for_each (scan_field exclude_fields threshold_percentage
                                   field_count total_users) user [])
      as [data|e]; [|intros H; discriminate H].
    cbn [bind]. intros H. injection H as <- <-.
    destruct (truthy data); [right; eexists; reflexivity | now left].
Qed.

Lemma classify_loop_shown
  (exclude_fields include_fields include_all_fields : list str)
  (threshold_percentage : float) (field_count : counter) (total_users : Z)
  (users : list entry) :
  Forall named users ->
  forall prim addl prim' addl',
    for_each (classify_user exclude_fields include_fields include_all_fields
                            threshold_percentage field_count total_users)
             users (prim, addl)
    = Ok (prim', addl') ->
    (List.length (filter known_pair prim')
     <= List.length (filter known_pair prim)
        + List.length
            (filter (fun user => negb (str_eqb (display_name user) Unknown))
                    users))%nat.
Proof.
  induction 1 as [|user users Hu _ IH]; intros prim addl prim' addl' H.
  - injection H as <- <-. simpl. lia.
  - cbn [for_each] in H.
    destruct (classify_user _ _ _ _ _ _ (prim, addl) user)
      as [[prim1 addl1]|e] eqn:E; [|discriminate H].
    cbn [bind] in H. apply IH in H.
    apply (classify_user_primary _ _ _ _ _ _ _ _ _ _ _ Hu) in E.
    cbn [filter].
    destruct E as [-> | [result ->]].
    + destruct (negb (str_eqb (display_name user) Unknown));
        cbn [List.length]; lia.
    + rewrite filter_app, length_app in H.
      assert (Hk : filter known_pair [(display_name user, result)]
                   = if negb (str_eqb (display_name user) Unknown)
                     then [(display_name user, result)] else [])
        by reflexivity.
      rewrite Hk in H.
      destruct (negb (str_eqb (display_name user) Unknown));
        cbn [List.length] in *; lia.
Qed.

Lemma filter_known_pair (l : list (str * dict item)) :
  forall name result, In (name, result) (filter known_pair l) ->
                      name <> Unknown.
Proof.
  intros name result Hin. apply filter_In in Hin. destruct Hin as [_ Hk].
  unfold known_pair in Hk. cbn [fst] in Hk.
  apply negb_true_iff, str_eqb_neq in Hk. exact Hk.
Qed.

(** X13. The "Users Shown" line of the classification mode. The first
    number is the number of pairs displayed as main results, none of
    which is named "Unknown" (an entry without [cn] is never displayed
    there, with or without a description); the second is the number of
    entries whose display name is not "Unknown"; the first is at most
    the second, which is at most the number of entries. *)
Theorem users_shown_bounds (ldap_output : str)
  (exclude_fields include_fields include_all_fields : list str)
  (threshold_level : Z) (users : list entry) (warnings : list str)
  (filtered_users_count named_users : Z)
  (shown additional : list (str * dict item)) :
  parse_ldap_output ldap_output = Ok users ->
  main ldap_output exclude_fields include_fields include_all_fields
       false false threshold_level
  = Ok (SearchReport warnings filtered_users_count named_users shown
                     additional) ->
  filtered_users_count = Z.of_nat (List.length shown)
  /\ named_users
     = Z.of_nat
         (List.length
            (filter (fun user => negb (str_eqb (display_name user) Unknown))
                    users))
  /\ (0 <= filtered_users_count <= named_users)%Z
  /\ (named_users <= Z.of_nat (List.length users))%Z
  /\ forall name result, In (name, result) shown -> name <> Unknown.
Proof.
  intros Hp Hm. unfold main in Hm. rewrite Hp in Hm. cbn [bind] in Hm.
  destruct (validate_fields include_fields _) as [inc w1].
  destruct (validate_fields include_all_fields _) as [inca w2].
  destruct (find_non_standard_fields users exclude_fields inc inca
              threshold_level) as [[prim addl]|e] eqn:Ef;
    [|discriminate Hm].
  cbn [bind fst snd] in Hm.
  pose proof (parsed_entries_named _ _ Hp) as Hn.
  unfold count_unknown in Hm. rewrite (count_unknown_loop users Hn) in Hm.
  cbn [bind] in Hm. injection Hm as <- <- <- <- <-.
  unfold find_non_standard_fields in Ef.
  destruct (threshold_levels threshold_level) as [thr|e]; [|discriminate Ef].
  cbn [bind] in Ef. apply (classify_loop_shown _ _ _ _ _ _ _ Hn) in Ef.
  cbn [filter List.length] in Ef.
  pose proof (filter_length_split
                (fun user : entry => str_eqb (display_name user) Unknown)
                users) as Hs.
  pose proof (filter_length_le
                (fun user : entry =>
                   negb (str_eqb (display_name user) Unknown)) users) as Hle.
  split; [reflexivity|]. split; [lia|]. split; [lia|]. split; [lia|].
  apply filter_known_pair.
Qed.

Lemma users_shown_bounds_witness :
  exists warnings shown additional,
    main (lit "cn: bob" ++ [newline] ++ lit "shoeSize: 44"
          ++ [newline; newline] ++ lit "shoeSize: 41" ++ [newline])
         [] [] [] false false 2
    = Ok (SearchReport warnings 1 1 shown additional)
    /\ List.length shown = 1%nat.
Proof.
  eexists. eexists. eexists.
  split; [vm_compute; reflexivity|].
  pose proof (users_shown_bounds
                (lit "cn: bob" ++ [newline] ++ lit "shoeSize: 44"
                 ++ [newline; newline] ++ lit "shoeSize: 41" ++ [newline])
                [] [] [] 2 _ _ _ _ _ _ eq_refl eq_refl) as [H _].
  apply Nat2Z.inj. symmetry. exact H.
Defined.







(* ================================================================== *)
(** * What the parser and the classifier do not look at                *)
(* ================================================================== *)

Lemma parse_line_strip (st : list entry * entry) (raw : str) :
  parse_line st (strip raw) = parse_line st raw.
Proof.
  destruct st as [users user]. unfold parse_line.
  rewrite !strip_idempotent. reflexivity.
Qed.

(** X16. The parser reads every line trimmed: white space before or
    after a line never changes what the loop does with it. An indented
    line with a colon is an attribute line like any other, and a line
    without colon continues the last value whether it is indented or
    not. *)
Theorem surrounding_space_ignored (lines : list str)
  (st : list entry * entry) :
  for_each parse_line (List.map strip lines) st
  = for_each parse_line lines st.
Proof.
  revert st. induction lines as [|line lines IH]; intros st; [reflexivity|].
  cbn [List.map for_each]. rewrite parse_line_strip.
  destruct (parse_line st line) as [st'|e]; [|reflexivity].
  cbn [bind]. apply IH.
Qed.

Lemma str_in_ext (xs ys : list str) :
  (forall f, In f xs <-> In f ys) ->
  forall f, str_in f xs = str_in f ys.
Proof.
  intros H f. apply eq_true_iff_eq. rewrite !str_in_In. apply H.
Qed.

Lemma classify_user_exclude_ext
  (exclude_fields exclude_fields' include_fields include_all_fields
     : list str)
  (threshold_percentage : float) (field_count : counter) (total_users : Z)
  (st : list (str * dict item) * list (str * dict item)) (user : entry) :
  (forall f, In f exclude_fields <-> In f exclude_fields') ->
  classify_user exclude_fields include_fields include_all_fields
                threshold_percentage field_count total_users st user
  = classify_user exclude_fields' include_fields include_all_fields
                  threshold_percentage field_count total_users st user.
Proof.
  intros H. unfold classify_user. destruct st as [prim addl].
  destruct (get_username user) as [username|e]; [|reflexivity].
  cbn [bind].
  destruct (str_eqb username Unknown && negb (dict_mem user description));
    [reflexivity|].
  rewrite (for_each_ext_in
             (scan_field exclude_fields threshold_percentage field_count
                         total_users)
             (scan_field exclude_fields' threshold_percentage field_count
                         total_users)); [reflexivity|].
  intros [field value] data _. unfold scan_field, selected.
  now rewrite (str_in_ext _ _ H field).
Qed.

(** X17. [find_non_standard_fields] looks at the exclude set through
    membership tests only: two sequences with the same elements, in any
    order and with any repetitions, give the same two outputs and the
    same exceptions. *)
Theorem exclude_set_by_membership (users : list entry)
  (exclude_fields exclude_fields' include_fields include_all_fields
     : list str) (threshold_level : Z) :
  (forall f, In f exclude_fields <-> In f exclude_fields') ->
  find_non_standard_fields users exclude_fields include_fields
                           include_all_fields threshold_level
  = find_non_standard_fields users exclude_fields' include_fields
                             include_all_fields threshold_level.
Proof.
  intros H. unfold find_non_standard_fields.
  destruct (threshold_levels threshold_level) as [thr|e]; [|reflexivity].
  cbn [bind]. apply for_each_ext_in.
  intros user st _. now apply classify_user_exclude_ext.
Qed.

Lemma exclude_set_by_membership_witness :
  find_non_standard_fields directory [mail; shoeSize; mail] [] [] 2
  = find_non_standard_fields directory [shoeSize; mail] [] [] 2.
Proof.
  apply exclude_set_by_membership.
  intros f. simpl. tauto.
Defined.
